(** * dxpy.bindings.dxdatabase: the DXDatabase handler

    A shallow embedding of [src/python/dxpy/bindings/dxdatabase.py]:
    the header validator, the size formatter, the handler's constructor,
    re-binding, line iteration and the cached download URL, first for one
    caller and then for several threads that share one handler.

    Conventions.
    - A Python exception is a value of [exn]; a computation that can raise
      returns [result A].  The spec's error taxonomy is language neutral:
      its [ValidationError] and [InvalidArgument] are the [ValueError]s
      raised by [_validate_headers] and [__init__], its [InvalidModeError]
      is the [DXFileError] raised by [__iter__].
    - Python [int] is [Z].  A finite float is the rational [Q] that it
      denotes, and the operations that produce floats round as binary64
      does (53 bits, ties to even, overflow): the conversion of an [int]
      in the size formatter, the true division and the subtraction that
      give the stored expiry.  An instant ([time.time()]) is any rational,
      so what holds for every instant holds for every float.
    - A [dict] that is shared by reference lives in a [heap]; a reference
      is a location. *)

From Stdlib Require Import Ascii String ZArith QArith Qround Qabs Qpower Lqa Lia.
From stdpp Require Import gmap strings list fin_maps pretty.

Local Open Scope string_scope.
Local Open Scope list_scope.
Local Open Scope Z_scope.

(** ** Python values and exceptions *)

(** The values that a JSON response or a caller can put in a mapping. *)
Inductive pyval :=
| PyStr (s : string)
| PyBytes (b : string)
| PyInt (z : Z)
| PyBool (b : bool)
| PyNone.

(** A [dict], in iteration order. *)
Definition dict := list (pyval * pyval).

Inductive value_error :=
| BadHeaderKey (key : pyval)
| BadHeaderValue (value key : pyval)
| BadMode.

Inductive exn :=
| ValueError (why : value_error)
| DXFileError (msg : string)
| KeyError (key : string)
| TypeError
| IndexError
| OverflowError
| CollaboratorError (name : string).

Definition result (A : Type) := (exn + A)%type.

Definition ret {A} (a : A) : result A := inr a.
Definition raise {A} (e : exn) : result A := inl e.
Definition bind {A B} (m : result A) (k : A -> result B) : result B :=
  match m with
  | inl e => inl e
  | inr a => k a
  end.

Notation "'let!' x ':=' m 'in' k" := (bind m (fun x => k))
  (at level 10, x pattern, m at level 100, k at level 200).

(** ** _validate_headers *)

(** [isstr x] stands for [isinstance(x, basestring)];  [compat.basestring]
    is not among the sources at hand, so the test is a parameter. *)
Fixpoint _validate_items (isstr : pyval -> bool) (items : dict) : result unit :=
  match items with
  | [] => ret tt
  | (key, value) :: rest =>
      if negb (isstr key) then raise (ValueError (BadHeaderKey key))
      else if negb (isstr value)
           then raise (ValueError (BadHeaderValue value key))
           else _validate_items isstr rest
  end.

Definition _validate_headers (isstr : pyval -> bool) (headers : dict) : result dict :=
  let! _ := _validate_items isstr headers in ret headers.

(** Every key and every value of the mapping is a text value. *)
Definition all_text (isstr : pyval -> bool) (headers : dict) : Prop :=
  Forall (fun kv => isstr kv.1 = true /\ isstr kv.2 = true) headers.

Definition is_value_error {A} (r : result A) : Prop :=
  exists why, r = inl (ValueError why).

(** ** _readable_part_size *)

Definition KB : Z := 1024.
Definition MB : Z := KB * 1024.
Definition GB : Z := MB * 1024.
Definition TB : Z := GB * 1024.

(** [float(n)] for a positive [int]: the nearest number with a 53 bit
    significand, ties to the even significand. *)
Definition round53 (n : Z) : Z :=
  let e := Z.log2 n + 1 - 53 in
  if e <=? 0 then n
  else
    let q := n / 2 ^ e in
    let r := n mod 2 ^ e in
    let half := 2 ^ (e - 1) in
    if r <? half then q * 2 ^ e
    else if half <? r then (q + 1) * 2 ^ e
    else if Z.even q then q * 2 ^ e
    else (q + 1) * 2 ^ e.

(** The conversion that [B/KB] applies to the [int] [B] before dividing:
    it raises [OverflowError] when the rounded value leaves binary64. *)
Definition float_of_int (n : Z) : result Z :=
  let x := Z.sgn n * round53 (Z.abs n) in
  if 2 ^ 1024 <=? Z.abs x then raise OverflowError else ret x.

(** [B/unit] for [unit] one of [KB] .. [TB] and [unit <= B]: the divisor is
    a power of two and the quotient is at least one, so the division is
    exact on the converted [B]. *)
Definition truediv (B unit : Z) : result Q :=
  let! x := float_of_int B in ret (inject_Z x / inject_Z unit)%Q.

(** The number of hundredths nearest to a non-negative [x], ties to even. *)
Definition hundredths (x : Q) : Z :=
  let n := 100 * Qnum x in
  let d := Z.pos (Qden x) in
  let q := n / d in
  let r := n mod d in
  if 2 * r <? d then q
  else if d <? 2 * r then q + 1
  else if Z.even q then q
  else q + 1.

(** ['{0:.2f}'.format(x)] for a non-negative [x]. *)
Definition format_2f (x : Q) : string :=
  let h := hundredths x in
  pretty (h / 100) +:+ "." +:+ pretty (h / 10 mod 10) +:+ pretty (h mod 10).

(** The chain of [if]/[elif] has no [else]: [None] stands for falling
    through it. *)
Definition _readable_part_size (num_bytes : Z) : result (option string) :=
  let B := num_bytes in
  if B <? KB then
    ret (Some (pretty B +:+ " " +:+ (if negb (B =? 1) then "bytes" else "byte")))
  else if (KB <=? B) && (B <? MB) then
    let! x := truediv B KB in ret (Some (format_2f x +:+ " KiB"))
  else if (MB <=? B) && (B <? GB) then
    let! x := truediv B MB in ret (Some (format_2f x +:+ " MiB"))
  else if (GB <=? B) && (B <? TB) then
    let! x := truediv B GB in ret (Some (format_2f x +:+ " GiB"))
  else if TB <=? B then
    let! x := truediv B TB in ret (Some (format_2f x +:+ " TiB"))
  else ret None.

(** The units by rank: 0 for bytes, 1 for KiB, ... 4 for TiB. *)
Definition unit_size (k : Z) : Z := 1024 ^ k.

Definition unit_name (k : Z) : string :=
  if k =? 1 then "KiB" else if k =? 2 then "MiB"
  else if k =? 3 then "GiB" else "TiB".

(** ** The handler *)

Definition MIN_BUFFER_SIZE : Z := 1024 * 1024.
Definition FILE_REQUEST_TIMEOUT : Z := 60.

(** [DEFAULT_BUFFER_SIZE] is raised when [dxpy.JOB_ID] is set. *)
Definition DEFAULT_BUFFER_SIZE (in_job : bool) : Z :=
  if in_job then 1024 * 1024 * 96 else 1024 * 1024 * 16.

(** A [str] object that is passed as a project.  The source compares a
    project with the class attribute [DXDatabase.NO_PROJECT_HINT] once by
    identity ([is not]) and once by value ([!=]), so the identity of that
    one object is tracked: [SentinelObject] is the object bound to the class
    attribute, [StrObject s] is any other [str] object, with characters [s]. *)
Inductive project_ref :=
| SentinelObject
| StrObject (s : string).

Definition NO_PROJECT_HINT : project_ref := SentinelObject.

(** The characters of the object: what [==], [!=], truth and the JSON
    encoding see. *)
Definition str_value (p : project_ref) : string :=
  match p with
  | SentinelObject => "NO_PROJECT_HINT"
  | StrObject s => s
  end.

(** [p is q] for [q] the class attribute. *)
Definition is_NO_PROJECT_HINT (p : project_ref) : bool :=
  match p with
  | SentinelObject => true
  | StrObject _ => false
  end.

(** [p == DXDatabase.NO_PROJECT_HINT]. *)
Definition eq_NO_PROJECT_HINT (p : project_ref) : bool :=
  String.eqb (str_value p) (str_value NO_PROJECT_HINT).

(** Characters are code points (bytes under Python 2). *)
Definition text := list N.

(** A reference to a [dict] in the heap. *)
Definition loc := nat.

Record DXDatabase := {
  _dxid : option string;
  _proj : option project_ref;
  _binary_mode : bool;
  _close_on_exit : bool;
  _read_buf : text;
  _read_bufsize : Z;
  _expected_file_size : option Z;
  _file_is_mmapd : bool;
  _download_url : option string;
  _download_url_headers : option loc;
  _download_url_expires : option Q;
}.

(** The three cached fields, as one value. *)
Definition cached (self : DXDatabase) : option string * option loc * option Q :=
  (_download_url self, _download_url_headers self, _download_url_expires self).

(** Modelled from the spec: [DXDataObject.set_ids], the method of the base
    class, which is not among the sources.  Section 3 of the spec has the
    re-bind replace the object id and the project of the reference; the
    docstring of [get_download_url] says that the project of a handler is
    the one given by the user or else [dxpy.WORKSPACE_ID].  The base class
    knows none of the fields that [DXDatabase.__init__] adds. *)
Definition DXDataObject_set_ids (workspace_id : option string)
    (self : DXDatabase) (dxid : option string) (project : option project_ref)
  : DXDatabase :=
  {| _dxid := dxid;
     _proj := match project with
              | Some p => Some p
              | None => StrObject <$> workspace_id
              end;
     _binary_mode := _binary_mode self;
     _close_on_exit := _close_on_exit self;
     _read_buf := _read_buf self;
     _read_bufsize := _read_bufsize self;
     _expected_file_size := _expected_file_size self;
     _file_is_mmapd := _file_is_mmapd self;
     _download_url := _download_url self;
     _download_url_headers := _download_url_headers self;
     _download_url_expires := _download_url_expires self |}.

(** [DXDatabase.set_ids]: the call of the base method and nothing else
    (what follows it in the source is a comment). *)
Definition set_ids (workspace_id : option string)
    (self : DXDatabase) (dxid : option string) (project : option project_ref)
  : DXDatabase :=
  DXDataObject_set_ids workspace_id self dxid project.

(** ['b' in mode] and [mode.replace("b", "")]. *)
Definition is_b (c : ascii) : bool := Ascii.eqb c "b"%char.

Fixpoint contains_b (mode : string) : bool :=
  match mode with
  | EmptyString => false
  | String c rest => is_b c || contains_b rest
  end.

Fixpoint remove_b (mode : string) : string :=
  match mode with
  | EmptyString => EmptyString
  | String c rest => if is_b c then remove_b rest else String c (remove_b rest)
  end.

(** [mode in ['r', 'w', 'a']]. *)
Definition is_rwa (mode : string) : bool :=
  String.eqb mode "r" || String.eqb mode "w" || String.eqb mode "a".

(** The mode part of [__init__]: the binary flag and [_close_on_exit]. *)
Definition parse_mode (mode : option string) : result (bool * bool) :=
  match mode with
  | None => ret (false, true)
  | Some mode =>
      let binary := contains_b mode in
      let mode := if binary then remove_b mode else mode in
      if negb (is_rwa mode) then raise (ValueError BadMode)
      else ret (binary, String.eqb mode "w")
  end.

(** [DXDatabase.__init__].  The constructor of the base class is modelled
    from the spec like [DXDataObject_set_ids]: section 4.4 has the
    construction bind the object reference. *)
Definition __init__ (workspace_id : option string)
    (dxid : option string) (project : option project_ref) (mode : option string)
    (read_buffer_size : Z) (expected_file_size : option Z) (file_is_mmapd : bool)
  : result DXDatabase :=
  let! flags := parse_mode mode in
  ret {| _dxid := dxid;
         _proj := match project with
                  | Some p => Some p
                  | None => StrObject <$> workspace_id
                  end;
         _binary_mode := flags.1;
         _close_on_exit := flags.2;
         _read_buf := [];
         _read_bufsize := read_buffer_size;
         _expected_file_size := expected_file_size;
         _file_is_mmapd := file_is_mmapd;
         _download_url := None;
         _download_url_headers := None;
         _download_url_expires := None |}.

(** ** Line iteration: __iter__ *)

Definition LF : N := 10.
Definition CR : N := 13.

(** The line boundaries of [splitlines]: of [bytes] under Python 2 (where
    [read] returns [str], that is bytes), of [str] under Python 3. *)
Definition is_linebreak (py2 : bool) (c : N) : bool :=
  if py2 then existsb (N.eqb c) [LF; CR]
  else existsb (N.eqb c) [LF; 11; 12; CR; 28; 29; 30; 133; 8232; 8233]%N.

(** [after_cr] remembers that the last boundary was a carriage return: a
    line feed that follows it belongs to the same boundary.  [cur] is the
    line being read. *)
Fixpoint splitlines_go (py2 after_cr : bool) (cur s : text) : list text :=
  match s with
  | [] => match cur with [] => [] | _ => [cur] end
  | c :: rest =>
      if after_cr && (c =? LF)%N then splitlines_go py2 false cur rest
      else if is_linebreak py2 c
           then cur :: splitlines_go py2 (c =? CR)%N [] rest
           else splitlines_go py2 false (cur ++ [c]) rest
  end.

Definition splitlines (py2 : bool) (s : text) : list text :=
  splitlines_go py2 false [] s.

(** ["\n" in _buffer]. *)
Definition has_newline (s : text) : bool := existsb (N.eqb LF) s.

(** How a generator ends. *)
Inductive stop :=
| StopIteration
| Raised (e : exn).

(** What a consumer that exhausts the generator sees: the items, the way
    it ended, and the state of the object that [read] drains. *)
Record iteration (R : Type) := {
  yielded : list text;
  stopped : stop;
  reader : R;
}.
Arguments yielded {R}.
Arguments stopped {R}.
Arguments reader {R}.

(** The [while not done] loop.  [read] is a parameter (the method is not
    defined in the sources); [out] collects the items yielded so far.  The
    loop ends with the unsplit remainder, or raises. *)
Fixpoint iter_loop {R} (read : Z -> R -> text * R) (py2 : bool) (bufsize : Z)
    (fuel : nat) (_buffer : text) (r : R) (out : list text)
  : option (list text * result text * R) :=
  match fuel with
  | O => None
  | S fuel =>
      if has_newline _buffer then
        let lines := splitlines py2 _buffer in
        match lines with
        | [] => Some (out, raise IndexError, r)
        | _ :: _ =>
            iter_loop read py2 bufsize fuel (List.last lines []) r
              (out ++ removelast lines)
        end
      else
        let '(more, r') := read bufsize r in
        match more with
        | [] => Some (out, ret _buffer, r')
        | _ :: _ => iter_loop read py2 bufsize fuel (_buffer ++ more) r' out
        end
  end.

(** What follows the loop: [if _buffer: yield _buffer]. *)
Definition finish {R} (l : option (list text * result text * R)) : option (iteration R) :=
  match l with
  | None => None
  | Some (out, inl e, r) => Some {| yielded := out; stopped := Raised e; reader := r |}
  | Some (out, inr [], r) => Some {| yielded := out; stopped := StopIteration; reader := r |}
  | Some (out, inr (c :: b), r) =>
      Some {| yielded := out ++ [c :: b]; stopped := StopIteration; reader := r |}
  end.

Definition binary_mode_message : string :=
  "Cannot read lines when file opened in binary mode".

(** [__iter__], run to its end.  [None]: the fuel did not suffice. *)
Definition __iter__ {R} (read : Z -> R -> text * R) (py2 : bool) (fuel : nat)
    (self : DXDatabase) (r : R) : option (iteration R) :=
  let '(_buffer, r) := read (_read_bufsize self) r in
  if py2 then
    finish (iter_loop read py2 (_read_bufsize self) fuel _buffer r [])
  else
    if _binary_mode self then
      Some {| yielded := []; stopped := Raised (DXFileError binary_mode_message);
              reader := r |}
    else
      finish (iter_loop read py2 (_read_bufsize self) fuel _buffer r []).

(** Modelled from the spec: [read], which the sources do not define.
    Section 4.4: [read(n)] returns up to [n] units, waits until that much
    is there or the object ends, and returns a short or empty result at the
    end of the object.  The state is the part of the object not yet read. *)
Definition read (n : Z) (rest : text) : text * text :=
  (take (Z.to_nat n) rest, drop (Z.to_nat n) rest).

(** The code points of a literal. *)
Definition chars (s : string) : text :=
  map N_of_ascii (list_ascii_of_string s).

(** The object ["a\nb\nc"] and the object ["a\nb\n"]. *)
Definition abc : text := chars "a" ++ [LF] ++ chars "b" ++ [LF] ++ chars "c".
Definition ab_ : text := chars "a" ++ [LF] ++ chars "b" ++ [LF].

(** A handler as [DXDatabase(mode=..., read_buffer_size=n)] makes it. *)
Definition opened (binary : bool) (bufsize : Z) : DXDatabase :=
  {| _dxid := None; _proj := None;
     _binary_mode := binary; _close_on_exit := false;
     _read_buf := []; _read_bufsize := bufsize;
     _expected_file_size := None; _file_is_mmapd := false;
     _download_url := None; _download_url_headers := None;
     _download_url_expires := None |}.

(** ** get_download_url *)

(** What [dxpy.api.database_download_file] is called with and what it
    answers: the [url], the optional [headers], and [expires] in
    milliseconds. *)
Record request := {
  req_dxid : option string;
  req_args : gmap string pyval;
  req_kwargs : gmap string pyval;
}.

Record response := {
  resp_url : string;
  resp_headers : option dict;
  resp_expires : option Z;
}.

(** The surroundings of the handler: the interpreter, the process
    environment and the two collaborators.  The transport may answer each
    call differently: its first argument counts the calls made before. *)
Record world := {
  USING_PYTHON2 : bool;
  basestring : pyval -> bool;
  environ : gmap string string;
  object_exists_in_project : option string -> string -> bool;
  database_download_file : nat -> request -> result response;
}.

(** The arguments of one call of [get_download_url]. *)
Record call := {
  duration : option Z;
  preauthenticated : bool;
  filename : option string;
  src_filename : option string;
  project : option project_ref;
  kwargs : gmap string pyval;
}.

(** What the calls act on: the handler, the heap of [dict] objects, the
    requests sent to the transport so far, and the files written by the
    test hook. *)
Record state := {
  handler : DXDatabase;
  heap : list dict;
  calls : list request;
  files : gmap string string;
}.

Definition set_handler (h : DXDatabase) (s : state) : state :=
  {| handler := h; heap := heap s; calls := calls s; files := files s |}.

Definition set_files (f : gmap string string) (s : state) : state :=
  {| handler := handler s; heap := heap s; calls := calls s; files := f |}.

Definition log_call (r : request) (s : state) : state :=
  {| handler := handler s; heap := heap s; calls := calls s ++ [r];
     files := files s |}.

(** A new [dict] object; its reference is the old size of the heap. *)
Definition alloc (d : dict) (s : state) : state :=
  {| handler := handler s; heap := heap s ++ [d]; calls := calls s;
     files := files s |}.

Definition deref (h : list dict) (l : loc) : dict := default [] (h !! l).

Definition with_url (u : option string) (self : DXDatabase) : DXDatabase :=
  {| _dxid := _dxid self; _proj := _proj self;
     _binary_mode := _binary_mode self; _close_on_exit := _close_on_exit self;
     _read_buf := _read_buf self; _read_bufsize := _read_bufsize self;
     _expected_file_size := _expected_file_size self;
     _file_is_mmapd := _file_is_mmapd self;
     _download_url := u;
     _download_url_headers := _download_url_headers self;
     _download_url_expires := _download_url_expires self |}.

Definition with_headers (l : option loc) (self : DXDatabase) : DXDatabase :=
  {| _dxid := _dxid self; _proj := _proj self;
     _binary_mode := _binary_mode self; _close_on_exit := _close_on_exit self;
     _read_buf := _read_buf self; _read_bufsize := _read_bufsize self;
     _expected_file_size := _expected_file_size self;
     _file_is_mmapd := _file_is_mmapd self;
     _download_url := _download_url self;
     _download_url_headers := l;
     _download_url_expires := _download_url_expires self |}.

Definition with_expires (e : option Q) (self : DXDatabase) : DXDatabase :=
  {| _dxid := _dxid self; _proj := _proj self;
     _binary_mode := _binary_mode self; _close_on_exit := _close_on_exit self;
     _read_buf := _read_buf self; _read_bufsize := _read_bufsize self;
     _expected_file_size := _expected_file_size self;
     _file_is_mmapd := _file_is_mmapd self;
     _download_url := _download_url self;
     _download_url_headers := _download_url_headers self;
     _download_url_expires := e |}.

(** [k in m]. *)
Definition has_key {V} (k : string) (m : gmap string V) : bool :=
  match m !! k with
  | Some _ => true
  | None => false
  end.

(** The truth value of a [str]. *)
Definition truthy (p : project_ref) : bool :=
  negb (String.eqb (str_value p) "").

(** The fall back to the project of the handler, outside of a job. *)
Definition resolve_project (w : world) (self : DXDatabase)
    (project : option project_ref) : option project_ref :=
  match project with
  | Some p => Some p
  | None =>
      if negb (has_key "DX_JOB_ID" (environ w)) then
        match _proj self with
        | Some project_from_handler =>
            if truthy project_from_handler
               && object_exists_in_project w (_dxid self)
                    (str_value project_from_handler)
            then Some project_from_handler
            else None
        | None => None
        end
      else None
  end.

(** [args], with [project] already resolved.  The sentinel is told by
    identity here. *)
Definition build_args (c : call) (project : option project_ref)
  : gmap string pyval :=
  let args := {[ "preauthenticated" := PyBool (preauthenticated c) ]} in
  let args := match duration c with
              | Some d => <[ "duration" := PyInt d ]> args
              | None => args
              end in
  let args := match src_filename c with
              | Some f => <[ "filename" := PyStr f ]> args
              | None => args
              end in
  match project with
  | Some p =>
      if negb (is_NO_PROJECT_HINT p)
      then <[ "projectContext" := PyStr (str_value p) ]> args
      else args
  | None => args
  end.

(** The test hook: the file named by [_DX_DUMP_BILLED_PROJECT] is
    rewritten, with the project unless it is absent or equal to the
    sentinel.  The sentinel is told by value here. *)
Definition dump_billed_project (w : world) (project : option project_ref)
    (fs : gmap string string) : gmap string string :=
  match environ w !! "_DX_DUMP_BILLED_PROJECT" with
  | Some path =>
      match project with
      | Some p =>
          if negb (eq_NO_PROJECT_HINT p) then <[ path := str_value p ]> fs
          else <[ path := "" ]> fs
      | None => <[ path := "" ]> fs
      end
  | None => fs
  end.

(** [x < y] on instants. *)
Definition Qltb (x y : Q) : bool := negb (Qle_bool y x).

(** The expiry of a URL that is not preauthenticated. *)
Definition YEAR_3000 : Q := 32503680000.

(** *** binary64

    The integer nearest to [x], ties to the even one. *)
Definition round_half_even (x : Q) : Z :=
  let q := Qfloor x in
  match (x - inject_Z q ?= 1 # 2)%Q with
  | Lt => q
  | Gt => q + 1
  | Eq => if Z.even q then q else q + 1
  end.

(** The [k] with [2^k <= x < 2^(k+1)], for a positive [x]. *)
Definition floor_log2 (x : Q) : Z :=
  let k := Z.log2 (Qnum x) - Z.log2 (Z.pos (Qden x)) in
  if Qle_bool (2 ^ k) x then k else k - 1.

(** The binary64 number nearest to a positive [x], ties to the even
    significand: the significand has 53 bits and the spacing is never
    below [2^-1074] (the subnormal numbers).  The result can be [2^1024],
    which is no float: the caller looks at that. *)
Definition round_binary64_pos (x : Q) : Q :=
  let e := Z.max (floor_log2 x - 52) (-1074) in
  (inject_Z (round_half_even (x / 2 ^ e)) * 2 ^ e)%Q.

Definition round_binary64 (x : Q) : Q :=
  match (x ?= 0)%Q with
  | Eq => 0%Q
  | Gt => round_binary64_pos x
  | Lt => (- round_binary64_pos (- x))%Q
  end.

(** The largest relative error of a rounding, and the largest absolute
    error among the subnormal numbers. *)
Definition unit_roundoff : Q := (2 ^ (-53))%Q.
Definition tiny : Q := (2 ^ (-1075))%Q.

(** [a / b] for two [int]s and [b > 0], under
    [from __future__ import division]: the quotient of the integers,
    rounded once; [OverflowError] when it is too large for a float. *)
Definition int_truediv (a : Z) (b : positive) : result Q :=
  let x := round_binary64 (a # b) in
  if Qle_bool (2 ^ 1024) (Qabs x) then raise OverflowError else ret x.

(** [x - y] for two floats whose difference stays in the range of
    binary64, as it does for a float [x] and [y = 60]: the largest float
    is [2^1024 - 2^971], and what is less than [2^1024 - 2^970] rounds to
    a float. *)
Definition float_sub (x y : Q) : Q := round_binary64 (x - y).

(** The expiry of a preauthenticated URL: [resp["expires"]/1000 - 60]. *)
Definition expiry_of (expires_ms : Z) : result Q :=
  let! x := int_truediv expires_ms 1000 in ret (float_sub x 60).

(** [self._download_url is None or self._download_url_expires < time.time()].
    An expiry that is still [None] next to a URL compares as smaller than
    every number under Python 2 and is a [TypeError] under Python 3. *)
Definition cache_stale (w : world) (now : Q) (self : DXDatabase) : result bool :=
  match _download_url self with
  | None => ret true
  | Some _ =>
      match _download_url_expires self with
      | Some e => ret (Qltb e now)
      | None => if USING_PYTHON2 w then ret true else raise TypeError
      end
  end.

(** [kwargs], with the default timeout. *)
Definition with_timeout (kw : gmap string pyval) : gmap string pyval :=
  if negb (has_key "timeout" kw)
  then <[ "timeout" := PyInt FILE_REQUEST_TIMEOUT ]> kw
  else kw.

(** The body of the [if] under the mutex, in two halves: the request is
    sent (and logged, with its rank among the requests), then the answer
    is stored by three assignments.  An exception leaves the assignments
    made before it. *)
Definition send_request (c : call) (args : gmap string pyval) (s : state)
  : state * (request * nat) :=
  let req := {| req_dxid := _dxid (handler s); req_args := args;
                req_kwargs := with_timeout (kwargs c) |} in
  (log_call req s, (req, length (calls s))).

Definition store_answer (w : world) (c : call) (answer : result response)
    (s : state) : state * result unit :=
  match answer with
  | inl e => (s, raise e)
  | inr resp =>
      let s := set_handler (with_url (Some (resp_url resp)) (handler s)) s in
      let headers := default [] (resp_headers resp) in
      let l := length (heap s) in
      let s := alloc headers s in
      match _validate_headers (basestring w) headers with
      | inl e => (s, raise e)
      | inr _ =>
          let s := set_handler (with_headers (Some l) (handler s)) s in
          if preauthenticated c then
            match resp_expires resp with
            | None => (s, raise (KeyError "expires"))
            | Some ms =>
                match expiry_of ms with
                | inl e => (s, raise e)
                | inr x =>
                    (set_handler (with_expires (Some x) (handler s)) s, ret tt)
                end
            end
          else
            (set_handler (with_expires (Some YEAR_3000) (handler s)) s, ret tt)
      end
  end.

Definition refresh (w : world) (c : call) (args : gmap string pyval)
    (s : state) : state * result unit :=
  let '(s, (req, n)) := send_request c args s in
  store_answer w c (database_download_file w n req) s.

(** [copy.copy] of the cached headers: a new [dict] with the same items
    ([None] is copied to [None]). *)
Definition copy_copy (o : option loc) (s : state) : state * option loc :=
  match o with
  | None => (s, None)
  | Some l => (alloc (deref (heap s) l) s, Some (length (heap s)))
  end.

(** What a call returns: the URL and the reference of its headers. *)
Definition retval := (option string * option loc)%type.

(** The two assignments that end the block: the URL and the copy. *)
Definition copy_out (s : state) : state * retval :=
  let retval_download_url := _download_url (handler s) in
  let '(s, retval_download_url_headers) :=
    copy_copy (_download_url_headers (handler s)) s in
  (s, (retval_download_url, retval_download_url_headers)).

(** The block under [with self._url_download_mutex], at the instant [now]. *)
Definition locked_body (w : world) (now : Q) (c : call)
    (args : gmap string pyval) (s : state) : state * result retval :=
  match cache_stale w now (handler s) with
  | inl e => (s, raise e)
  | inr stale =>
      let '(s, r) := if stale then refresh w c args s else (s, ret tt) in
      match r with
      | inl e => (s, raise e)
      | inr _ => let '(s, rv) := copy_out s in (s, ret rv)
      end
  end.

(** What precedes the mutex: the arguments of the request and the hook. *)
Definition before_lock (w : world) (c : call) (s : state)
  : state * gmap string pyval :=
  let project := resolve_project w (handler s) (project c) in
  (set_files (dump_billed_project w project (files s)) s,
   build_args c project).

(** [get_download_url] called by the only thread that uses the handler:
    the mutex is free, taken and released again. *)
Definition get_download_url (w : world) (now : Q) (c : call) (s : state)
  : state * result retval :=
  let '(s, args) := before_lock w c s in
  locked_body w now c args s.

(** Assigning to an item of the [dict] at [l], or replacing its items. *)
Definition mutate (l : loc) (d : dict) (s : state) : state :=
  {| handler := handler s; heap := <[ l := d ]> (heap s); calls := calls s;
     files := files s |}.

(** ** Several threads on one handler *)

(** Where a thread is in its call of [get_download_url]:
    - [Ready]: before the call;
    - [Waiting]: the arguments of the request are built, the mutex is
      not yet acquired;
    - [Holding]: the mutex is acquired, the cache not yet looked at;
    - [Fetching]: the cache was stale, the request is sent (it is the
      [n]-th), the answer has not come;
    - [Copying]: the cache is good, the result not yet taken;
    - [Leaving]: the block is over, by a result or by an exception, the
      mutex is still held;
    - [Done]: the mutex is released and the call has returned or raised. *)
Inductive thread :=
| Ready (c : call)
| Waiting (c : call) (args : gmap string pyval)
| Holding (c : call) (args : gmap string pyval)
| Fetching (c : call) (req : request) (n : nat)
| Copying
| Leaving (r : result retval)
| Done (r : result retval).

Record config := {
  shared : state;
  mutex : bool;
  threads : list thread;
}.

(** One step of thread [i] at the instant [now]; [None] when the thread
    cannot move: it is done, or it waits for a mutex that is held.  The
    other threads may move between any two steps of a thread, also while
    it waits for the answer of the transport.  The clock is read when the
    cache is looked at.  [with] releases the mutex after an exception
    too. *)
Definition step (w : world) (now : Q) (i : nat) (cf : config) : option config :=
  let move s m t :=
    Some {| shared := s; mutex := m; threads := <[ i := t ]> (threads cf) |} in
  match threads cf !! i with
  | None => None
  | Some (Ready c) =>
      let '(s, args) := before_lock w c (shared cf) in
      move s (mutex cf) (Waiting c args)
  | Some (Waiting c args) =>
      if mutex cf then None else move (shared cf) true (Holding c args)
  | Some (Holding c args) =>
      match cache_stale w now (handler (shared cf)) with
      | inl e => move (shared cf) (mutex cf) (Leaving (raise e))
      | inr true =>
          let '(s, (req, n)) := send_request c args (shared cf) in
          move s (mutex cf) (Fetching c req n)
      | inr false => move (shared cf) (mutex cf) Copying
      end
  | Some (Fetching c req n) =>
      let '(s, r) :=
        store_answer w c (database_download_file w n req) (shared cf) in
      match r with
      | inl e => move s (mutex cf) (Leaving (raise e))
      | inr _ => move s (mutex cf) Copying
      end
  | Some Copying =>
      let '(s, rv) := copy_out (shared cf) in
      move s (mutex cf) (Leaving (ret rv))
  | Some (Leaving r) => move (shared cf) false (Done r)
  | Some (Done _) => None
  end.

(** A schedule names, step by step, the thread that is given the
    processor and what the clock shows then.  A thread that cannot move
    when it is scheduled loses its turn. *)
Definition schedule := list (nat * Q).

Fixpoint run (w : world) (sched : schedule) (cf : config) : config :=
  match sched with
  | [] => cf
  | (i, now) :: rest =>
      match step w now i cf with
      | Some cf' => run w rest cf'
      | None => run w rest cf
      end
  end.

(** The threads are about to call [get_download_url] on the handler of
    [s], each with its own arguments. *)
Definition start (s : state) (cs : list call) : config :=
  {| shared := s; mutex := false; threads := map Ready cs |}.

Definition is_done (t : thread) : bool :=
  match t with
  | Done _ => true
  | _ => false
  end.

Definition all_done (cf : config) : bool := forallb is_done (threads cf).

(** The threads between the acquisition and the release of the mutex. *)
Definition in_block (t : thread) : bool :=
  match t with
  | Holding _ _ | Fetching _ _ _ | Copying | Leaving _ => true
  | _ => false
  end.

(** The request that a call sends when it is the one to refresh. *)
Definition request_of (w : world) (s : state) (c : call) : request :=
  {| req_dxid := _dxid (handler s);
     req_args := build_args c (resolve_project w (handler s) (project c));
     req_kwargs := with_timeout (kwargs c) |}.

(** The expiry that a refresh by the call [c] stores for the answer [r]. *)
Definition stored_expiry (c : call) (r : response) : option Q :=
  if preauthenticated c then
    match resp_expires r with
    | Some ms =>
        match expiry_of ms with
        | inl _ => None
        | inr x => Some x
        end
    | None => None
    end
  else Some YEAR_3000.

(** The call [c], were it the one to fetch from the state [s], gets an
    answer with text headers and an expiry to store. *)
Definition answered (w : world) (s : state) (c : call) : Prop :=
  exists resp e,
    database_download_file w (length (calls s)) (request_of w s c) = ret resp /\
    all_text (basestring w) (default [] (resp_headers resp)) /\
    stored_expiry c resp = Some e.

(** The expiry stored for the answer to [c], were it the one to fetch
    from [s], has not passed at the instant [now]. *)
Definition in_time (w : world) (s : state) (now : Q) (c : call) : Prop :=
  forall resp e,
    database_download_file w (length (calls s)) (request_of w s c) = ret resp ->
    stored_expiry c resp = Some e ->
    (now <= e)%Q.

(** The instants at which the clock is read while a schedule runs:
    [time.time()] is called by a thread that holds the mutex and finds a
    URL in the cache ([or] does not evaluate its right side when the URL
    is [None]). *)
Fixpoint clock_reads (w : world) (sched : schedule) (cf : config) : list Q :=
  match sched with
  | [] => []
  | (i, now) :: rest =>
      match step w now i cf with
      | Some cf' =>
          match threads cf !! i, _download_url (handler (shared cf)) with
          | Some (Holding _ _), Some _ => now :: clock_reads w rest cf'
          | _, _ => clock_reads w rest cf'
          end
      | None => clock_reads w rest cf
      end
  end.

(** Fair schedules.  In a round every one of the [n] threads is given the
    processor at least once; a schedule is fair for [k] rounds when it is
    made of [k] rounds or more, one after the other. *)
Definition full_round (n : nat) (seg : schedule) : Prop :=
  forall i, (i < n)%nat -> exists now, (i, now) ∈ seg.

Definition fair (n k : nat) (sched : schedule) : Prop :=
  exists segs,
    sched = concat segs /\ (k <= length segs)%nat /\ Forall (full_round n) segs.

(** The steps that a thread has still to make, at most. *)
Definition remaining (t : thread) : nat :=
  match t with
  | Ready _ => 6
  | Waiting _ _ => 5
  | Holding _ _ => 4
  | Fetching _ _ _ => 3
  | Copying => 2
  | Leaving _ => 1
  | Done _ => 0
  end.

Definition work (ts : list thread) : nat := sum_list_with remaining ts.

(** What a thread that is done has returned. *)
Definition returned (t : thread) : option (result retval) :=
  match t with
  | Done r => Some r
  | _ => None
  end.

(** Calls made one after the other by a single thread. *)
Fixpoint get_download_urls (w : world) (later : list (Q * call)) (s : state)
  : state * list (result retval) :=
  match later with
  | [] => (s, [])
  | (now, c) :: rest =>
      let '(s, r) := get_download_url w now c s in
      let '(s, rs) := get_download_urls w rest s in
      (s, r :: rs)
  end.

(** ** Sample surroundings, for the closed examples *)

Definition is_str (v : pyval) : bool :=
  match v with
  | PyStr _ | PyBytes _ => true
  | _ => false
  end.

(** A server that answers the [n]-th request with its own URL, one
    header, and an expiry [expires_ms]; no project contains the object;
    the test hook is on. *)
Definition sample_world (py2 : bool) (expires_ms : Z) : world :=
  {| USING_PYTHON2 := py2;
     basestring := is_str;
     environ := {[ "_DX_DUMP_BILLED_PROJECT" := "/tmp/billed" ]};
     object_exists_in_project := fun _ _ => false;
     database_download_file := fun n _ =>
       ret {| resp_url := "https://dl/" +:+ pretty n;
              resp_headers := Some [(PyStr "Authorization", PyStr "Bearer t")];
              resp_expires := Some expires_ms |} |}.

Definition plain_call : call :=
  {| duration := None; preauthenticated := false; filename := None;
     src_filename := None; project := None; kwargs := ∅ |}.

Definition preauthenticated_call (seconds : Z) : call :=
  {| duration := Some seconds; preauthenticated := true; filename := None;
     src_filename := None; project := None; kwargs := ∅ |}.

Definition call_with_project (p : project_ref) : call :=
  {| duration := None; preauthenticated := false; filename := None;
     src_filename := None; project := Some p; kwargs := ∅ |}.

(** A handler just made for the object [dxid], nothing allocated, nothing
    sent, nothing written. *)
Definition fresh_state (dxid : string) : state :=
  {| handler := with_url None
                  (DXDataObject_set_ids None (opened false 16777216)
                     (Some dxid) None);
     heap := []; calls := []; files := ∅ |}.

(** The state after a first, plain call on a fresh handler: the URL of
    the object [database-A] is cached and does not expire before the year
    3000. *)
Definition cached_state : state :=
  (get_download_url (sample_world false 0) 0 plain_call
     (fresh_state "database-A")).1.

(** The state in which a refresh that succeeds leaves things: the answer
    [resp] to the request [req], with the expiry [e]. *)
Definition refreshed (s : state) (req : request) (resp : response) (e : Q)
  : state :=
  {| handler := with_expires (Some e)
                  (with_headers (Some (length (heap s)))
                     (with_url (Some (resp_url resp)) (handler s)));
     heap := heap s ++ [default [] (resp_headers resp)];
     calls := calls s ++ [req];
     files := files s |}.

(** The state after a first, preauthenticated call on a fresh handler,
    answered with an expiry of 100000 ms. *)
Definition preauthenticated_state : state :=
  (get_download_url (sample_world false 100000) 0 (preauthenticated_call 100)
     (fresh_state "database-A")).1.

(** The states that the methods of the class produce: the cached headers
    refer to a mapping in the heap, and an expiry is only stored after the
    headers. *)
Definition valid_state (s : state) : Prop :=
  match _download_url_headers (handler s) with
  | Some l => (l < length (heap s))%nat
  | None => _download_url_expires (handler s) = None
  end.

(** The handler of [cached_state], re-bound to the object [database-B]. *)
Definition rebound_state : state :=
  set_handler (set_ids None (handler cached_state) (Some "database-B") None)
    cached_state.

(** A [str] that equals the sentinel and is another object: one that is
    built while the program runs, or read from its input. *)
Definition equal_hint : project_ref := StrObject "NO_PROJECT_HINT".

(** ** The invariant of the threads

    [s] is the state in which the threads start, [cs] their calls. *)

(** The arguments that the call [c] builds before the mutex. *)
Definition args_of (w : world) (s : state) (c : call) : gmap string pyval :=
  build_args c (resolve_project w (handler s) (project c)).

(** A thread carries what its own call has built. *)
Definition thread_ok (w : world) (s : state) (c : call) (t : thread) : Prop :=
  match t with
  | Ready c' => c' = c
  | Waiting c' args | Holding c' args => c' = c /\ args = args_of w s c
  | Fetching c' req n =>
      c' = c /\ req = request_of w s c /\ n = length (calls s)
  | Copying | Leaving _ | Done _ => True
  end.

(** The number of threads between acquisition and release. *)
Definition in_block_count (ts : list thread) : nat :=
  sum_list_with (fun t => if in_block t then 1%nat else 0%nat) ts.

(** The mutex is held exactly when one thread is in the block. *)
Definition mutex_counts (cf : config) : Prop :=
  in_block_count (threads cf) = (if mutex cf then 1%nat else 0%nat).

(** The reference that a thread has got for its headers. *)
Definition result_loc (t : thread) : option loc :=
  match t with
  | Leaving (inr (_, Some l)) | Done (inr (_, Some l)) => Some l
  | _ => None
  end.

Definition before_block (t : thread) : bool :=
  match t with
  | Ready _ | Waiting _ _ => true
  | _ => false
  end.

(** Nothing has been sent: the cache is unset, no thread is past the
    look at the cache. *)
Definition phase_unsent (s : state) (cf : config) : Prop :=
  calls (shared cf) = calls s /\
  _download_url (handler (shared cf)) = None /\
  Forall (fun t => before_block t = true \/ exists c args, t = Holding c args)
    (threads cf).

(** Thread [f] has sent the request and waits for the answer: the cache is
    unset, the other threads have not entered the block. *)
Definition phase_sent (w : world) (s : state) (cs : list call) (cf : config)
  : Prop :=
  exists f c,
    cs !! f = Some c /\
    threads cf !! f = Some (Fetching c (request_of w s c) (length (calls s))) /\
    calls (shared cf) = calls s ++ [request_of w s c] /\
    _download_url (handler (shared cf)) = None /\
    forall j t, j <> f -> threads cf !! j = Some t -> before_block t = true.

(** The answer [resp] to the call [c] is stored, with the headers at
    [l0]: a thread that has its result has the stored URL and a mapping
    of its own with the stored items. *)
Definition phase_stored (w : world) (s : state) (cs : list call) (cf : config)
    (c : call) (resp : response) (e : Q) (l0 : loc) : Prop :=
  c ∈ cs /\
  database_download_file w (length (calls s)) (request_of w s c) = ret resp /\
  stored_expiry c resp = Some e /\
  calls (shared cf) = calls s ++ [request_of w s c] /\
  cached (handler (shared cf)) = (Some (resp_url resp), Some l0, Some e) /\
  (l0 < length (heap (shared cf)))%nat /\
  deref (heap (shared cf)) l0 = default [] (resp_headers resp) /\
  Forall (fun t =>
            match t with
            | Fetching _ _ _ => False
            | Leaving r | Done r =>
                exists l, r = ret (Some (resp_url resp), Some l) /\
                          (l0 < l < length (heap (shared cf)))%nat /\
                          deref (heap (shared cf)) l
                          = default [] (resp_headers resp)
            | _ => True
            end) (threads cf) /\
  NoDup (omap result_loc (threads cf)).

Definition invariant (w : world) (s : state) (cs : list call) (cf : config)
  : Prop :=
  Forall2 (thread_ok w s) cs (threads cf) /\
  _dxid (handler (shared cf)) = _dxid (handler s) /\
  _proj (handler (shared cf)) = _proj (handler s) /\
  in_block_count (threads cf) = (if mutex cf then 1%nat else 0%nat) /\
  (phase_unsent s cf \/ phase_sent w s cs cf \/
   exists c resp e l0, phase_stored w s cs cf c resp e l0).

(** ** Sample schedules *)

(** Every thread in turn gets one step, [rounds] times, all at [now]. *)
Definition round_robin (n rounds : nat) (now : Q) : schedule :=
  (fun i => (i, now)) <$> concat (replicate rounds (seq 0 n)).

(** Two threads ask for a preauthenticated URL that lives 30 seconds: the
    server answers with an expiry of 30000 ms while the clock shows 0. *)
Definition short_lived_race : config :=
  run (sample_world false 30000) (round_robin 2 12 0)
    (start (fresh_state "database-A")
       [preauthenticated_call 30; preauthenticated_call 30]).

(** Three threads, one of them asking for a preauthenticated URL; the
    server answers with an expiry of 100000 ms while the clock shows 0. *)
Definition sample_calls : list call :=
  [plain_call; preauthenticated_call 100; plain_call].

(** ** Further definitions, for the properties beyond the claims *)

(** A text without its line boundaries. *)
Definition without_linebreaks (py2 : bool) (s : text) : text :=
  List.filter (fun c => negb (is_linebreak py2 c)) s.

(** The fuel that line iteration over [content] never exceeds. *)
Definition enough_fuel (content : text) : nat := (2 * length content + 2)%nat.

(** The call [c] with another [filename] argument. *)
Definition with_filename (f : option string) (c : call) : call :=
  {| duration := duration c; preauthenticated := preauthenticated c;
     filename := f; src_filename := src_filename c;
     project := project c; kwargs := kwargs c |}.

(** A transport that fails with the error named [name]. *)
Definition failing_world (py2 : bool) (name : string) : world :=
  {| USING_PYTHON2 := py2;
     basestring := is_str;
     environ := ∅;
     object_exists_in_project := fun _ _ => true;
     database_download_file := fun _ _ => raise (CollaboratorError name) |}.

(** A server that sends a header whose value is a number. *)
Definition bad_headers_world (py2 : bool) : world :=
  {| USING_PYTHON2 := py2;
     basestring := is_str;
     environ := ∅;
     object_exists_in_project := fun _ _ => true;
     database_download_file := fun n _ =>
       ret {| resp_url := "https://dl/" +:+ pretty n;
              resp_headers := Some [(PyStr "Content-Length", PyInt 5)];
              resp_expires := Some 0 |} |}.

(** The state with one more request in the log and the hook run. *)
Definition after_request (w : world) (c : call) (s : state) : state :=
  log_call (request_of w s c) (before_lock w c s).1.

(** The parameters that the call [c] on the handler [self] would send. *)
Definition args_of_call (w : world) (self : DXDatabase) (c : call)
  : gmap string pyval :=
  build_args c (resolve_project w self (project c)).

(** The state around a handler that [__init__] has just returned. *)
Definition state_of (self : DXDatabase) : state :=
  {| handler := self; heap := []; calls := []; files := ∅ |}.

(** The handler that [DXDatabase(dxid, mode='r' or 'rb', ...)] returns
    when no workspace is set. *)
Definition opened_as (dxid : option string) (binary : bool) (bufsize : Z)
  : DXDatabase :=
  {| _dxid := dxid; _proj := None;
     _binary_mode := binary; _close_on_exit := false;
     _read_buf := []; _read_bufsize := bufsize;
     _expected_file_size := None; _file_is_mmapd := false;
     _download_url := None; _download_url_headers := None;
     _download_url_expires := None |}.

(** * Properties *)

(** ** The header validator *)

Lemma _validate_items_ok isstr headers :
  all_text isstr headers -> _validate_items isstr headers = ret tt.
Proof.
  induction 1 as [|[k v] rest [Hk Hv] _ IH]; simpl in *; [done|].
  by rewrite Hk, Hv.
Qed.

Lemma _validate_items_bad isstr headers :
  Exists (fun kv => isstr kv.1 = false \/ isstr kv.2 = false) headers ->
  is_value_error (_validate_items isstr headers).
Proof.
  induction headers as [|[k v] rest IH]; intros Hbad.
  - inversion Hbad.
  - simpl. destruct (isstr k) eqn:Hk; simpl; [|by eexists].
    destruct (isstr v) eqn:Hv; simpl; [|by eexists].
    apply IH. inversion Hbad as [? ? [H|H]|]; simpl in *; congruence.
Qed.

Lemma all_text_or_not isstr headers :
  all_text isstr headers \/
  Exists (fun kv => isstr kv.1 = false \/ isstr kv.2 = false) headers.
Proof.
  induction headers as [|[k v] rest [IH|IH]].
  - left. constructor.
  - destruct (isstr k) eqn:Hk; [|right; left; by left].
    destruct (isstr v) eqn:Hv; [|right; left; by right].
    left. by constructor.
  - right. by right.
Qed.

Lemma all_text_not_both isstr headers :
  all_text isstr headers ->
  Exists (fun kv => isstr kv.1 = false \/ isstr kv.2 = false) headers -> False.
Proof.
  induction 1 as [|kv rest [Hk Hv] _ IH]; inversion 1 as [? ? [H'|H']|]; subst;
    [congruence | congruence | auto].
Qed.

Lemma _validate_headers_ok isstr headers :
  all_text isstr headers -> _validate_headers isstr headers = ret headers.
Proof.
  intros H. unfold _validate_headers. by rewrite _validate_items_ok.
Qed.

Lemma _validate_headers_bad isstr headers :
  Exists (fun kv => isstr kv.1 = false \/ isstr kv.2 = false) headers ->
  is_value_error (_validate_headers isstr headers).
Proof.
  intros H. destruct (_validate_items_bad isstr headers H) as [why Hwhy].
  exists why. unfold _validate_headers. by rewrite Hwhy.
Qed.

(** C5.  For every mapping, whatever counts as text: [_validate_headers]
    raises a [ValueError] (the spec's [ValidationError]) exactly when some
    key or some value is not text, and returns the mapping it was given
    exactly when all keys and values are text; one of the two always
    happens, and the empty mapping is returned.  The function takes and
    returns values only: it has no state to change. *)
Theorem validate_headers_total (isstr : pyval -> bool) (headers : dict) :
  (is_value_error (_validate_headers isstr headers) <->
   Exists (fun kv => isstr kv.1 = false \/ isstr kv.2 = false) headers) /\
  (_validate_headers isstr headers = ret headers <-> all_text isstr headers) /\
  (is_value_error (_validate_headers isstr headers) \/
   _validate_headers isstr headers = ret headers) /\
  _validate_headers isstr [] = ret [].
Proof.
  assert (Hno : forall d, is_value_error (_validate_headers isstr d) ->
                          _validate_headers isstr d = ret d -> False).
  { intros d [why Hwhy] Hok. rewrite Hok in Hwhy. discriminate. }
  split; [|split; [|split]].
  - split; [|apply _validate_headers_bad].
    intros Herr. destruct (all_text_or_not isstr headers) as [Hall|]; [|done].
    destruct (Hno headers Herr). by apply _validate_headers_ok.
  - split; [|apply _validate_headers_ok].
    intros Hok. destruct (all_text_or_not isstr headers) as [|Hbad]; [done|].
    destruct (Hno headers); [by apply _validate_headers_bad | done].
  - destruct (all_text_or_not isstr headers).
    + right. by apply _validate_headers_ok.
    + left. by apply _validate_headers_bad.
  - reflexivity.
Qed.

(** ** The constructor *)

Lemma remove_b_filter mode :
  list_ascii_of_string (remove_b mode)
  = List.filter (fun c => negb (is_b c)) (list_ascii_of_string mode).
Proof.
  induction mode as [|c rest IH]; simpl; [done|].
  destruct (is_b c); simpl; by rewrite ?IH.
Qed.

Lemma remove_b_id mode : contains_b mode = false -> remove_b mode = mode.
Proof.
  induction mode as [|c rest IH]; simpl; [done|].
  destruct (is_b c); simpl; [done|]. intros H. by rewrite IH.
Qed.

(** The mode that is validated is the mode without its [b]s. *)
Lemma parse_mode_stripped mode :
  (if contains_b mode then remove_b mode else mode) = remove_b mode.
Proof.
  destruct (contains_b mode) eqn:H; [done|]. by rewrite remove_b_id.
Qed.

Lemma is_rwa_spec mode : is_rwa mode = true <-> mode ∈ ["r"; "w"; "a"].
Proof.
  unfold is_rwa. rewrite !orb_true_iff, !String.eqb_eq.
  rewrite !elem_of_cons, elem_of_nil. tauto.
Qed.

(** C7.  With a mode string, [__init__] validates the string without its
    [b]s (every [b] is removed, nothing else): it raises the [ValueError]
    for the mode (the spec's [InvalidArgument]) if and only if what
    remains is not one of [r], [w], [a], and otherwise returns a handler
    whose binary flag tells whether there was a [b].  Without a mode it
    returns a handler that is marked to close on exit. *)
Theorem init_mode_validation (workspace_id dxid : option string)
    (project : option project_ref) (read_buffer_size : Z)
    (expected_file_size : option Z) (file_is_mmapd : bool) :
  let init mode :=
    __init__ workspace_id dxid project mode read_buffer_size
      expected_file_size file_is_mmapd in
  (forall mode : string,
      list_ascii_of_string (remove_b mode)
      = List.filter (fun c => negb (Ascii.eqb c "b")) (list_ascii_of_string mode) /\
      (init (Some mode) = raise (ValueError BadMode) <->
       remove_b mode ∉ ["r"; "w"; "a"]) /\
      (remove_b mode ∈ ["r"; "w"; "a"] <->
       exists self, init (Some mode) = ret self /\
                    _binary_mode self = contains_b mode /\
                    _close_on_exit self = String.eqb (remove_b mode) "w")) /\
  (exists self, init None = ret self /\ _close_on_exit self = true /\
                _binary_mode self = false).
Proof.
  intros init. split.
  - intros mode. split; [apply remove_b_filter|].
    unfold init, __init__, parse_mode. rewrite parse_mode_stripped.
    rewrite <- is_rwa_spec.
    destruct (is_rwa (remove_b mode)); simpl.
    + split.
      * split; [discriminate | intros H; by destruct H].
      * split; [intros _; eauto | done].
    + split.
      * split; [intros _ H; discriminate | done].
      * split; [discriminate | intros (self & H & _); discriminate].
  - eexists. by split.
Qed.

(** ** The size formatter *)

Lemma round53_small n : 0 < n < 2 ^ 53 -> round53 n = n.
Proof.
  intros [Hpos Hlt]. unfold round53.
  assert (Z.log2 n < 53) by (apply Z.log2_lt_pow2; lia).
  destruct (Z.leb_spec (Z.log2 n + 1 - 53) 0); [done | lia].
Qed.

(** Below [2^1024 - 2^970] the rounding stays inside binary64. *)
Lemma round53_bound n :
  0 < n < 2 ^ 1024 - 2 ^ 970 -> 0 < round53 n < 2 ^ 1024.
Proof.
  intros [Hpos Hlt].
  assert (HL : Z.log2 n < 1024).
  { apply Z.log2_lt_pow2; [done|].
    assert (0 < 2 ^ 970) by (apply Z.pow_pos_nonneg; lia). lia. }
  assert (HT : 2 ^ 1024 = 18014398509481984 * 2 ^ 970).
  { change 1024 with (54 + 970). rewrite Z.pow_add_r by lia. done. }
  assert (HP0 : 0 < 2 ^ 970) by (apply Z.pow_pos_nonneg; lia).
  remember (2 ^ 1024) as T eqn:HeqT. remember (2 ^ 970) as P eqn:HeqP.
  unfold round53.
  destruct (Z.log2_spec n Hpos) as [Hlo Hhi].
  remember (Z.log2 n) as L eqn:HeqL.
  assert (HL0 : 0 <= L) by (subst L; apply Z.log2_nonneg).
  destruct (Z.leb_spec (L + 1 - 53) 0) as [He|He]; [nia|].
  remember (L + 1 - 53) as e eqn:Heqe.
  replace L with (52 + e) in Hlo by lia.
  replace (Z.succ L) with (53 + e) in Hhi by lia.
  rewrite Z.pow_add_r in Hlo, Hhi by lia.
  change (2 ^ 52) with 4503599627370496 in Hlo.
  change (2 ^ 53) with 9007199254740992 in Hhi.
  assert (HE0 : 0 < 2 ^ e) by (apply Z.pow_pos_nonneg; lia).
  pose proof (Z.div_mod n (2 ^ e) ltac:(lia)) as Hdm.
  pose proof (Z.mod_pos_bound n (2 ^ e) HE0) as Hr.
  remember (n / 2 ^ e) as q eqn:Heqq. remember (n mod 2 ^ e) as r eqn:Heqr.
  assert (Hcases : e <= 970 \/ e = 971) by lia.
  destruct Hcases as [Hsm|Hbig].
  - assert (HeP : 2 ^ e <= P) by (subst P; apply Z.pow_le_mono_r; lia).
    remember (2 ^ e) as E eqn:HeqE.
    assert (Hq : 4503599627370496 <= q < 9007199254740992) by nia.
    repeat match goal with |- context [if ?b then _ else _] => destruct b end; nia.
  - assert (HeP : 2 ^ e = 2 * P).
    { subst P. rewrite Hbig. change 971 with (1 + 970).
      rewrite Z.pow_add_r by lia. done. }
    assert (Hhalf : 2 ^ (e - 1) = P) by (subst P; rewrite Hbig; done).
    rewrite Hhalf. rewrite HeP in *.
    assert (Hq : 4503599627370496 <= q < 9007199254740992) by nia.
    destruct (Z.ltb_spec r P); [nia|].
    repeat match goal with |- context [if ?b then _ else _] => destruct b end; nia.
Qed.

Lemma float_of_int_ok n :
  0 < n < 2 ^ 1024 - 2 ^ 970 -> float_of_int n = ret (round53 n).
Proof.
  intros Hn. pose proof (round53_bound n Hn) as Hr. unfold float_of_int.
  cbv zeta. rewrite (Z.sgn_pos n), (Z.abs_eq n) by lia. rewrite Z.mul_1_l.
  rewrite (Z.abs_eq (round53 n)) by lia.
  destruct (Z.leb_spec (2 ^ 1024) (round53 n)); [lia | done].
Qed.

Lemma pretty_digit d : 0 <= d < 10 -> String.length (pretty d) = 1%nat.
Proof.
  intros Hd.
  assert (H : d = 0 \/ d = 1 \/ d = 2 \/ d = 3 \/ d = 4 \/ d = 5 \/ d = 6
              \/ d = 7 \/ d = 8 \/ d = 9) by lia.
  repeat (destruct H as [->|H]; [reflexivity|]). by subst.
Qed.

(** [hundredths x] is an integer nearest to [100 x]. *)
Lemma hundredths_nearest x :
  2 * Z.abs (hundredths x * Z.pos (Qden x) - 100 * Qnum x) <= Z.pos (Qden x).
Proof.
  unfold hundredths.
  pose proof (Z.div_mod (100 * Qnum x) (Z.pos (Qden x)) ltac:(lia)) as Hdm.
  pose proof (Z.mod_pos_bound (100 * Qnum x) (Z.pos (Qden x)) ltac:(lia)) as Hr.
  remember ((100 * Qnum x) / Z.pos (Qden x)) as q.
  remember ((100 * Qnum x) mod Z.pos (Qden x)) as r.
  remember (Z.pos (Qden x)) as d.
  destruct (Z.ltb_spec (2 * r) d); [lia|].
  destruct (Z.ltb_spec d (2 * r)); [lia|].
  destruct (Z.even q); lia.
Qed.

Lemma hundredths_nonneg x : 0 <= Qnum x -> 0 <= hundredths x.
Proof.
  intros Hx. unfold hundredths.
  assert (0 <= (100 * Qnum x) / Z.pos (Qden x)) by (apply Z.div_pos; lia).
  repeat match goal with |- context [if ?b then _ else _] => destruct b end; lia.
Qed.

(** ['{0:.2f}'] prints an integer part, a point and two digits. *)
Lemma format_2f_shape x :
  0 <= Qnum x ->
  exists i d1 d2 : Z,
    0 <= i /\ 0 <= d1 < 10 /\ 0 <= d2 < 10 /\
    String.length (pretty d1) = 1%nat /\ String.length (pretty d2) = 1%nat /\
    format_2f x = pretty i +:+ "." +:+ pretty d1 +:+ pretty d2 /\
    100 * i + 10 * d1 + d2 = hundredths x.
Proof.
  intros Hx. pose proof (hundredths_nonneg x Hx) as Hh.
  exists (hundredths x / 100), (hundredths x / 10 mod 10), (hundredths x mod 10).
  assert (H1 : 0 <= hundredths x / 10 mod 10 < 10) by (apply Z.mod_pos_bound; lia).
  assert (H2 : 0 <= hundredths x mod 10 < 10) by (apply Z.mod_pos_bound; lia).
  split; [apply Z.div_pos; lia|].
  split; [done|]. split; [done|].
  split; [by apply pretty_digit|]. split; [by apply pretty_digit|].
  split; [done|].
  remember (hundredths x) as h.
  replace (h / 100) with (h / 10 / 10) by (rewrite Z.div_div by lia; done).
  Z.div_mod_to_equations. lia.
Qed.

Lemma truediv_ok n p :
  0 < n < 2 ^ 1024 - 2 ^ 970 ->
  exists x, truediv n (Z.pos p) = ret x /\
            Qnum x = round53 n /\ Z.pos (Qden x) = Z.pos p.
Proof.
  intros Hn. unfold truediv. rewrite float_of_int_ok by done. simpl.
  eexists. split; [done|]. simpl. split; [lia | done].
Qed.

(** The branch that [_readable_part_size] takes from [KB] on. *)
Lemma _readable_part_size_unit n k :
  1 <= k <= 4 -> unit_size k <= n -> (k < 4 -> n < unit_size (k + 1)) ->
  _readable_part_size n
  = let! x := truediv n (unit_size k) in
    ret (Some (format_2f x +:+ " " +:+ unit_name k)).
Proof.
  intros Hk Hlo Hhi.
  assert (Hcases : k = 1 \/ k = 2 \/ k = 3 \/ k = 4) by lia.
  unfold _readable_part_size.
  change KB with 1024. change MB with 1048576. change GB with 1073741824.
  change TB with 1099511627776.
  destruct Hcases as [-> | [-> | [-> | ->]]];
    [change (unit_size 1) with 1024 in *; change (unit_size (1 + 1)) with 1048576 in *
    |change (unit_size 2) with 1048576 in *; change (unit_size (2 + 1)) with 1073741824 in *
    |change (unit_size 3) with 1073741824 in *; change (unit_size (3 + 1)) with 1099511627776 in *
    |change (unit_size 4) with 1099511627776 in *];
    repeat match goal with
           | |- context [Z.ltb ?a ?b] => destruct (Z.ltb_spec a b); try lia
           | |- context [Z.leb ?a ?b] => destruct (Z.leb_spec a b); try lia
           end; reflexivity.
Qed.

Lemma unit_rank n :
  1024 <= n ->
  exists k, 1 <= k <= 4 /\ unit_size k <= n /\ (k < 4 -> n < unit_size (k + 1)).
Proof.
  intros Hn.
  destruct (Z.ltb_spec n 1048576); [exists 1; split; [lia|]; split; [done|done]|].
  destruct (Z.ltb_spec n 1073741824); [exists 2; split; [lia|]; split; [done|done]|].
  destruct (Z.ltb_spec n 1099511627776); [exists 3; split; [lia|]; split; [done|done]|].
  exists 4. split; [lia|]. split; [done|lia].
Qed.

(** C8, amended.  For every byte count [n] with [0 <= n < 2^1024 - 2^970]
    (the integers that Python converts to a float):
    - below 1024 the result is the integer [n] and the noun [byte] for
      [n = 1], [bytes] otherwise (also for [n = 0], whose magnitude is
      below 1 in every unit);
    - from 1024 on the unit is the largest of KiB, MiB, GiB, TiB whose size
      is at most [n], and the number is printed as an integer part, a point
      and two digits, nearest to the quotient of [float(n)] by the unit,
      where [float(n)] is [n] itself below [2^53];
    and 1, 1023, 1024 and 1048576 give ["1 byte"], ["1023 bytes"],
    ["1.00 KiB"] and ["1.00 MiB"]. *)
Theorem readable_part_size_units (n : Z) :
  0 <= n < 2 ^ 1024 - 2 ^ 970 ->
  (n < 1024 ->
   _readable_part_size n
   = ret (Some (pretty n +:+ " " +:+ (if n =? 1 then "byte" else "bytes")))) /\
  (1024 <= n ->
   exists k i d1 d2,
     1 <= k <= 4 /\ unit_size k <= n /\ (k < 4 -> n < unit_size (k + 1)) /\
     0 <= i /\ 0 <= d1 < 10 /\ 0 <= d2 < 10 /\
     String.length (pretty d1) = 1%nat /\ String.length (pretty d2) = 1%nat /\
     _readable_part_size n
     = ret (Some ((pretty i +:+ "." +:+ pretty d1 +:+ pretty d2)
                  +:+ " " +:+ unit_name k)) /\
     2 * Z.abs ((100 * i + 10 * d1 + d2) * unit_size k - 100 * round53 n)
     <= unit_size k /\
     (n < 2 ^ 53 -> round53 n = n)) /\
  _readable_part_size 1 = ret (Some "1 byte") /\
  _readable_part_size 1023 = ret (Some "1023 bytes") /\
  _readable_part_size 1024 = ret (Some "1.00 KiB") /\
  _readable_part_size 1048576 = ret (Some "1.00 MiB").
Proof.
  intros Hn. split; [|split; [|by vm_compute]].
  - intros Hsmall. unfold _readable_part_size. change KB with 1024.
    destruct (Z.ltb_spec n 1024); [|lia].
    by destruct (n =? 1).
  - intros Hbig.
    destruct (unit_rank n Hbig) as (k & Hk & Hlo & Hhi).
    assert (Hpos : exists p, unit_size k = Z.pos p).
    { assert (0 < unit_size k) by (apply Z.pow_pos_nonneg; lia).
      destruct (unit_size k) as [|p|p]; [lia | by exists p | lia]. }
    destruct Hpos as [p Hp].
    destruct (truediv_ok n p ltac:(lia)) as (x & Hx & Hnum & Hden).
    destruct (format_2f_shape x) as (i & d1 & d2 & Hi & Hd1 & Hd2 & Hl1 & Hl2 & Hfmt & Hsum).
    { rewrite Hnum. pose proof (round53_bound n ltac:(lia)). lia. }
    exists k, i, d1, d2.
    repeat (split; [done|]).
    split.
    { rewrite (_readable_part_size_unit n k) by done.
      rewrite Hp, Hx. simpl. by rewrite Hfmt. }
    split.
    { pose proof (hundredths_nearest x) as Hnear.
      rewrite Hsum, Hp, <- Hden, <- Hnum. done. }
    intros H53. apply round53_small. lia.
Qed.

(** C8, as stated, fails: from [2^1024 - 2^970] on, the conversion of the
    byte count to a float raises [OverflowError] and no string is
    returned. *)
Lemma readable_part_size_overflow :
  0 <= 2 ^ 1024 - 2 ^ 970 /\
  _readable_part_size (2 ^ 1024 - 2 ^ 970) = raise OverflowError /\
  ~ (exists s, _readable_part_size (2 ^ 1024 - 2 ^ 970) = ret s).
Proof.
  split; [by vm_compute|]. split; [by vm_compute|].
  intros [s Hs]. vm_compute in Hs. discriminate.
Qed.

Lemma readable_part_size_units_witness :
  0 <= 1536 < 2 ^ 1024 - 2 ^ 970 /\
  exists k i d1 d2,
    1 <= k <= 4 /\ unit_size k <= 1536 /\ (k < 4 -> 1536 < unit_size (k + 1)) /\
    0 <= i /\ 0 <= d1 < 10 /\ 0 <= d2 < 10 /\
    String.length (pretty d1) = 1%nat /\ String.length (pretty d2) = 1%nat /\
    _readable_part_size 1536
    = ret (Some ((pretty i +:+ "." +:+ pretty d1 +:+ pretty d2)
                 +:+ " " +:+ unit_name k)) /\
    2 * Z.abs ((100 * i + 10 * d1 + d2) * unit_size k - 100 * round53 1536)
    <= unit_size k /\
    (1536 < 2 ^ 53 -> round53 1536 = 1536).
Proof.
  assert (H : 0 <= 1536 < 2 ^ 1024 - 2 ^ 970) by (by vm_compute).
  split; [exact H|].
  apply (readable_part_size_units 1536 H). lia.
Defined.

(** ** Line iteration *)

Lemma has_newline_app s t : has_newline (s ++ t) = has_newline s || has_newline t.
Proof. apply existsb_app. Qed.

Lemma LF_is_linebreak py2 : is_linebreak py2 LF = true.
Proof. by destruct py2. Qed.

Lemma not_linebreak_not_LF py2 c :
  is_linebreak py2 c = false -> (LF =? c)%N = false.
Proof.
  intros H. destruct (N.eqb_spec LF c) as [<-|]; [|done].
  by rewrite LF_is_linebreak in H.
Qed.

(** No line of [splitlines] contains a line feed. *)
Lemma splitlines_go_no_newline py2 s : forall after_cr cur,
  has_newline cur = false ->
  Forall (fun l => has_newline l = false) (splitlines_go py2 after_cr cur s).
Proof.
  induction s as [|c rest IH]; intros after_cr cur Hcur; simpl.
  - destruct cur; by repeat constructor.
  - destruct (after_cr && (c =? LF)%N); [by apply IH|].
    destruct (is_linebreak py2 c) eqn:Hc.
    + constructor; [done|]. by apply IH.
    + apply IH. rewrite has_newline_app, Hcur. unfold has_newline.
      cbn [existsb orb]. by rewrite (not_linebreak_not_LF py2 c Hc).
Qed.

Lemma last_splitlines_no_newline py2 s :
  has_newline (List.last (splitlines py2 s) []) = false.
Proof.
  pose proof (splitlines_go_no_newline py2 s false [] eq_refl) as H.
  unfold splitlines. induction H as [|l [|l' ls] Hl H IH]; simpl; auto.
Qed.

(** The number of turns of the loop that are still to come is bounded by
    what is left of the object. *)
Lemma iter_loop_terminates py2 n fuel : forall _buffer rest out,
  (2 * length rest + (if has_newline _buffer then 1 else 0) < fuel)%nat ->
  is_Some (iter_loop read py2 n fuel _buffer rest out).
Proof.
  induction fuel as [|fuel IH]; intros b rest out Hfuel; [lia|].
  simpl. destruct (has_newline b) eqn:Hb; rewrite ?Hb in Hfuel.
  - destruct (splitlines py2 b) as [|l ls] eqn:Hs; [by eexists|].
    apply IH. rewrite <- Hs, last_splitlines_no_newline. lia.
  - destruct (take (Z.to_nat n) rest) as [|c more] eqn:Hmore; [by eexists|].
    apply IH.
    assert (Hlen : (length (take (Z.to_nat n) rest) + length (drop (Z.to_nat n) rest)
                    = length rest)%nat).
    { rewrite <- length_app, take_drop. done. }
    rewrite Hmore in Hlen. simpl in Hlen.
    destruct (has_newline (b ++ _)); lia.
Qed.

(** Line iteration over a finite object always comes to an end. *)
Lemma __iter___terminates py2 self content :
  exists fuel, is_Some (__iter__ read py2 fuel self content).
Proof.
  exists (2 * length content + 2)%nat. unfold __iter__.
  destruct (read (_read_bufsize self) content) as [b rest] eqn:Hread.
  assert (Hlen : (length rest <= length content)%nat).
  { unfold read in Hread. injection Hread as _ <-. rewrite length_drop. lia. }
  assert (Hloop : is_Some (iter_loop read py2 (_read_bufsize self)
                    (2 * length content + 2) b rest [])).
  { apply iter_loop_terminates. destruct (has_newline b); lia. }
  destruct Hloop as [[[out [e|[|c b']]] r] Hloop];
    destruct py2, (_binary_mode self); rewrite ?Hloop; simpl; by eexists.
Qed.

Lemma read_all (n : Z) (content : text) :
  Z.of_nat (length content) <= n -> read n content = (content, []).
Proof.
  intros Hn. unfold read.
  by rewrite take_ge, drop_ge by lia.
Qed.

(** C4, amended.  When the first [read] returns the whole object (the
    size of the read buffer is at least the length of the object), on a
    handler in text mode, or under Python 2 in either mode, line iteration
    over ["a\nb\nc"] yields exactly [a], [b], [c] and over ["a\nb\n"]
    exactly [a], [b], and ends.  Under Python 3, on a handler in binary
    mode and over any object, it yields nothing and raises the
    [DXFileError] (the spec's [InvalidModeError]) after its first [read];
    under Python 2 there is no such check. *)
Theorem iter_lines (py2 : bool) (self : DXDatabase) (fuel : nat) :
  (2 <= fuel)%nat ->
  (py2 = true \/ _binary_mode self = false ->
   (5 <= _read_bufsize self ->
    __iter__ read py2 fuel self abc
    = Some {| yielded := [chars "a"; chars "b"; chars "c"];
              stopped := StopIteration; reader := [] |}) /\
   (4 <= _read_bufsize self ->
    __iter__ read py2 fuel self ab_
    = Some {| yielded := [chars "a"; chars "b"];
              stopped := StopIteration; reader := [] |})) /\
  (py2 = false -> _binary_mode self = true ->
   forall content,
     __iter__ read py2 fuel self content
     = Some {| yielded := [];
               stopped := Raised (DXFileError binary_mode_message);
               reader := (read (_read_bufsize self) content).2 |}).
Proof.
  intros Hfuel. destruct fuel as [|[|fuel]]; [lia | lia |]. split.
  - intros Hmode.
    split; intros Hsize;
      assert (Hend : read (_read_bufsize self) [] = ([], []))
        by (apply read_all; simpl; lia);
      unfold __iter__; rewrite read_all by (simpl; lia);
      (destruct py2; [|destruct Hmode as [? | ->]; [discriminate|]]);
      cbn -[read]; rewrite Hend; reflexivity.
  - intros -> Hbin content. unfold __iter__. rewrite Hbin.
    by destruct (read _ _).
Qed.

(** C4, as stated, fails.  Under Python 2 the iteration over a handler in
    binary mode does not fail: it yields the lines.  (And a handler in text
    mode with a read buffer of 4 characters joins the last two lines of
    ["a\nb\nc"]: the line feed that ends a chunk is lost.) *)
Lemma iter_lines_counterexample :
  __iter__ read true 2 (opened true 16777216) ab_
  = Some {| yielded := [chars "a"; chars "b"]; stopped := StopIteration;
            reader := [] |} /\
  __iter__ read false 4 (opened false 4) abc
  = Some {| yielded := [chars "a"; chars "bc"]; stopped := StopIteration;
            reader := [] |}.
Proof. split; reflexivity. Qed.

Lemma iter_lines_witness :
  (2 <= 2)%nat /\
  __iter__ read false 2 (opened false 16777216) abc
  = Some {| yielded := [chars "a"; chars "b"; chars "c"];
            stopped := StopIteration; reader := [] |}.
Proof.
  split; [lia|].
  apply (iter_lines false (opened false 16777216) 2); [lia | by right | simpl; lia].
Defined.

(** ** The cached download URL, one caller *)

Lemma Qltb_false x y : (y <= x)%Q -> Qltb x y = false.
Proof. intros H. unfold Qltb. apply Qle_bool_iff in H. by rewrite H. Qed.

Lemma Qltb_true x y : (x < y)%Q -> Qltb x y = true.
Proof.
  intros H. unfold Qltb. destruct (Qle_bool y x) eqn:Hle; [|done].
  apply Qle_bool_iff in Hle. by apply Qle_not_lt in Hle.
Qed.

Lemma Qltb_spec x y : Qltb x y = false <-> (y <= x)%Q.
Proof.
  split; [|apply Qltb_false]. intros H.
  destruct (Qlt_le_dec x y) as [Hlt|]; [|done].
  rewrite (Qltb_true _ _ Hlt) in H. discriminate.
Qed.

Lemma deref_app_l h h' l : (l < length h)%nat -> deref (h ++ h') l = deref h l.
Proof. intros H. unfold deref. by rewrite lookup_app_l. Qed.

Lemma deref_new h d : deref (h ++ [d]) (length h) = d.
Proof. unfold deref. by rewrite list_lookup_middle. Qed.

Lemma deref_insert_ne h l l' d : l <> l' -> deref (<[ l' := d ]> h) l = deref h l.
Proof. intros H. unfold deref. by rewrite list_lookup_insert_ne. Qed.

(** What precedes the mutex touches the files only. *)
Lemma before_lock_frame w c s :
  handler (before_lock w c s).1 = handler s /\
  heap (before_lock w c s).1 = heap s /\
  calls (before_lock w c s).1 = calls s /\
  (before_lock w c s).2 = build_args c (resolve_project w (handler s) (project c)).
Proof. done. Qed.

Lemma get_download_url_unfold w now c s :
  get_download_url w now c s
  = locked_body w now c (before_lock w c s).2 (before_lock w c s).1.
Proof. unfold get_download_url. by destruct (before_lock w c s). Qed.

(** A cache that has not expired is not stale. *)
Lemma cache_fresh w now self u e :
  _download_url self = Some u -> _download_url_expires self = Some e ->
  (now <= e)%Q -> cache_stale w now self = ret false.
Proof.
  intros Hu He Hle. unfold cache_stale. rewrite Hu, He.
  by rewrite Qltb_false.
Qed.

(** The block under the mutex, on a cache that has not expired: the copy
    and nothing else. *)
Lemma locked_body_hit w now c args s u e :
  _download_url (handler s) = Some u ->
  _download_url_expires (handler s) = Some e ->
  (now <= e)%Q ->
  locked_body w now c args s
  = ((copy_copy (_download_url_headers (handler s)) s).1,
     ret (Some u, (copy_copy (_download_url_headers (handler s)) s).2)).
Proof.
  intros Hu He Hle. unfold locked_body, copy_out.
  rewrite (cache_fresh w now _ u e) by done. unfold ret. cbn beta iota.
  rewrite Hu.
  by destruct (copy_copy _ s).
Qed.

(** C2.  On a handler whose cached URL is set and whose cached expiry
    has not passed at the instant of the call, [get_download_url] sends
    nothing to the transport, leaves the handler (and so the cached URL,
    headers and expiry) as it was, and returns the cached URL with a new
    mapping that holds the items of the cached one: its reference is new,
    and replacing the items of the returned mapping leaves the cached
    mapping and the handler as they were.  ([copy.copy] of headers that
    are [None] is [None].) *)
Theorem get_download_url_cached (w : world) (now : Q) (c : call) (s : state)
    (u : string) (e : Q) :
  _download_url (handler s) = Some u ->
  _download_url_expires (handler s) = Some e ->
  (now <= e)%Q ->
  let s' := (get_download_url w now c s).1 in
  let r := (get_download_url w now c s).2 in
  calls s' = calls s /\
  handler s' = handler s /\
  cached (handler s') = cached (handler s) /\
  match _download_url_headers (handler s) with
  | None => r = ret (Some u, None) /\ heap s' = heap s
  | Some l =>
      let l' := length (heap s) in
      r = ret (Some u, Some l') /\
      heap s' = heap s ++ [deref (heap s) l] /\
      deref (heap s') l' = deref (heap s) l /\
      ((l < length (heap s))%nat ->
       l' <> l /\
       deref (heap s') l = deref (heap s) l /\
       forall d, deref (heap (mutate l' d s')) l = deref (heap s) l /\
                 handler (mutate l' d s') = handler s)
  end.
Proof.
  intros Hu He Hle s' r. subst s' r.
  rewrite get_download_url_unfold.
  destruct (before_lock_frame w c s) as (Hh & Hp & Hc & _).
  rewrite (locked_body_hit w now c _ _ u e)
    by first [exact Hu | exact He | exact Hle].
  simpl.
  destruct (_download_url_headers (handler s)) as [l|]; simpl.
  - repeat (split; [done|]).
    split; [apply deref_new|].
    intros Hl. split; [lia|]. split; [by apply deref_app_l|].
    intros d. split; [|done].
    rewrite deref_insert_ne by lia. by apply deref_app_l.
  - done.
Qed.

Lemma get_download_url_cached_witness :
  _download_url (handler cached_state) = Some "https://dl/0" /\
  _download_url_expires (handler cached_state) = Some YEAR_3000 /\
  (5 <= YEAR_3000)%Q /\
  calls (get_download_url (sample_world false 0) 5 (preauthenticated_call 30)
           cached_state).1 = calls cached_state /\
  handler (get_download_url (sample_world false 0) 5 (preauthenticated_call 30)
             cached_state).1 = handler cached_state /\
  (get_download_url (sample_world false 0) 5 (preauthenticated_call 30)
     cached_state).2 = ret (Some "https://dl/0", Some 2%nat).
Proof.
  assert (Hu : _download_url (handler cached_state) = Some "https://dl/0")
    by reflexivity.
  assert (He : _download_url_expires (handler cached_state) = Some YEAR_3000)
    by reflexivity.
  assert (Hle : (5 <= YEAR_3000)%Q) by (by vm_compute).
  destruct (get_download_url_cached (sample_world false 0) 5
              (preauthenticated_call 30) cached_state _ _ Hu He Hle)
    as (Hc & Hh & _ & Hr).
  repeat (split; [done|]).
  change (_download_url_headers (handler cached_state)) with (Some 0%nat) in Hr.
  by destruct Hr as [Hr _].
Defined.

(** ** binary64: what rounding keeps *)

(** *** The error of a rounding *)

Lemma round_half_even_near x :
  (Qabs (inject_Z (round_half_even x) - x) <= 1 # 2)%Q.
Proof.
  unfold round_half_even. cbv zeta.
  pose proof (Qfloor_le x) as Hlo. pose proof (Qlt_floor x) as Hhi.
  rewrite inject_Z_plus in Hhi. change (inject_Z 1) with 1%Q in Hhi.
  apply Qabs_Qle_condition.
  destruct (x - inject_Z (Qfloor x) ?= 1 # 2)%Q eqn:Hc.
  - apply Qeq_alt in Hc. destruct (Z.even (Qfloor x)).
    + set (f := inject_Z (Qfloor x)) in *. lra.
    + rewrite inject_Z_plus. change (inject_Z 1) with 1%Q.
      set (f := inject_Z (Qfloor x)) in *. lra.
  - apply Qlt_alt in Hc. set (f := inject_Z (Qfloor x)) in *. lra.
  - apply Qgt_alt in Hc. rewrite inject_Z_plus. change (inject_Z 1) with 1%Q.
    set (f := inject_Z (Qfloor x)) in *. lra.
Qed.

Lemma round_half_even_integer x z :
  (x == inject_Z z)%Q -> round_half_even x = z.
Proof.
  intros Hx. unfold round_half_even. cbv zeta.
  assert (Hf : Qfloor x = z) by (rewrite Hx; apply Qfloor_Z).
  rewrite Hf.
  assert (Hc : (x - inject_Z z ?= 1 # 2)%Q = Lt).
  { apply (proj1 (Qlt_alt _ _)). set (f := inject_Z z) in *. lra. }
  by rewrite Hc.
Qed.

Lemma Qtwo_power_pos k : (0 < 2 ^ k)%Q.
Proof. by apply Qpower_0_lt. Qed.

Lemma two_power_succ k : (2 ^ (k + 1) == 2 * 2 ^ k)%Q.
Proof. rewrite Qpower_plus by done. change (2 ^ 1)%Q with 2%Q. lra. Qed.

Lemma inject_Z_two_power n : 0 <= n -> (inject_Z (2 ^ n) == 2 ^ n)%Q.
Proof. intros Hn. by rewrite Zpower_Qpower. Qed.

(** [floor_log2] finds the power of two below a positive number. *)
Lemma floor_log2_spec x :
  (0 < x)%Q -> (2 ^ floor_log2 x <= x < 2 ^ (floor_log2 x + 1))%Q.
Proof.
  intros Hx. unfold floor_log2. cbv zeta.
  destruct x as [n d]. simpl Qnum. simpl Qden.
  assert (Hn : 0 < n) by (unfold Qlt in Hx; simpl in Hx; lia).
  pose proof (Z.log2_spec n Hn) as [Hn1 Hn2].
  pose proof (Z.log2_spec (Z.pos d) ltac:(lia)) as [Hd1 Hd2].
  pose proof (Z.log2_nonneg n) as Hln. pose proof (Z.log2_nonneg (Z.pos d)) as Hld.
  set (ln := Z.log2 n) in *. set (ld := Z.log2 (Z.pos d)) in *.
  assert (HA : (2 ^ ln <= inject_Z n < 2 * 2 ^ ln)%Q).
  { rewrite <- two_power_succ, <- !inject_Z_two_power by lia.
    rewrite <- Zle_Qle, <- Zlt_Qlt. by rewrite <- Z.add_1_r in Hn2. }
  assert (HB : (2 ^ ld <= inject_Z (Z.pos d) < 2 * 2 ^ ld)%Q).
  { rewrite <- two_power_succ, <- !inject_Z_two_power by lia.
    rewrite <- Zle_Qle, <- Zlt_Qlt. by rewrite <- Z.add_1_r in Hd2. }
  assert (HP : (2 ^ (ln - ld) * 2 ^ ld == 2 ^ ln)%Q).
  { rewrite <- Qpower_plus by done. by replace (ln - ld + ld) with ln by lia. }
  assert (Hxd : (n # d) * inject_Z (Z.pos d) == inject_Z n).
  { unfold Qeq, Qmult, inject_Z. simpl. lia. }
  pose proof (Qtwo_power_pos (ln - ld)) as HPpos.
  pose proof (Qtwo_power_pos ld) as HBpos.
  set (P := (2 ^ (ln - ld))%Q) in *. set (B := (2 ^ ld)%Q) in *.
  set (A := (2 ^ ln)%Q) in *. set (x := n # d) in *.
  set (dq := inject_Z (Z.pos d)) in *. set (nq := inject_Z n) in *.
  destruct (Qle_bool P x) eqn:Hle.
  - apply Qle_bool_iff in Hle. split; [done|].
    rewrite two_power_succ. fold P. nra.
  - assert (Hlt : (x < P)%Q).
    { apply Qnot_le_lt. intros H. apply Qle_bool_iff in H. congruence. }
    replace (ln - ld - 1 + 1) with (ln - ld) by lia. fold P. split; [|done].
    assert (HP2 : (2 * 2 ^ (ln - ld - 1) == P)%Q).
    { rewrite <- two_power_succ. unfold P. by replace (ln - ld - 1 + 1) with (ln - ld) by lia. }
    pose proof (Qtwo_power_pos (ln - ld - 1)).
    set (P' := (2 ^ (ln - ld - 1))%Q) in *. nra.
Qed.

Lemma two_power_half e : (2 * 2 ^ (e - 1) == 2 ^ e)%Q.
Proof.
  rewrite <- two_power_succ. by replace (e - 1 + 1) with e by lia.
Qed.

(** The rounding error is at most half of the spacing. *)
Lemma round_binary64_pos_half_spacing x :
  let e := Z.max (floor_log2 x - 52) (-1074) in
  (Qabs (round_binary64_pos x - x) <= 2 ^ (e - 1))%Q.
Proof.
  intros e. unfold round_binary64_pos. fold e.
  pose proof (round_half_even_near (x / 2 ^ e)) as Hm.
  apply Qabs_Qle_condition in Hm. apply Qabs_Qle_condition.
  pose proof (Qtwo_power_pos e) as HP. pose proof (two_power_half e) as HH.
  pose proof (Qtwo_power_pos (e - 1)) as HHpos.
  assert (Hy : (x / 2 ^ e * 2 ^ e == x)%Q) by (field; lra).
  set (m := inject_Z (round_half_even (x / 2 ^ e))) in *.
  set (y := (x / 2 ^ e)%Q) in *. set (P := (2 ^ e)%Q) in *.
  set (H := (2 ^ (e - 1))%Q) in *. nra.
Qed.

(** A rounding is off by at most [2^-53] of the number, or by [2^-1075]
    among the subnormal numbers. *)
Lemma round_binary64_pos_error x :
  (0 < x)%Q ->
  (Qabs (round_binary64_pos x - x) <= x * unit_roundoff + tiny)%Q.
Proof.
  intros Hx. pose proof (round_binary64_pos_half_spacing x) as Hh.
  cbv zeta in Hh. pose proof (floor_log2_spec x Hx) as [Hlo _].
  pose proof (Qtwo_power_pos (-1075)) as Htiny. fold tiny in Htiny.
  pose proof (Qtwo_power_pos (-53)) as Hu. fold unit_roundoff in Hu.
  set (a := Qabs (round_binary64_pos x - x)) in *.
  destruct (Z.max_spec (floor_log2 x - 52) (-1074)) as [[_ Hmax]|[_ Hmax]];
    rewrite Hmax in Hh; clear Hmax.
  - change (-1074 - 1) with (-1075) in Hh. fold tiny in Hh. nra.
  - assert (Hk : (2 ^ (floor_log2 x - 52 - 1) == 2 ^ floor_log2 x * unit_roundoff)%Q).
    { replace (floor_log2 x - 52 - 1) with (floor_log2 x + - 53) by lia.
      by rewrite Qpower_plus by done. }
    rewrite Hk in Hh. set (K := (2 ^ floor_log2 x)%Q) in *. nra.
Qed.

Lemma round_binary64_error x :
  (Qabs (round_binary64 x - x) <= Qabs x * unit_roundoff + tiny)%Q.
Proof.
  unfold round_binary64.
  pose proof (Qtwo_power_pos (-1075)) as Htiny. fold tiny in Htiny.
  pose proof (Qtwo_power_pos (-53)) as Hu. fold unit_roundoff in Hu.
  destruct (x ?= 0)%Q eqn:Hc.
  - apply Qeq_alt in Hc. apply Qabs_Qle_condition.
    pose proof (Qabs_nonneg x). set (a := Qabs x) in *. nra.
  - apply Qlt_alt in Hc.
    pose proof (round_binary64_pos_error (- x) ltac:(lra)) as He.
    rewrite (Qabs_neg x) by lra.
    apply Qabs_Qle_condition in He. apply Qabs_Qle_condition.
    set (r := round_binary64_pos (- x)) in *. lra.
  - apply Qgt_alt in Hc.
    pose proof (round_binary64_pos_error x Hc) as He.
    rewrite (Qabs_pos x) by lra. done.
Qed.

(** An integer of at most 53 bits is a float. *)
Lemma round_binary64_pos_integer x z :
  0 < z <= 2 ^ 53 -> (x == inject_Z z)%Q ->
  (round_binary64_pos x == inject_Z z)%Q.
Proof.
  intros [Hz Hz53] Hx.
  assert (Hpos : (0 < x)%Q).
  { rewrite Hx. change 0%Q with (inject_Z 0). by rewrite <- Zlt_Qlt. }
  pose proof (floor_log2_spec x Hpos) as [Hlo _].
  assert (Hk : floor_log2 x <= 53).
  { apply (Qpower_le_compat_l_inv 2); [|done].
    rewrite <- (inject_Z_two_power 53) by lia.
    eapply Qle_trans; [exact Hlo|]. rewrite Hx. by rewrite <- Zle_Qle. }
  unfold round_binary64_pos.
  set (e := Z.max (floor_log2 x - 52) (-1074)).
  assert (He : e <= 1) by lia.
  pose proof (Qtwo_power_pos e) as HP.
  destruct (Z.le_gt_cases e 0) as [He0|He1].
  - rewrite (round_half_even_integer _ (z * 2 ^ (- e))).
    + rewrite inject_Z_mult, inject_Z_two_power by lia.
      rewrite Qpower_opp. set (P := (2 ^ e)%Q) in *.
      field. intros HP0. rewrite HP0 in HP. by apply Qlt_irrefl in HP.
    + rewrite inject_Z_mult, inject_Z_two_power by lia.
      rewrite Qpower_opp, Hx. set (P := (2 ^ e)%Q) in *.
      field. intros HP0. rewrite HP0 in HP. by apply Qlt_irrefl in HP.
  - assert (Hk53 : floor_log2 x = 53) by (unfold e in *; lia).
    assert (He1' : e = 1) by lia. clearbody e. subst e.
    assert (z = 2 ^ 53) as ->.
    { apply Z.le_antisymm; [done|]. rewrite Zle_Qle.
      rewrite <- Hx, inject_Z_two_power by lia. by rewrite <- Hk53. }
    rewrite (round_half_even_integer _ (2 ^ 52)).
    + by vm_compute.
    + rewrite Hx. by vm_compute.
Qed.

Lemma round_binary64_integer x z :
  Z.abs z <= 2 ^ 53 -> (x == inject_Z z)%Q ->
  (round_binary64 x == inject_Z z)%Q.
Proof.
  intros Hz Hx. unfold round_binary64.
  destruct (x ?= 0)%Q eqn:Hc.
  - apply Qeq_alt in Hc. by rewrite <- Hx, Hc.
  - apply Qlt_alt in Hc.
    assert (Hneg : z < 0).
    { rewrite Zlt_Qlt. by rewrite <- Hx. }
    rewrite (round_binary64_pos_integer (- x) (- z)).
    + rewrite inject_Z_opp. apply Qopp_involutive.
    + lia.
    + by rewrite inject_Z_opp, Hx.
  - apply Qgt_alt in Hc.
    assert (Hpos : 0 < z).
    { rewrite Zlt_Qlt. by rewrite <- Hx. }
    apply round_binary64_pos_integer; [lia | done].
Qed.

(** *** The range of binary64 *)

Lemma round_half_even_floor x : Qfloor x <= round_half_even x.
Proof.
  unfold round_half_even. cbv zeta.
  destruct (x - inject_Z (Qfloor x) ?= 1 # 2)%Q; [|lia|lia].
  destruct (Z.even (Qfloor x)); lia.
Qed.

Lemma round_binary64_pos_nonneg x : (0 < x)%Q -> (0 <= round_binary64_pos x)%Q.
Proof.
  intros Hx. unfold round_binary64_pos.
  set (e := Z.max (floor_log2 x - 52) (-1074)).
  pose proof (Qtwo_power_pos e) as HP.
  apply Qmult_le_0_compat; [|lra].
  change 0%Q with (inject_Z 0). rewrite <- Zle_Qle.
  etransitivity; [|apply round_half_even_floor].
  change 0 with (Qfloor 0). apply Qfloor_resp_le.
  apply Qle_shift_div_l; lra.
Qed.

(** A number of the normal range rounds to at least the power of two
    below it. *)
Lemma round_binary64_pos_above x :
  (0 < x)%Q -> -1022 <= floor_log2 x ->
  (2 ^ floor_log2 x <= round_binary64_pos x)%Q.
Proof.
  intros Hx Hk. pose proof (floor_log2_spec x Hx) as [Hlo _].
  unfold round_binary64_pos.
  rewrite Z.max_l by lia.
  set (k := floor_log2 x) in *.
  pose proof (Qtwo_power_pos (k - 52)) as HP.
  assert (Hsplit : (2 ^ k == 2 ^ 52 * 2 ^ (k - 52))%Q).
  { rewrite <- Qpower_plus by done. by replace (52 + (k - 52)) with k by lia. }
  assert (Hm : (2 ^ 52 <= inject_Z (round_half_even (x / 2 ^ (k - 52))))%Q).
  { rewrite <- (inject_Z_two_power 52) by lia. rewrite <- Zle_Qle.
    etransitivity; [|apply round_half_even_floor].
    rewrite <- (Qfloor_Z (2 ^ 52)). apply Qfloor_resp_le.
    rewrite inject_Z_two_power by lia.
    apply Qle_shift_div_l; [done|]. by rewrite <- Hsplit. }
  rewrite Hsplit.
  apply Qmult_le_compat_r; [done | lra].
Qed.

Lemma two_power_970_large : (64 <= 2 ^ 970)%Q.
Proof. change 64%Q with (2 ^ 6)%Q. by apply Qpower_le_compat_l. Qed.

Lemma two_power_split k : (2 ^ (k + 970) == 2 ^ k * 2 ^ 970)%Q.
Proof. by rewrite Qpower_plus. Qed.

(** What rounds to less than [2^1024] rounds to at most the largest
    float, [2^1024 - 2^971]. *)
Lemma round_binary64_pos_largest x :
  (0 < x)%Q -> (round_binary64_pos x < 2 ^ 1024)%Q ->
  (round_binary64_pos x <= 2 ^ 1024 - 2 ^ 971)%Q.
Proof.
  intros Hx Hfit. pose proof (floor_log2_spec x Hx) as [Hlo Hhi].
  assert (Hk : floor_log2 x <= 1023).
  { destruct (Z.le_gt_cases (floor_log2 x) 1023) as [|Hbig]; [done|]. exfalso.
    pose proof (round_binary64_pos_above x Hx ltac:(lia)) as Habove.
    pose proof (Qpower_le_compat_l 2 1024 (floor_log2 x) ltac:(lia) ltac:(done)).
    lra. }
  pose proof (round_binary64_pos_half_spacing x) as Hhalf. cbv zeta in Hhalf.
  apply Qabs_Qle_condition in Hhalf.
  pose proof two_power_970_large as HP.
  assert (H1024 : (2 ^ 1024 == 18014398509481984 * 2 ^ 970)%Q)
    by apply (two_power_split 54).
  assert (H971 : (2 ^ 971 == 2 * 2 ^ 970)%Q) by apply (two_power_split 1).
  destruct (Z.eq_dec (floor_log2 x) 1023) as [Hk1023|Hless].
  - unfold round_binary64_pos in *. rewrite Hk1023 in *.
    change (Z.max (1023 - 52) (-1074)) with 971 in *.
    set (m := round_half_even (x / 2 ^ 971)) in *.
    assert (Hm : m <= 2 ^ 53 - 1).
    { apply Z.lt_le_pred. rewrite Zlt_Qlt.
      apply (Qmult_lt_r _ _ (2 ^ 971)); [by apply Qtwo_power_pos|].
      rewrite inject_Z_two_power by lia. rewrite <- Qpower_plus by done.
      exact Hfit. }
    rewrite Zle_Qle in Hm. change (inject_Z (2 ^ 53 - 1)) with 9007199254740991%Q in Hm.
    rewrite H1024, H971 in *. set (mq := inject_Z m) in *. nra.
  - assert (He : Z.max (floor_log2 x - 52) (-1074) - 1 <= 969) by lia.
    pose proof (Qpower_le_compat_l 2 _ 969 He ltac:(done)) as Hsp.
    pose proof (Qpower_le_compat_l 2 (floor_log2 x + 1) 1023 ltac:(lia) ltac:(done)) as Htop.
    assert (H1023 : (2 ^ 1023 == 9007199254740992 * 2 ^ 970)%Q)
      by apply (two_power_split 53).
    assert (H969 : (2 * 2 ^ 969 == 2 ^ 970)%Q) by apply (two_power_half 970).
    pose proof (Qtwo_power_pos 969).
    rewrite H1024, H971. rewrite H1023 in Htop.
    set (r := round_binary64_pos x) in *.
    set (h := (2 ^ (Z.max (floor_log2 x - 52) (-1074) - 1))%Q) in *.
    set (t := (2 ^ (floor_log2 x + 1))%Q) in *.
    set (h969 := (2 ^ 969)%Q) in *. lra.
Qed.

(** What is less than [2^1024 - 2^970] rounds to less than [2^1024]. *)
Lemma round_binary64_pos_fits x :
  (0 < x)%Q -> (x < 2 ^ 1024 - 2 ^ 970)%Q ->
  (round_binary64_pos x < 2 ^ 1024)%Q.
Proof.
  intros Hx Hfit. pose proof (floor_log2_spec x Hx) as [Hlo Hhi].
  pose proof (Qtwo_power_pos 970) as HP.
  assert (Hk : floor_log2 x <= 1023).
  { apply Z.lt_succ_r. apply (Qpower_lt_compat_l_inv 2); [|done].
    change (Z.succ 1023) with 1024.
    set (a := (2 ^ 1024)%Q) in *. set (b := (2 ^ 970)%Q) in *.
    set (c := (2 ^ floor_log2 x)%Q) in *. lra. }
  pose proof (round_binary64_pos_half_spacing x) as Hhalf. cbv zeta in Hhalf.
  apply Qabs_Qle_condition in Hhalf.
  assert (He : Z.max (floor_log2 x - 52) (-1074) - 1 <= 970) by lia.
  pose proof (Qpower_le_compat_l 2 _ 970 He ltac:(done)) as Hsp.
  set (r := round_binary64_pos x) in *.
  set (h := (2 ^ (Z.max (floor_log2 x - 52) (-1074) - 1))%Q) in *.
  set (a := (2 ^ 1024)%Q) in *. set (b := (2 ^ 970)%Q) in *. lra.
Qed.

Lemma round_binary64_largest x :
  (Qabs (round_binary64 x) < 2 ^ 1024)%Q ->
  (Qabs (round_binary64 x) <= 2 ^ 1024 - 2 ^ 971)%Q.
Proof.
  unfold round_binary64. destruct (x ?= 0)%Q eqn:Hc.
  - intros _. pose proof (Qpower_lt_compat_l 2 971 1024 ltac:(lia) ltac:(done)).
    change (Qabs 0) with 0%Q. lra.
  - apply Qlt_alt in Hc.
    pose proof (round_binary64_pos_nonneg (- x) ltac:(lra)) as Hpos.
    rewrite Qabs_opp, Qabs_pos by done.
    apply round_binary64_pos_largest. lra.
  - apply Qgt_alt in Hc.
    pose proof (round_binary64_pos_nonneg x Hc) as Hpos.
    rewrite Qabs_pos by done.
    by apply round_binary64_pos_largest.
Qed.

Lemma round_binary64_fits x :
  (Qabs x < 2 ^ 1024 - 2 ^ 970)%Q ->
  (Qabs (round_binary64 x) < 2 ^ 1024)%Q.
Proof.
  unfold round_binary64. destruct (x ?= 0)%Q eqn:Hc.
  - intros _. by apply Qtwo_power_pos.
  - apply Qlt_alt in Hc.
    pose proof (round_binary64_pos_nonneg (- x) ltac:(lra)) as Hpos.
    rewrite Qabs_opp, (Qabs_pos (round_binary64_pos _)) by done.
    rewrite Qabs_neg by lra.
    apply round_binary64_pos_fits. lra.
  - apply Qgt_alt in Hc.
    pose proof (round_binary64_pos_nonneg x Hc) as Hpos.
    rewrite (Qabs_pos (round_binary64_pos _)) by done.
    rewrite Qabs_pos by lra.
    by apply round_binary64_pos_fits.
Qed.

(** ** The stored expiry *)

Lemma Qabs_bounds x : (- Qabs x <= x <= Qabs x)%Q.
Proof. apply Qabs_Qle_condition. apply Qle_refl. Qed.

Lemma unit_roundoff_value : (unit_roundoff == 1 # 9007199254740992)%Q.
Proof. by vm_compute. Qed.

Lemma tiny_small : (0 < tiny <= 1 # 9007199254740992)%Q.
Proof. split; by vm_compute. Qed.

Lemma int_truediv_fits a b x :
  (Qabs x < 2 ^ 1024)%Q -> x = round_binary64 (a # b) ->
  int_truediv a b = ret x.
Proof.
  intros Hx ->. unfold int_truediv. cbv zeta.
  destruct (Qle_bool _ _) eqn:Hle; [|done].
  apply Qle_bool_iff in Hle. exfalso. by apply (Qlt_not_le _ _ Hx).
Qed.

Lemma two_power_1024 : (2 ^ 54 <= 2 ^ 1024)%Q.
Proof. by apply Qpower_le_compat_l. Qed.

(** The two roundings of [expires/1000 - 60] together. *)
Lemma expiry_of_near ms :
  Z.abs ms <= 1000 * 2 ^ 53 ->
  exists e, expiry_of ms = ret e /\
    (Qabs (e - ((ms # 1000) - 60)) <= (Qabs (ms # 1000) + 60) / 2 ^ 52)%Q.
Proof.
  intros Hms. unfold expiry_of, float_sub.
  set (q := ms # 1000).
  pose proof (round_binary64_error q) as Hx.
  pose proof (round_binary64_error (round_binary64 q - 60)) as He.
  set (x := round_binary64 q) in *.
  assert (HA : (Qabs q <= 9007199254740992)%Q).
  { apply Qabs_Qle_condition. unfold q, Qle. simpl. lia. }
  pose proof (Qabs_bounds q) as Hq.
  pose proof (Qabs_bounds (x - 60)) as Hb.
  pose proof unit_roundoff_value as Hu. pose proof tiny_small as Ht.
  apply Qabs_Qle_condition in Hx.
  assert (HB : (Qabs (x - 60) <= Qabs q + Qabs q * unit_roundoff + tiny + 60)%Q).
  { apply Qabs_Qle_condition. set (A := Qabs q) in *. rewrite Hu in *. lra. }
  assert (Hfit : (Qabs x < 2 ^ 1024)%Q).
  { eapply Qlt_le_trans; [|apply two_power_1024].
    change (2 ^ 54)%Q with 18014398509481984%Q.
    apply Qabs_Qlt_condition. set (A := Qabs q) in *. rewrite Hu in *. lra. }
  rewrite (int_truediv_fits ms 1000 x Hfit eq_refl). cbn [bind].
  eexists. split; [done|].
  apply Qabs_Qle_condition in He. apply Qabs_Qle_condition.
  unfold Qdiv. change (/ 2 ^ 52)%Q with (1 # 4503599627370496)%Q.
  set (e := round_binary64 (x - 60)) in *.
  set (A := Qabs q) in *. set (B := Qabs (x - 60)) in *.
  rewrite Hu in *. lra.
Qed.

(** A whole number of seconds is kept as it is. *)
Lemma expiry_of_exact ms s :
  ms = 1000 * s -> Z.abs s <= 2 ^ 53 - 60 ->
  exists e, expiry_of ms = ret e /\ (e == inject_Z s - 60)%Q.
Proof.
  intros -> Hs. unfold expiry_of, float_sub.
  assert (Hq : (1000 * s # 1000 == inject_Z s)%Q).
  { unfold Qeq. simpl. lia. }
  pose proof (round_binary64_integer _ s ltac:(lia) Hq) as Hx.
  set (x := round_binary64 (1000 * s # 1000)) in *.
  assert (Hfit : (Qabs x < 2 ^ 1024)%Q).
  { eapply Qlt_le_trans; [|apply two_power_1024].
    change (2 ^ 54)%Q with 18014398509481984%Q.
    rewrite Hx. apply Qabs_Qlt_condition.
    change 18014398509481984%Q with (inject_Z 18014398509481984).
    change (- inject_Z 18014398509481984)%Q with (inject_Z (- 18014398509481984)).
    rewrite <- !Zlt_Qlt. lia. }
  rewrite (int_truediv_fits _ 1000 x Hfit eq_refl). cbn [bind].
  eexists. split; [done|].
  rewrite (round_binary64_integer _ (s - 60)).
  - unfold Zminus. rewrite inject_Z_plus, inject_Z_opp. reflexivity.
  - lia.
  - rewrite Hx. unfold Zminus. rewrite inject_Z_plus, inject_Z_opp. reflexivity.
Qed.

(** The subtraction of 60 never leaves binary64. *)
Lemma expiry_of_finite ms e :
  expiry_of ms = ret e -> (Qabs e < 2 ^ 1024)%Q.
Proof.
  unfold expiry_of, int_truediv. cbv zeta.
  destruct (Qle_bool _ _) eqn:Hle; [done|]. cbn [bind]. intros [= <-].
  assert (Hfit : (Qabs (round_binary64 (ms # 1000)) < 2 ^ 1024)%Q).
  { apply Qnot_le_lt. intros H. apply Qle_bool_iff in H. congruence. }
  apply round_binary64_largest in Hfit.
  unfold float_sub. apply round_binary64_fits.
  set (x := round_binary64 (ms # 1000)) in *.
  pose proof (Qabs_triangle x (- (60))) as Htri.
  rewrite Qabs_opp in Htri. change (Qabs 60) with 60%Q in Htri.
  pose proof two_power_970_large as HP.
  assert (H971 : (2 ^ 971 == 2 * 2 ^ 970)%Q) by apply (two_power_split 1).
  rewrite H971 in Hfit.
  change (x - 60)%Q with (x + - (60))%Q.
  set (a := Qabs (x + - (60))) in *. set (b := Qabs x) in *.
  set (c := (2 ^ 1024)%Q) in *. lra.
Qed.

(** A refresh sends exactly one request, whatever comes of it. *)
Lemma refresh_calls w c args s :
  calls (refresh w c args s).1
  = calls s ++ [{| req_dxid := _dxid (handler s); req_args := args;
                   req_kwargs := with_timeout (kwargs c) |}].
Proof.
  unfold refresh, send_request, store_answer. simpl.
  destruct (database_download_file _ _ _) as [err|resp]; [done|]. simpl.
  destruct (_validate_headers _ _); [done|]. simpl.
  destruct (preauthenticated c); [|done].
  destruct (resp_expires resp) as [ms|]; [|done].
  by destruct (expiry_of ms).
Qed.

(** A refresh that succeeds: the answer, its headers and its expiry. *)
Lemma refresh_ok w c args s :
  let req := {| req_dxid := _dxid (handler s); req_args := args;
                req_kwargs := with_timeout (kwargs c) |} in
  forall resp e,
    database_download_file w (length (calls s)) req = ret resp ->
    all_text (basestring w) (default [] (resp_headers resp)) ->
    stored_expiry c resp = Some e ->
    refresh w c args s = (refreshed s req resp e, ret tt).
Proof.
  intros req resp e Hresp Htext He.
  unfold refresh, send_request, store_answer. fold req. simpl. rewrite Hresp.
  simpl. rewrite _validate_headers_ok by done. unfold stored_expiry in He.
  destruct (preauthenticated c).
  - destruct (resp_expires resp) as [ms|]; [|done].
    destruct (expiry_of ms) as [err|x]; [done|].
    injection He as <-. done.
  - injection He as <-. done.
Qed.

Lemma refresh_ok_inv w c args s s' :
  let req := {| req_dxid := _dxid (handler s); req_args := args;
                req_kwargs := with_timeout (kwargs c) |} in
  refresh w c args s = (s', ret tt) ->
  exists resp e,
    database_download_file w (length (calls s)) req = ret resp /\
    all_text (basestring w) (default [] (resp_headers resp)) /\
    stored_expiry c resp = Some e /\
    s' = refreshed s req resp e.
Proof.
  intros req. unfold refresh, send_request, store_answer. fold req. simpl.
  destruct (database_download_file _ _ _) as [err|resp]; [done|]. simpl.
  destruct (all_text_or_not (basestring w) (default [] (resp_headers resp)))
    as [Htext|Hbad].
  - rewrite _validate_headers_ok by done. unfold stored_expiry.
    destruct (preauthenticated c).
    + destruct (resp_expires resp) as [ms|] eqn:Hms; [|done].
      destruct (expiry_of ms) as [err|x] eqn:Hx; [done|].
      intros [= <-]. exists resp, x. rewrite Hms, Hx. by repeat split.
    + intros [= <-]. exists resp, YEAR_3000. by repeat split.
  - destruct (_validate_headers_bad _ _ Hbad) as [why ->]. done.
Qed.

(** The block under the mutex either leaves the log of requests as it was
    or adds the request of this call. *)
Lemma locked_body_calls w now c args s :
  let req := {| req_dxid := _dxid (handler s); req_args := args;
                req_kwargs := with_timeout (kwargs c) |} in
  (cache_stale w now (handler s) = ret true /\
   calls (locked_body w now c args s).1 = calls s ++ [req]) \/
  (cache_stale w now (handler s) <> ret true /\
   calls (locked_body w now c args s).1 = calls s).
Proof.
  intros req. unfold locked_body.
  destruct (cache_stale w now (handler s)) as [err|[|]].
  - right. by split.
  - left. split; [done|].
    pose proof (refresh_calls w c args s) as Hc. fold req in Hc.
    destruct (refresh w c args s) as [s1 [err|[]]]; simpl in *; [done|].
    unfold copy_out. by destruct (_download_url_headers (handler s1)).
  - right. split; [done|]. simpl. unfold copy_out.
    by destruct (_download_url_headers (handler s)).
Qed.

Lemma app_singleton_ne {A} (l : list A) (x : A) : l ++ [x] <> l.
Proof.
  intros H. apply (f_equal length) in H. rewrite length_app in H. simpl in H. lia.
Qed.

(** A call that returned after sending a request: the answer was
    accepted and the state is the refreshed one, with one more copy. *)
Lemma get_download_url_fetched w now c s s' r :
  get_download_url w now c s = (s', ret r) ->
  calls s' <> calls s ->
  exists resp e,
    database_download_file w (length (calls s)) (request_of w s c) = ret resp /\
    all_text (basestring w) (default [] (resp_headers resp)) /\
    stored_expiry c resp = Some e /\
    s' = (copy_copy (Some (length (heap s)))
            (refreshed (before_lock w c s).1 (request_of w s c) resp e)).1 /\
    r = (Some (resp_url resp), Some (S (length (heap s)))).
Proof.
  rewrite get_download_url_unfold. intros Hcall Hfetched.
  destruct (before_lock_frame w c s) as (Hh & Hp & Hc & Hargs).
  remember (before_lock w c s).1 as s0 eqn:Hs0.
  remember (before_lock w c s).2 as args eqn:Hargs0.
  unfold locked_body in Hcall.
  destruct (cache_stale w now (handler s0)) as [err|[|]]; [done| |].
  - destruct (refresh w c args s0) as [s1 [err|[]]] eqn:Hrefresh; [done|].
    apply refresh_ok_inv in Hrefresh as (resp & e & Hresp & Htext & He & ->).
    assert (Hreq : {| req_dxid := _dxid (handler s0); req_args := args;
                      req_kwargs := with_timeout (kwargs c) |} = request_of w s c).
    { unfold request_of. by rewrite Hh, Hargs. }
    rewrite Hreq in *. rewrite Hc in Hresp.
    exists resp, e. repeat (split; [done|]).
    unfold copy_out in Hcall. simpl in Hcall. rewrite Hp in Hcall.
    injection Hcall as <- <-.
    split; [by rewrite <- Hp|].
    by rewrite length_app, Nat.add_1_r.
  - unfold copy_out in Hcall. simpl in Hcall. destruct Hfetched.
    destruct (_download_url_headers (handler s0)); simpl in Hcall;
      injection Hcall as <- _; simpl; by rewrite Hc.
Qed.

(** C3, amended.  After a call of [get_download_url] that fetched a
    credential and returned: the stored expiry is the float that
    [resp["expires"]/1000 - 60] evaluates to, when the call was
    preauthenticated, and 32503680000 when it was not.  The float is
    within [(|expires|/1000 + 60) / 2^52] of the exact
    [expires/1000 - 60] (for an [expires] of at most [1000 * 2^53]) and
    equal to it when [expires] is a whole number of seconds.  A later call
    sends no request to the transport exactly when its instant is not
    after the stored expiry. *)
Theorem stored_expiry_after_fetch (w : world) (now : Q) (c : call)
    (s s' : state) (r : retval) :
  get_download_url w now c s = (s', ret r) ->
  calls s' <> calls s ->
  exists resp e,
    database_download_file w (length (calls s)) (request_of w s c) = ret resp /\
    calls s' = calls s ++ [request_of w s c] /\
    _download_url (handler s') = Some (resp_url resp) /\
    _download_url_expires (handler s') = Some e /\
    (if preauthenticated c
     then exists ms,
         resp_expires resp = Some ms /\
         expiry_of ms = ret e /\
         (Z.abs ms <= 1000 * 2 ^ 53 ->
          (Qabs (e - ((ms # 1000) - 60))
           <= (Qabs (ms # 1000) + 60) / 2 ^ 52)%Q) /\
         (forall seconds,
             ms = 1000 * seconds -> Z.abs seconds <= 2 ^ 53 - 60 ->
             (e == inject_Z seconds - 60)%Q)
     else e = 32503680000%Q) /\
    forall now' c',
      calls (get_download_url w now' c' s').1 = calls s' <-> (now' <= e)%Q.
Proof.
  intros Hcall Hfetched.
  destruct (get_download_url_fetched w now c s s' r Hcall Hfetched)
    as (resp & e & Hresp & _ & He & Hs' & _).
  exists resp, e. split; [done|].
  split; [by rewrite Hs'|].
  split; [by rewrite Hs'|]. split; [by rewrite Hs'|].
  split.
  { unfold stored_expiry in He. destruct (preauthenticated c).
    - destruct (resp_expires resp) as [ms|]; [|done].
      destruct (expiry_of ms) as [err|x] eqn:Hx; [done|].
      injection He as <-. exists ms. split; [done|]. split; [done|]. split.
      + intros Hms. destruct (expiry_of_near ms Hms) as (x' & Hx' & Hnear).
        rewrite Hx in Hx'. by injection Hx' as <-.
      + intros seconds Hms Hsec.
        destruct (expiry_of_exact ms seconds Hms Hsec) as (x' & Hx' & Hexact).
        rewrite Hx in Hx'. by injection Hx' as <-.
    - by injection He as <-. }
  intros now' c'. rewrite get_download_url_unfold.
  destruct (before_lock_frame w c' s') as (Hh' & Hp' & Hc' & _).
  assert (Hu' : _download_url (handler (before_lock w c' s').1)
                = Some (resp_url resp)) by (by rewrite Hh', Hs').
  assert (He' : _download_url_expires (handler (before_lock w c' s').1)
                = Some e) by (by rewrite Hh', Hs').
  destruct (locked_body_calls w now' c' (before_lock w c' s').2
              (before_lock w c' s').1) as [[Hstale ->]|[Hstale ->]].
  - rewrite Hc'. unfold cache_stale in Hstale. rewrite Hu', He' in Hstale.
    split; [intros H; by apply app_singleton_ne in H|].
    intros Hle. rewrite Qltb_false in Hstale by done. discriminate.
  - rewrite Hc'. split; [|done]. intros _.
    unfold cache_stale in Hstale. rewrite Hu', He' in Hstale.
    apply Qltb_spec. destruct (Qltb e now'); [by destruct Hstale | done].
Qed.

(** C3, as stated, fails: the stored expiry is not always
    [expires/1000 - 60].  For [expires = 100001] the quotient 100.001 is
    no float; what is stored is 40.001000000000004774847184307873249053955078125
    (Python prints 40.001000000000005), which is after 40.001, and a call
    at that very instant is still served from the cache. *)
Lemma stored_expiry_inexact :
  exists e,
    _download_url_expires
      (handler (get_download_url (sample_world false 100001) 0
                  (preauthenticated_call 100) (fresh_state "database-A")).1)
    = Some e /\
    (e == 1407410067925369 # 35184372088832)%Q /\
    ((100001 # 1000) - 60 < e)%Q /\
    calls (get_download_url (sample_world false 100001) e plain_call
             (get_download_url (sample_world false 100001) 0
                (preauthenticated_call 100) (fresh_state "database-A")).1).1
    = calls (get_download_url (sample_world false 100001) 0
               (preauthenticated_call 100) (fresh_state "database-A")).1.
Proof.
  eexists. split; [by vm_compute|]. repeat split; by vm_compute.
Qed.

Lemma stored_expiry_after_fetch_witness :
  get_download_url (sample_world false 100000) 0 (preauthenticated_call 100)
    (fresh_state "database-A")
  = (preauthenticated_state, ret (Some "https://dl/0", Some 1%nat)) /\
  calls preauthenticated_state <> calls (fresh_state "database-A") /\
  exists resp e,
    database_download_file (sample_world false 100000)
      (length (calls (fresh_state "database-A")))
      (request_of (sample_world false 100000) (fresh_state "database-A")
         (preauthenticated_call 100)) = ret resp /\
    calls preauthenticated_state
    = calls (fresh_state "database-A")
      ++ [request_of (sample_world false 100000) (fresh_state "database-A")
            (preauthenticated_call 100)] /\
    _download_url (handler preauthenticated_state) = Some (resp_url resp) /\
    _download_url_expires (handler preauthenticated_state) = Some e /\
    (if preauthenticated (preauthenticated_call 100)
     then exists ms,
         resp_expires resp = Some ms /\
         expiry_of ms = ret e /\
         (Z.abs ms <= 1000 * 2 ^ 53 ->
          (Qabs (e - ((ms # 1000) - 60))
           <= (Qabs (ms # 1000) + 60) / 2 ^ 52)%Q) /\
         (forall seconds,
             ms = 1000 * seconds -> Z.abs seconds <= 2 ^ 53 - 60 ->
             (e == inject_Z seconds - 60)%Q)
     else e = 32503680000%Q) /\
    forall now' c',
      calls (get_download_url (sample_world false 100000) now' c'
               preauthenticated_state).1 = calls preauthenticated_state
      <-> (now' <= e)%Q.
Proof.
  assert (H1 : get_download_url (sample_world false 100000) 0
                 (preauthenticated_call 100) (fresh_state "database-A")
               = (preauthenticated_state, ret (Some "https://dl/0", Some 1%nat)))
    by (by vm_compute).
  assert (H2 : calls preauthenticated_state <> calls (fresh_state "database-A"))
    by (by vm_compute).
  split; [exact H1|]. split; [exact H2|].
  exact (stored_expiry_after_fetch _ _ _ _ _ _ H1 H2).
Defined.

(** No call removes or changes a mapping that is in the heap. *)
Lemma refresh_heap w c args s :
  exists ext, heap (refresh w c args s).1 = heap s ++ ext.
Proof.
  unfold refresh, send_request, store_answer. simpl.
  destruct (database_download_file _ _ _) as [err|resp];
    [exists []; simpl; by rewrite app_nil_r|].
  exists [default [] (resp_headers resp)]. simpl.
  destruct (_validate_headers _ _); [done|]. simpl.
  destruct (preauthenticated c); [|done].
  destruct (resp_expires resp) as [ms|]; [|done].
  by destruct (expiry_of ms).
Qed.

Lemma copy_copy_heap o s :
  exists ext, heap (copy_copy o s).1 = heap s ++ ext.
Proof.
  destruct o as [l|]; simpl; [by eexists|].
  exists []. by rewrite app_nil_r.
Qed.

Lemma locked_body_heap w now c args s :
  exists ext, heap (locked_body w now c args s).1 = heap s ++ ext.
Proof.
  unfold locked_body.
  destruct (cache_stale w now (handler s)) as [err|[|]];
    [exists []; simpl; by rewrite app_nil_r| |].
  - destruct (refresh_heap w c args s) as [ext1 H1].
    destruct (refresh w c args s) as [s1 [err|[]]]; simpl in *; [by eexists|].
    destruct (copy_copy_heap (_download_url_headers (handler s1)) s1) as [ext2 H2].
    unfold copy_out. destruct (copy_copy _ s1) as [s2 h]. simpl in *.
    exists (ext1 ++ ext2). by rewrite H2, H1, app_assoc.
  - destruct (copy_copy_heap (_download_url_headers (handler s)) s) as [ext2 H2].
    unfold copy_out. destruct (copy_copy _ s) as [s2 h]. simpl in *. by eexists.
Qed.

Lemma get_download_url_heap w now c s :
  exists ext, heap (get_download_url w now c s).1 = heap s ++ ext.
Proof.
  rewrite get_download_url_unfold.
  destruct (locked_body_heap w now c (before_lock w c s).2 (before_lock w c s).1)
    as [ext H].
  exists ext. exact H.
Qed.

Lemma get_download_urls_heap w later : forall s,
  exists ext, heap (get_download_urls w later s).1 = heap s ++ ext.
Proof.
  induction later as [|[now c] later IH]; intros s; simpl.
  - exists []. by rewrite app_nil_r.
  - destruct (get_download_url_heap w now c s) as [ext1 H1].
    destruct (get_download_url w now c s) as [s1 r].
    destruct (IH s1) as [ext2 H2].
    destruct (get_download_urls w later s1) as [s2 rs]. simpl in *.
    exists (ext1 ++ ext2). by rewrite H2, H1, app_assoc.
Qed.

(** Calls in a row on a populated cache, none after the expiry: nothing
    is sent, the handler stays, every call returns the cached URL and a
    mapping with the cached items. *)
Lemma get_download_urls_cached w u e d later : forall s l,
  cached (handler s) = (Some u, Some l, Some e) ->
  (l < length (heap s))%nat ->
  deref (heap s) l = d ->
  Forall (fun nc : Q * call => (nc.1 <= e)%Q) later ->
  let out := get_download_urls w later s in
  calls out.1 = calls s /\
  handler out.1 = handler s /\
  (l < length (heap out.1))%nat /\
  deref (heap out.1) l = d /\
  length out.2 = length later /\
  Forall (fun r => exists l', r = ret (Some u, Some l') /\ l' <> l /\
                              deref (heap out.1) l' = d) out.2.
Proof.
  induction later as [|[now c] later IH]; intros s l Hcached Hl Hd Hle; simpl.
  - by repeat split.
  - inversion Hle as [|? ? Hnow Hlater]; subst. simpl in Hnow.
    injection Hcached as Hu Hh He.
    pose proof (get_download_url_cached w now c s u e Hu He Hnow) as Hhit.
    cbv zeta in Hhit. rewrite Hh in Hhit.
    destruct (get_download_url w now c s) as [s1 r]. simpl in Hhit.
    destruct Hhit as (Hc1 & Hh1 & _ & -> & Hheap1 & Hnew1 & Hold1).
    destruct (Hold1 Hl) as (Hne & Hkeep & _).
    assert (Hl1 : (l < length (heap s1))%nat)
      by (rewrite Hheap1, length_app; lia).
    specialize (IH s1 l).
    destruct (get_download_urls_heap w later s1) as [ext Hgrow].
    destruct (get_download_urls w later s1) as [s2 rs]. simpl in *.
    destruct IH as (Hc2 & Hh2 & Hl2 & Hd2 & Hlen2 & Hrs);
      [by rewrite Hh1; unfold cached; rewrite Hu, Hh, He | done | congruence
      | done |].
    split; [congruence|]. split; [congruence|]. split; [done|].
    split; [done|]. split; [by rewrite Hlen2|].
    constructor; [|done].
    exists (length (heap s)). split; [done|]. split; [lia|].
    (* the copy made by this call is still there after the later calls *)
    rewrite Hgrow, deref_app_l by (rewrite Hheap1, length_app; simpl; lia).
    by rewrite Hnew1.
Qed.

(** A call that returns leaves a populated cache. *)
Lemma get_download_url_populates w now c s0 s r :
  valid_state s0 ->
  get_download_url w now c s0 = (s, ret r) ->
  exists u l e,
    cached (handler s) = (Some u, Some l, Some e) /\ (l < length (heap s))%nat.
Proof.
  intros Hvalid. rewrite get_download_url_unfold.
  destruct (before_lock_frame w c s0) as (Hh & Hp & Hc & _).
  remember (before_lock w c s0).1 as s1 eqn:Hs1.
  remember (before_lock w c s0).2 as args eqn:Hargs.
  unfold valid_state in Hvalid. rewrite <- Hh, <- Hp in Hvalid.
  clear Hh Hp Hc Hs1 Hargs.
  unfold locked_body.
  destruct (cache_stale w now (handler s1)) as [err|[|]] eqn:Hstale; [done| |].
  - destruct (refresh w c args s1) as [s2 [err|[]]] eqn:Hrefresh; [done|].
    apply refresh_ok_inv in Hrefresh as (resp & e & _ & _ & _ & ->).
    unfold copy_out. simpl.
    intros [= <- _]. exists (resp_url resp), (length (heap s1)), e.
    split; [done|]. simpl. rewrite !length_app. simpl. lia.
  - unfold cache_stale in Hstale.
    destruct (_download_url (handler s1)) as [u|] eqn:Hu; [|done].
    destruct (_download_url_expires (handler s1)) as [e|] eqn:He;
      [|by destruct (USING_PYTHON2 w)].
    destruct (_download_url_headers (handler s1)) as [l|] eqn:Hl; [|done].
    unfold copy_out. rewrite Hl. simpl.
    intros [= <- _]. exists u, l, e. unfold cached. simpl.
    rewrite Hu, Hl, He. split; [done|]. rewrite length_app. lia.
Qed.

(** Validity is kept by every call, whatever comes of it. *)
Lemma refresh_valid w c args s :
  valid_state s -> valid_state (refresh w c args s).1.
Proof.
  unfold valid_state, refresh, send_request, store_answer. simpl. intros Hvalid.
  destruct (database_download_file _ _ _) as [err|resp]; [done|]. simpl.
  destruct (_validate_headers _ _); simpl.
  { destruct (_download_url_headers (handler s)); [|done].
    rewrite length_app. lia. }
  destruct (preauthenticated c);
    [destruct (resp_expires resp) as [ms|]; [destruct (expiry_of ms)|]|];
    simpl; rewrite !length_app; simpl; lia.
Qed.

Lemma copy_out_valid s : valid_state s -> valid_state (copy_out s).1.
Proof.
  unfold valid_state, copy_out.
  destruct (_download_url_headers (handler s)) as [l|] eqn:Hl; simpl;
    rewrite Hl; [|done].
  rewrite length_app. lia.
Qed.

Lemma locked_body_valid w now c args s :
  valid_state s -> valid_state (locked_body w now c args s).1.
Proof.
  intros Hvalid. unfold locked_body.
  destruct (cache_stale w now (handler s)) as [err|[|]]; [done| |].
  - pose proof (refresh_valid w c args s Hvalid) as H1.
    destruct (refresh w c args s) as [s1 [err|[]]]; [done|]. simpl in H1.
    pose proof (copy_out_valid s1 H1) as H2.
    by destruct (copy_out s1).
  - pose proof (copy_out_valid s Hvalid) as H2.
    by destruct (copy_out s).
Qed.

Lemma get_download_url_valid w now c s :
  valid_state s -> valid_state (get_download_url w now c s).1.
Proof.
  intros Hvalid. rewrite get_download_url_unfold.
  apply locked_body_valid. exact Hvalid.
Qed.

(** C10.  Once a call of [get_download_url] has returned, the cache holds
    a URL, headers and an expiry, and calls made later, whatever their
    arguments (duration, preauthenticated flag, file names, project,
    keyword options), at instants that are not after the cached expiry,
    send nothing to the transport, leave the cache as it is, and each
    return the cached URL with a mapping of its own that holds the cached
    items.  When the call that filled the cache was not preauthenticated
    the expiry is 32503680000: no call made before the year 3000
    refetches. *)
Theorem cache_ignores_arguments (w : world) (now0 : Q) (c0 : call)
    (s0 s : state) (r0 : retval) :
  valid_state s0 ->
  get_download_url w now0 c0 s0 = (s, ret r0) ->
  exists u l e,
    cached (handler s) = (Some u, Some l, Some e) /\
    (preauthenticated c0 = false -> calls s <> calls s0 -> e = YEAR_3000) /\
    forall later : list (Q * call),
      Forall (fun nc => (nc.1 <= e)%Q) later ->
      let out := get_download_urls w later s in
      calls out.1 = calls s /\
      cached (handler out.1) = cached (handler s) /\
      length out.2 = length later /\
      Forall (fun r => exists l', r = ret (Some u, Some l') /\ l' <> l /\
                                  deref (heap out.1) l' = deref (heap s) l) out.2.
Proof.
  intros Hvalid Hcall.
  destruct (get_download_url_populates w now0 c0 s0 s r0 Hvalid Hcall)
    as (u & l & e & Hcached & Hl).
  exists u, l, e. split; [done|]. split.
  - intros Hplain Hfetched.
    destruct (get_download_url_fetched w now0 c0 s0 s r0 Hcall Hfetched)
      as (resp & e' & _ & _ & He' & Hs & _).
    unfold stored_expiry in He'. rewrite Hplain in He'.
    rewrite Hs in Hcached. unfold cached in Hcached. simpl in Hcached.
    congruence.
  - intros later Hlater.
    destruct (get_download_urls_cached w u e (deref (heap s) l) later s l
                Hcached Hl eq_refl Hlater) as (Hc & Hh & _ & _ & Hlen & Hrs).
    cbv zeta. repeat split; [done | by rewrite Hh | done | done].
Qed.

Lemma cache_ignores_arguments_witness :
  valid_state (fresh_state "database-A") /\
  get_download_url (sample_world false 0) 0 plain_call (fresh_state "database-A")
  = (cached_state, ret (Some "https://dl/0", Some 1%nat)) /\
  exists u l e,
    cached (handler cached_state) = (Some u, Some l, Some e) /\
    (preauthenticated plain_call = false ->
     calls cached_state <> calls (fresh_state "database-A") -> e = YEAR_3000) /\
    forall later : list (Q * call),
      Forall (fun nc => (nc.1 <= e)%Q) later ->
      let out := get_download_urls (sample_world false 0) later cached_state in
      calls out.1 = calls cached_state /\
      cached (handler out.1) = cached (handler cached_state) /\
      length out.2 = length later /\
      Forall (fun r => exists l', r = ret (Some u, Some l') /\ l' <> l /\
                                  deref (heap out.1) l'
                                  = deref (heap cached_state) l) out.2.
Proof.
  assert (H1 : valid_state (fresh_state "database-A")) by reflexivity.
  assert (H2 : get_download_url (sample_world false 0) 0 plain_call
                 (fresh_state "database-A")
               = (cached_state, ret (Some "https://dl/0", Some 1%nat)))
    by reflexivity.
  split; [exact H1|]. split; [exact H2|].
  exact (cache_ignores_arguments _ _ _ _ _ _ H1 H2).
Defined.

(** ** The project hint *)

(** Without a project argument, outside of a job, and with a bound
    project that does not contain the object, no [projectContext] is
    built. *)
Lemma no_hint_without_project w self c :
  project c = None ->
  has_key "DX_JOB_ID" (environ w) = false ->
  (forall p, _proj self = Some p ->
             object_exists_in_project w (_dxid self) (str_value p) = false) ->
  resolve_project w self (project c) = None /\
  build_args c (resolve_project w self (project c)) !! "projectContext" = None.
Proof.
  intros Hnone Hjob Hexists.
  assert (Hres : resolve_project w self (project c) = None).
  { unfold resolve_project. rewrite Hnone, Hjob. simpl.
    destruct (_proj self) as [p|] eqn:Hp; [|done].
    rewrite (Hexists p eq_refl). by rewrite andb_false_r. }
  split; [done|]. rewrite Hres. unfold build_args.
  destruct (duration c), (src_filename c); by simplify_map_eq.
Qed.

(** The object bound to [DXDatabase.NO_PROJECT_HINT] itself is dropped. *)
Lemma sentinel_object_dropped w self c :
  project c = Some NO_PROJECT_HINT ->
  build_args c (resolve_project w self (project c)) !! "projectContext" = None.
Proof.
  intros Hp. unfold resolve_project, build_args. rewrite Hp. simpl.
  destruct (duration c), (src_filename c); by simplify_map_eq.
Qed.

(** C6, where the code departs from it.  A project argument that equals
    the sentinel but is another object is not dropped: the comparison
    under [get_download_url] is by identity ([is not]), so the request
    carries [projectContext = "NO_PROJECT_HINT"], whatever the world, the
    handler and the other arguments; the test hook in the same method
    compares by value ([!=]) and writes nothing for the same call. *)
Theorem equal_hint_is_sent :
  eq_NO_PROJECT_HINT equal_hint = true /\
  is_NO_PROJECT_HINT equal_hint = false /\
  (forall w self d p f sf kw,
      build_args
        {| duration := d; preauthenticated := p; filename := f;
           src_filename := sf; project := Some equal_hint; kwargs := kw |}
        (resolve_project w self (Some equal_hint)) !! "projectContext"
      = Some (PyStr "NO_PROJECT_HINT")) /\
  ((fun r => req_args r !! "projectContext")
     <$> calls (get_download_url (sample_world false 0) 0
                  (call_with_project equal_hint)
                  (fresh_state "database-A")).1)
  = [ Some (PyStr "NO_PROJECT_HINT") ] /\
  files (get_download_url (sample_world false 0) 0
           (call_with_project equal_hint) (fresh_state "database-A")).1
    !! "/tmp/billed" = Some "" /\
  ((fun r => req_args r !! "projectContext")
     <$> calls (get_download_url (sample_world false 0) 0
                  (call_with_project NO_PROJECT_HINT)
                  (fresh_state "database-A")).1)
  = [ None ].
Proof.
  split; [done|]. split; [done|]. split.
  - intros w self d p f sf kw. unfold build_args, resolve_project. simpl.
    apply lookup_insert_eq.
  - split; [by vm_compute|]. split; by vm_compute.
Qed.

(** ** Re-binding *)

(** C9, where the code departs from it.  [set_ids] replaces the object
    id and the project and nothing else: the read buffer is kept and the
    cached URL, headers and expiry are kept, whatever the handler and the
    new reference.  So on the handler that has cached the URL of
    [database-A] and is re-bound to [database-B], the next call of
    [get_download_url] sends nothing to the transport and returns the URL
    that was fetched for [database-A]. *)
Theorem set_ids_keeps_cache :
  (forall workspace_id self dxid project,
      cached (set_ids workspace_id self dxid project) = cached self /\
      _read_buf (set_ids workspace_id self dxid project) = _read_buf self /\
      _dxid (set_ids workspace_id self dxid project) = dxid) /\
  req_dxid <$> calls cached_state = [Some "database-A"] /\
  _download_url (handler cached_state) = Some "https://dl/0" /\
  _dxid (handler rebound_state) = Some "database-B" /\
  cached (handler rebound_state) = cached (handler cached_state) /\
  (get_download_url (sample_world false 0) 1 plain_call rebound_state).2
  = ret (Some "https://dl/0", Some 2%nat) /\
  calls (get_download_url (sample_world false 0) 1 plain_call rebound_state).1
  = calls cached_state.
Proof.
  split; [done|]. repeat split; by vm_compute.
Qed.

(** ** Several threads on one handler *)

(** *** Lists of threads *)

Lemma in_block_count_insert ts : forall i t t',
  ts !! i = Some t ->
  (in_block_count (<[ i := t' ]> ts) + (if in_block t then 1 else 0)
   = in_block_count ts + (if in_block t' then 1 else 0))%nat.
Proof.
  unfold in_block_count.
  induction ts as [|t0 ts IH]; intros [|i] t t' Hi; simpl in *; try done.
  - injection Hi as ->. lia.
  - specialize (IH i t t' Hi). lia.
Qed.

Lemma in_block_count_zero ts j t :
  in_block_count ts = 0%nat -> ts !! j = Some t -> in_block t = false.
Proof.
  unfold in_block_count. revert j.
  induction ts as [|t0 ts IH]; intros [|j] H0 Hj; simpl in *; try done.
  - injection Hj as ->. destruct (in_block t); [lia | done].
  - apply (IH j); [lia | done].
Qed.

(** With one thread in the block, no other thread is in it. *)
Lemma in_block_alone ts i t j t' :
  in_block_count ts = 1%nat -> ts !! i = Some t -> in_block t = true ->
  j <> i -> ts !! j = Some t' -> in_block t' = false.
Proof.
  intros H1 Hi Hin Hne Hj.
  pose proof (in_block_count_insert ts i t Copying Hi) as Hc.
  pose proof (in_block_count_insert ts i t (Done (raise TypeError)) Hi) as Hd.
  rewrite Hin in Hd. simpl in Hd.
  apply (in_block_count_zero (<[ i := Done (raise TypeError) ]> ts) j);
    [lia | by rewrite list_lookup_insert_ne].
Qed.

Lemma in_block_count_pos ts i t :
  ts !! i = Some t -> in_block t = true -> (0 < in_block_count ts)%nat.
Proof.
  intros Hi Hin.
  pose proof (in_block_count_insert ts i t (Done (raise TypeError)) Hi) as Hd.
  rewrite Hin in Hd. simpl in Hd. lia.
Qed.

Lemma omap_cons_Some {A B} (f : A -> option B) x l b :
  f x = Some b -> omap f (x :: l) = b :: omap f l.
Proof. intros H. simpl. by rewrite H. Qed.

Lemma omap_cons_None {A B} (f : A -> option B) x l :
  f x = None -> omap f (x :: l) = omap f l.
Proof. intros H. simpl. by rewrite H. Qed.

Lemma omap_insert_same {A B} (f : A -> option B) (ts : list A) i t t' :
  ts !! i = Some t -> f t' = f t -> omap f (<[ i := t' ]> ts) = omap f ts.
Proof.
  intros Hi Hf.
  assert (Hlt : (i < length ts)%nat) by (by eapply lookup_lt_Some).
  rewrite insert_take_drop by done.
  rewrite <- (take_drop_middle ts i t Hi) at 3.
  rewrite !omap_app. f_equal.
  destruct (f t) as [b|] eqn:Hft.
  - by rewrite (omap_cons_Some f t' _ b), (omap_cons_Some f t _ b).
  - by rewrite (omap_cons_None f t'), (omap_cons_None f t).
Qed.

Lemma omap_insert_new {A B} (f : A -> option B) (ts : list A) i t t' b :
  ts !! i = Some t -> f t = None -> f t' = Some b ->
  b ∉ omap f ts -> NoDup (omap f ts) ->
  NoDup (omap f (<[ i := t' ]> ts)).
Proof.
  intros Hi Hf Hf' Hb Hnd.
  assert (Hlt : (i < length ts)%nat) by (by eapply lookup_lt_Some).
  rewrite insert_take_drop by done.
  rewrite <- (take_drop_middle ts i t Hi) in Hb, Hnd.
  rewrite omap_app in *.
  rewrite (omap_cons_None f t) in Hb, Hnd by done.
  rewrite (omap_cons_Some f t' _ b) by done.
  apply NoDup_app in Hnd as (Hnd1 & Hdisj & Hnd2).
  apply not_elem_of_app in Hb as [Hb1 Hb2].
  apply NoDup_app. split; [done|]. split.
  - intros x Hx1 Hx2. apply elem_of_cons in Hx2 as [->|Hx2]; [done|].
    by apply (Hdisj x).
  - by apply NoDup_cons.
Qed.

Lemma Forall2_insert_thread {A B} (P : A -> B -> Prop) (cs : list A)
    (ts : list B) i c t' :
  Forall2 P cs ts -> cs !! i = Some c -> P c t' ->
  Forall2 P cs (<[ i := t' ]> ts).
Proof.
  intros H Hi Hp. rewrite <- (list_insert_id cs i c Hi).
  by apply Forall2_insert.
Qed.

(** *** What the steps keep *)

Lemma resolve_project_frame w h h' p :
  _dxid h = _dxid h' -> _proj h = _proj h' ->
  resolve_project w h p = resolve_project w h' p.
Proof. intros Hd Hp. unfold resolve_project. by rewrite Hd, Hp. Qed.

Lemma store_answer_ok w c resp e s :
  all_text (basestring w) (default [] (resp_headers resp)) ->
  stored_expiry c resp = Some e ->
  store_answer w c (ret resp) s
  = ({| handler := with_expires (Some e)
                     (with_headers (Some (length (heap s)))
                        (with_url (Some (resp_url resp)) (handler s)));
        heap := heap s ++ [default [] (resp_headers resp)];
        calls := calls s;
        files := files s |}, ret tt).
Proof.
  intros Htext He. unfold store_answer. simpl.
  rewrite _validate_headers_ok by done. unfold stored_expiry in He.
  destruct (preauthenticated c).
  - destruct (resp_expires resp) as [ms|]; [|done].
    destruct (expiry_of ms) as [err|x]; [done|]. by injection He as <-.
  - by injection He as <-.
Qed.

(** Threads that have not got to the end of the block have no result. *)
Lemma no_results ts :
  Forall (fun t => before_block t = true \/ t = Copying) ts ->
  omap result_loc ts = [].
Proof.
  induction 1 as [|tj ts [Hb| ->] _ IH]; [done| |].
  - rewrite omap_cons_None; [done|]. by destruct tj.
  - by rewrite omap_cons_None.
Qed.

Section Threads.

Context (w : world) (s0 : state) (cs : list call).

(** A thread outside the block moves outside the block: the phase stays. *)
Lemma phase_unsent_update cf s' m' i t' :
  phase_unsent s0 cf ->
  calls s' = calls (shared cf) ->
  handler s' = handler (shared cf) ->
  (before_block t' = true \/ exists c args, t' = Holding c args) ->
  phase_unsent s0
    {| shared := s'; mutex := m'; threads := <[ i := t' ]> (threads cf) |}.
Proof.
  intros (Hc & Hu & Hts) Hc' Hh' Ht'. unfold phase_unsent. simpl.
  rewrite Hc', Hh'. repeat split; [done | done |].
  by apply Forall_insert.
Qed.

Lemma phase_sent_update cf s' m' i t t' :
  phase_sent w s0 cs cf ->
  threads cf !! i = Some t ->
  before_block t = true ->
  before_block t' = true ->
  calls s' = calls (shared cf) ->
  handler s' = handler (shared cf) ->
  phase_sent w s0 cs
    {| shared := s'; mutex := m'; threads := <[ i := t' ]> (threads cf) |}.
Proof.
  intros (f & c & Hcf & Hf & Hc & Hu & Hothers) Hi Ht Ht' Hc' Hh'.
  assert (Hne : i <> f).
  { intros ->. rewrite Hf in Hi. injection Hi as <-. done. }
  exists f, c. simpl. rewrite Hc', Hh'.
  split; [done|]. split; [by rewrite list_lookup_insert_ne|].
  split; [done|]. split; [done|].
  intros j tj Hj Hlook.
  destruct (decide (j = i)) as [->|Hji].
  - rewrite list_lookup_insert_eq in Hlook by (by eapply lookup_lt_Some).
    by injection Hlook as <-.
  - rewrite list_lookup_insert_ne in Hlook by done. by eapply Hothers.
Qed.

(** A step that allocates nothing and gives no result. *)
Lemma phase_stored_update cf s' m' i t t' c resp e l0 :
  phase_stored w s0 cs cf c resp e l0 ->
  threads cf !! i = Some t ->
  result_loc t' = result_loc t ->
  match t' with
  | Fetching _ _ _ => False
  | Leaving r | Done r => t = Leaving r
  | _ => True
  end ->
  calls s' = calls (shared cf) ->
  handler s' = handler (shared cf) ->
  heap s' = heap (shared cf) ->
  phase_stored w s0 cs
    {| shared := s'; mutex := m'; threads := <[ i := t' ]> (threads cf) |}
    c resp e l0.
Proof.
  intros (Hin & Hresp & He & Hc & Hcached & Hl0 & Hd & Hts & Hnd)
    Hi Hloc Ht' Hc' Hh' Hp'.
  unfold phase_stored. simpl. rewrite Hc', Hh', Hp'.
  repeat (split; [done|]). split.
  - apply Forall_insert; [done|].
    destruct t'; try done.
    + subst t. by apply (Forall_lookup_1 _ _ _ _ Hts Hi).
    + subst t. by apply (Forall_lookup_1 _ _ _ _ Hts Hi).
  - by rewrite (omap_insert_same result_loc _ i t t').
Qed.

(** With the answer stored, a call that looks at the cache at an instant
    that is covered finds it good. *)
Lemma stored_not_stale cf c resp e l0 now :
  phase_stored w s0 cs cf c resp e l0 ->
  Forall (in_time w s0 now) cs ->
  cache_stale w now (handler (shared cf)) = ret false.
Proof.
  intros (Hin & Hresp & He & _ & Hcached & _) Htime.
  rewrite Forall_forall in Htime.
  pose proof (Htime c Hin resp e Hresp He) as Hle.
  injection Hcached as Hu _ Hex.
  by apply (cache_fresh w now _ (resp_url resp) e).
Qed.

(** The invariant is kept by every step, when every call, were it the
    one to fetch, would be answered, and the stored expiry has not passed
    when the step reads the clock. *)
Lemma step_invariant now i cf cf' :
  invariant w s0 cs cf ->
  Forall (answered w s0) cs ->
  (forall c args u,
      threads cf !! i = Some (Holding c args) ->
      _download_url (handler (shared cf)) = Some u ->
      Forall (in_time w s0 now) cs) ->
  step w now i cf = Some cf' ->
  invariant w s0 cs cf'.
Proof.
  intros (Hok & Hdx & Hpj & Hcnt & Hphase) Hans Hread Hstep.
  unfold step in Hstep.
  destruct (threads cf !! i) as [t|] eqn:Hi; [|done].
  destruct (Forall2_lookup_r _ _ _ _ _ Hok Hi) as (c0 & Hci & Htok).
  destruct t as [c|c args|c args|c req n| |r|r]; simpl in Htok.
  - (* Ready: the arguments are built *)
    assert (c0 = c) as -> by done. injection Hstep as <-.
    pose proof (in_block_count_insert (threads cf) i _
                  (Waiting c (build_args c
                     (resolve_project w (handler (shared cf)) (project c)))) Hi)
      as Hcount.
    simpl in Hcount.
    split; [|split; [done|split; [done|split; [simpl; lia|]]]].
    + eapply Forall2_insert_thread; [done | done |].
      split; [done|]. unfold args_of.
      by rewrite (resolve_project_frame w _ (handler s0)).
    + destruct Hphase as [Hph|[Hph|(c' & resp & e & l0 & Hph)]].
      * left. apply phase_unsent_update; try done. by left.
      * right; left. by eapply phase_sent_update.
      * right; right. exists c', resp, e, l0.
        by eapply phase_stored_update.
  - (* Waiting: the mutex is acquired *)
    destruct Htok as [<- ->].
    destruct (mutex cf) eqn:Hm; [done|]. injection Hstep as <-.
    pose proof (in_block_count_insert (threads cf) i _
                  (Holding c (args_of w s0 c)) Hi) as Hcount.
    simpl in Hcount.
    split; [|split; [done|split; [done|split; [simpl; lia|]]]].
    + by eapply Forall2_insert_thread.
    + destruct Hphase as [Hph|[Hph|(c' & resp & e & l0 & Hph)]].
      * left. apply phase_unsent_update; try done. right. by eexists _, _.
      * exfalso. destruct Hph as (f & cf0 & _ & Hf & _).
        by pose proof (in_block_count_zero _ f _ Hcnt Hf).
      * right; right. exists c', resp, e, l0.
        by eapply phase_stored_update.
  - (* Holding: the cache is looked at *)
    destruct Htok as [<- ->].
    assert (Hm : mutex cf = true).
    { destruct (mutex cf); [done|].
      by pose proof (in_block_count_zero _ i _ Hcnt Hi). }
    rewrite Hm in Hcnt.
    destruct Hphase as [Hph|[Hph|(c' & resp & e & l0 & Hph)]].
    + (* nothing sent yet: this thread sends *)
      destruct Hph as (Hc & Hu & Hts).
      unfold cache_stale in Hstep. rewrite Hu in Hstep. simpl in Hstep.
      injection Hstep as <-.
      assert (Hreq : {| req_dxid := _dxid (handler (shared cf));
                        req_args := args_of w s0 c;
                        req_kwargs := with_timeout (kwargs c) |}
                     = request_of w s0 c).
      { unfold request_of, args_of. by rewrite Hdx. }
      rewrite Hreq, Hc.
      pose proof (in_block_count_insert (threads cf) i _
                    (Fetching c (request_of w s0 c) (length (calls s0))) Hi)
        as Hcount.
      simpl in Hcount.
      split; [|split; [done|split; [done|split; [simpl; rewrite Hm; lia|]]]].
      * by eapply Forall2_insert_thread.
      * right; left. exists i, c. simpl.
        split; [done|].
        split; [by rewrite list_lookup_insert_eq by (by eapply lookup_lt_Some)|].
        split; [by rewrite Hc|]. split; [done|].
        intros j tj Hj Hlook. rewrite list_lookup_insert_ne in Hlook by done.
        pose proof (in_block_alone _ i _ j tj Hcnt Hi eq_refl Hj Hlook) as Hout.
        rewrite Forall_lookup in Hts.
        destruct (Hts j tj Hlook) as [|(c1 & a1 & ->)]; done.
    + (* another thread is fetching: it holds the mutex, not this one *)
      exfalso. destruct Hph as (f & cf0 & _ & Hf & _).
      assert (Hne : f <> i).
      { intros ->. rewrite Hf in Hi. done. }
      by pose proof (in_block_alone _ i _ f _ Hcnt Hi eq_refl Hne Hf).
    + (* the answer is stored and has not expired *)
      assert (Htime : Forall (in_time w s0 now) cs).
      { destruct Hph as (_ & _ & _ & _ & Hcached & _).
        injection Hcached as Hu _ _. by eapply Hread. }
      rewrite (stored_not_stale cf c' resp e l0 now Hph Htime) in Hstep.
      simpl in Hstep. injection Hstep as <-.
      pose proof (in_block_count_insert (threads cf) i _ Copying Hi) as Hcount.
      simpl in Hcount.
      split; [|split; [done|split; [done|split; [simpl; rewrite Hm; lia|]]]].
      * by eapply Forall2_insert_thread.
      * right; right. exists c', resp, e, l0.
        by eapply phase_stored_update.
  - (* Fetching: the answer comes and is stored *)
    destruct Htok as (<- & -> & ->).
    destruct Hphase as [Hph|[Hph|(c' & resp & e & l0 & Hph)]].
    + exfalso. destruct Hph as (_ & _ & Hts). rewrite Forall_lookup in Hts.
      destruct (Hts i _ Hi) as [|(c1 & a1 & ?)]; done.
    + destruct Hph as (f & cf0 & Hcf0 & Hf & Hc & Hu & Hothers).
      assert (f = i) as ->.
      { destruct (decide (f = i)) as [|Hne]; [done|].
        assert (i <> f) as Hne' by done.
        by pose proof (Hothers i _ Hne' Hi). }
      rewrite Hf in Hi. clear Hi. rewrite Hci in Hcf0. injection Hcf0 as <-.
      assert (Hin : c ∈ cs) by (by eapply list_elem_of_lookup_2).
      rewrite Forall_forall in Hans.
      destruct (Hans c Hin) as (resp & e & Hresp & Htext & He).
      rewrite Hresp, (store_answer_ok w c resp e) in Hstep by done.
      injection Hstep as <-.
      pose proof (in_block_count_insert (threads cf) i _ Copying Hf) as Hcount.
      simpl in Hcount.
      split; [|split; [done|split; [done|split; [simpl; lia|]]]].
      * by eapply Forall2_insert_thread.
      * right; right. exists c, resp, e, (length (heap (shared cf))).
        unfold phase_stored. simpl.
        split; [done|]. split; [done|]. split; [done|]. split; [done|].
        split; [done|]. split; [rewrite length_app; simpl; lia|].
        split; [apply deref_new|].
        assert (Hnone : Forall (fun t => before_block t = true \/ t = Copying)
                          (<[ i := Copying ]> (threads cf))).
        { apply Forall_lookup. intros j tj Hlook.
          destruct (decide (j = i)) as [->|Hji].
          - rewrite list_lookup_insert_eq in Hlook by (by eapply lookup_lt_Some).
            injection Hlook as <-. by right.
          - rewrite list_lookup_insert_ne in Hlook by done.
            left. by eapply Hothers. }
        split.
        -- eapply Forall_impl; [exact Hnone|].
           intros tj [Hb| ->]; [|done]. by destruct tj.
        -- rewrite (no_results _ Hnone). constructor.
  + exfalso. destruct Hph as (_ & _ & _ & _ & _ & _ & _ & Hts & _).
      rewrite Forall_lookup in Hts. by apply (Hts i _ Hi).
  - (* Copying: the result is taken *)
    destruct Hphase as [Hph|[Hph|(c' & resp & e & l0 & Hph)]].
    + exfalso. destruct Hph as (_ & _ & Hts). rewrite Forall_lookup in Hts.
      destruct (Hts i _ Hi) as [|(c1 & a1 & ?)]; done.
    + exfalso. destruct Hph as (f & cf0 & _ & Hf & _ & _ & Hothers).
      assert (Hne : i <> f).
      { intros ->. rewrite Hf in Hi. done. }
      by pose proof (Hothers i _ Hne Hi).
    + destruct Hph as (Hin & Hresp & He & Hc & Hcached & Hl0 & Hd & Hts & Hnd).
      injection Hcached as Hu Hh Hex.
      unfold copy_out in Hstep. rewrite Hu, Hh in Hstep. simpl in Hstep.
      injection Hstep as <-.
      pose proof (in_block_count_insert (threads cf) i _
                    (Leaving (ret (Some (resp_url resp),
                                   Some (length (heap (shared cf)))))) Hi)
        as Hcount.
      simpl in Hcount. apply Nat.add_cancel_r in Hcount.
      split; [|split; [done|split; [done|split;
        [exact (eq_trans Hcount Hcnt)|]]]].
      * by eapply Forall2_insert_thread.
      * right; right. exists c', resp, e, l0.
        unfold phase_stored. simpl.
        split; [done|]. split; [done|]. split; [done|]. split; [done|].
        split; [by unfold cached; rewrite Hu, Hh, Hex|].
        split; [rewrite length_app; lia|].
        split; [by rewrite deref_app_l|].
        split.
        -- apply Forall_insert.
           ++ eapply Forall_impl; [exact Hts|].
              intros tj Htj. destruct tj; try done;
                destruct Htj as (l & -> & Hl & Hdl); exists l;
                (split; [done|]); (split; [rewrite length_app; lia|]);
                by rewrite deref_app_l by lia.
           ++ exists (length (heap (shared cf))). split; [done|].
              split; [rewrite length_app; simpl; lia|].
              by rewrite deref_new.
        -- eapply (omap_insert_new result_loc _ i Copying); try done.
           intros Hfresh. apply list_elem_of_omap in Hfresh as (tj & Htj & Hloc).
           rewrite Forall_forall in Hts. specialize (Hts tj Htj).
           destruct tj as [| | | | |[err|[u1 [l1|]]]|[err|[u1 [l1|]]]];
             try done; simpl in Hloc; injection Hloc as ->;
             destruct Hts as (l & Hr & Hl & _); injection Hr as _ <-; lia.
  - (* Leaving: the mutex is released *)
    injection Hstep as <-.
    assert (Hm : mutex cf = true).
    { destruct (mutex cf); [done|].
      by pose proof (in_block_count_zero _ i _ Hcnt Hi). }
    rewrite Hm in Hcnt.
    pose proof (in_block_count_insert (threads cf) i _ (Done r) Hi) as Hcount.
    simpl in Hcount.
    split; [|split; [done|split; [done|split; [simpl; lia|]]]].
    + by eapply Forall2_insert_thread.
    + destruct Hphase as [Hph|[Hph|(c' & resp & e & l0 & Hph)]].
      * exfalso. destruct Hph as (_ & _ & Hts). rewrite Forall_lookup in Hts.
        destruct (Hts i _ Hi) as [|(c1 & a1 & ?)]; done.
      * exfalso. destruct Hph as (f & cf0 & _ & Hf & _ & _ & Hothers).
        assert (Hne : i <> f).
        { intros ->. rewrite Hf in Hi. done. }
        by pose proof (Hothers i _ Hne Hi).
      * right; right. exists c', resp, e, l0.
        by eapply phase_stored_update.
  - done.
Qed.

Lemma start_invariant :
  _download_url (handler s0) = None -> invariant w s0 cs (start s0 cs).
Proof.
  intros Hu. unfold invariant, start. simpl.
  split; [|split; [done|split; [done|split]]].
  - apply Forall2_fmap_r, Forall_Forall2_diag, Forall_forall. by intros c _.
  - unfold in_block_count. induction cs as [|c cs' IH]; [done|]. simpl. lia.
  - left. split; [done|]. split; [done|].
    apply Forall_fmap, Forall_forall. intros c _. by left.
Qed.

Lemma run_invariant sched : forall cf,
  invariant w s0 cs cf ->
  Forall (answered w s0) cs ->
  Forall (fun now => Forall (in_time w s0 now) cs) (clock_reads w sched cf) ->
  invariant w s0 cs (run w sched cf).
Proof.
  induction sched as [|[i now] sched IH]; intros cf Hinv Hans Htime; [done|].
  simpl in *.
  destruct (step w now i cf) as [cf'|] eqn:Hstep; [|by apply IH].
  apply IH; [|done|].
  - eapply step_invariant; [done | done | | done].
    intros c args u Hi Hu. rewrite Hi, Hu in Htime.
    by apply Forall_cons in Htime as [? _].
  - destruct (threads cf !! i) as [[]|]; try done.
    destruct (_download_url (handler (shared cf))); [|done].
    by apply Forall_cons in Htime as [_ ?].
Qed.

End Threads.

(** Threads that are all done, with the answer stored: their results. *)
Lemma done_results (u : string) (d : dict) (h : list dict) (l0 : loc) ts :
  forallb is_done ts = true ->
  Forall (fun t =>
            match t with
            | Fetching _ _ _ => False
            | Leaving r | Done r =>
                exists l, r = ret (Some u, Some l) /\
                          (l0 < l < length h)%nat /\ deref h l = d
            | _ => True
            end) ts ->
  ts = map (fun l => Done (ret (Some u, Some l))) (omap result_loc ts) /\
  length (omap result_loc ts) = length ts /\
  Forall (fun l => (l0 < l < length h)%nat /\ deref h l = d) (omap result_loc ts).
Proof.
  induction ts as [|t ts IH]; intros Hdone Hts; [done|].
  simpl in Hdone. apply andb_true_iff in Hdone as [Ht Hdone].
  apply Forall_cons in Hts as [Hpt Hts].
  destruct (IH Hdone Hts) as (Hmap & Hlen & Hall).
  destruct t as [| | | | | |r]; try done.
  destruct Hpt as (l & -> & Hl & Hd).
  rewrite (omap_cons_Some result_loc _ _ l) by done. simpl.
  split; [by rewrite <- Hmap|]. split; [by rewrite Hlen|].
  by constructor.
Qed.

(** *** Every fair schedule ends *)

Lemma work_insert ts : forall i t t',
  ts !! i = Some t ->
  (work (<[ i := t' ]> ts) + remaining t = work ts + remaining t')%nat.
Proof.
  unfold work.
  induction ts as [|t0 ts IH]; intros [|i] t t' Hi; simpl in *; try done.
  - injection Hi as ->. lia.
  - specialize (IH i t t' Hi). lia.
Qed.

Lemma in_block_count_find ts :
  (0 < in_block_count ts)%nat ->
  exists i t, ts !! i = Some t /\ in_block t = true.
Proof.
  unfold in_block_count. induction ts as [|t ts IH]; simpl; [lia|].
  intros Hpos. destruct (in_block t) eqn:Ht.
  - by exists 0%nat, t.
  - destruct IH as (i & t' & Hi & Ht'); [lia|]. by exists (S i), t'.
Qed.

Lemma not_all_done_find ts :
  forallb is_done ts = false ->
  exists i t, ts !! i = Some t /\ is_done t = false.
Proof.
  induction ts as [|t ts IH]; simpl; [done|].
  destruct (is_done t) eqn:Ht; simpl.
  - intros Hts. destruct (IH Hts) as (i & t' & Hi & Ht'). by exists (S i), t'.
  - intros _. by exists 0%nat, t.
Qed.

Lemma work_done ts : work ts = 0%nat <-> forallb is_done ts = true.
Proof.
  unfold work. induction ts as [|t ts IH]; simpl; [done|].
  rewrite andb_true_iff, <- IH.
  destruct t; simpl; (split; [intros H | intros [H1 H2]]);
    try done; try lia; split; done || lia.
Qed.

(** A step moves one thread on, towards its end; the mutex changes hands
    only when the thread enters or leaves the block. *)
Lemma step_moves w now i cf cf' :
  step w now i cf = Some cf' ->
  exists t t',
    threads cf !! i = Some t /\
    threads cf' = <[ i := t' ]> (threads cf) /\
    (remaining t' < remaining t)%nat /\
    ((in_block t' = in_block t /\ mutex cf' = mutex cf) \/
     (in_block t = false /\ in_block t' = true /\
      mutex cf = false /\ mutex cf' = true) \/
     (in_block t = true /\ in_block t' = false /\ mutex cf' = false)).
Proof.
  unfold step. destruct (threads cf !! i) as [t|]; [|done].
  destruct t as [c|c args|c args|c req n| |r|r].
  - intros [= <-]. eexists _, _. split; [done|]. split; [done|].
    split; [simpl; lia|]. left. by split.
  - destruct (mutex cf) eqn:Hm; [done|]. intros [= <-].
    eexists _, _. split; [done|]. split; [done|].
    split; [simpl; lia|]. right; left. by repeat split.
  - destruct (cache_stale w now (handler (shared cf))) as [err|[|]];
      intros [= <-]; eexists _, _; (split; [done|]); (split; [done|]);
      (split; [simpl; lia|]); left; by split.
  - destruct (store_answer w c (database_download_file w n req) (shared cf))
      as [s1 [err|u]];
      intros [= <-]; eexists _, _; (split; [done|]); (split; [done|]);
      (split; [simpl; lia|]); left; by split.
  - destruct (copy_out (shared cf)) as [s1 rv]. intros [= <-].
    eexists _, _. split; [done|]. split; [done|].
    split; [simpl; lia|]. left. by split.
  - intros [= <-]. eexists _, _. split; [done|]. split; [done|].
    split; [simpl; lia|]. right; right. by repeat split.
  - done.
Qed.

Lemma step_mutex w now i cf cf' :
  mutex_counts cf -> step w now i cf = Some cf' -> mutex_counts cf'.
Proof.
  unfold mutex_counts. intros Hcnt Hstep.
  destruct (step_moves w now i cf cf' Hstep)
    as (t & t' & Hi & -> & _ & Hmutex).
  pose proof (in_block_count_insert (threads cf) i t t' Hi) as Hcount.
  destruct Hmutex as [[Hb ->]|[(Ht & Ht' & Hm & ->)|(Ht & Ht' & ->)]].
  - rewrite Hb in Hcount. apply Nat.add_cancel_r in Hcount.
    exact (eq_trans Hcount Hcnt).
  - rewrite Ht, Ht' in Hcount. rewrite Hm in Hcnt. lia.
  - pose proof (in_block_count_pos _ _ _ Hi Ht) as Hpos.
    rewrite Ht, Ht' in Hcount. destruct (mutex cf); lia.
Qed.

Lemma step_work w now i cf cf' :
  step w now i cf = Some cf' ->
  (work (threads cf') < work (threads cf))%nat /\
  length (threads cf') = length (threads cf).
Proof.
  intros Hstep.
  destruct (step_moves w now i cf cf' Hstep)
    as (t & t' & Hi & -> & Hless & _).
  pose proof (work_insert (threads cf) i t t' Hi) as Hwork.
  split; [lia|]. apply length_insert.
Qed.

(** Unless all threads are done, one of them can move, at every
    instant: the thread in the block when the mutex is held, and any
    thread that is not done when it is free. *)
Lemma progress w cf :
  mutex_counts cf -> all_done cf = false ->
  exists i, forall now, is_Some (step w now i cf).
Proof.
  unfold mutex_counts, all_done. intros Hcnt Hdone.
  destruct (mutex cf) eqn:Hm.
  - destruct (in_block_count_find (threads cf)) as (i & t & Hi & Hin); [lia|].
    exists i. intros now. unfold step. rewrite Hi.
    destruct t as [c|c args|c args|c req n| |r|r]; try done.
    + by destruct (cache_stale w now (handler (shared cf))) as [err|[|]].
    + by destruct (store_answer w c (database_download_file w n req)
                     (shared cf)) as [s1 [err|u]].
    + by destruct (copy_out (shared cf)).
  - destruct (not_all_done_find _ Hdone) as (i & t & Hi & Ht).
    pose proof (in_block_count_zero _ i t Hcnt Hi) as Hout.
    exists i. intros now. unfold step. rewrite Hi, ?Hm.
    by destruct t as [c|c args|c args|c req n| |r|r].
Qed.

Lemma run_app w a : forall b cf,
  run w (a ++ b) cf = run w b (run w a cf).
Proof.
  induction a as [|[i now] a IH]; intros b cf; [done|]. simpl.
  by destruct (step w now i cf).
Qed.

Lemma run_keeps w sched : forall cf,
  mutex_counts cf ->
  mutex_counts (run w sched cf) /\
  length (threads (run w sched cf)) = length (threads cf) /\
  (work (threads (run w sched cf)) <= work (threads cf))%nat.
Proof.
  induction sched as [|[i now] sched IH]; intros cf Hcnt; [done|]. simpl.
  destruct (step w now i cf) as [cf'|] eqn:Hstep; [|by apply IH].
  destruct (step_work w now i cf cf' Hstep) as [Hless Hlen].
  destruct (IH cf' (step_mutex w now i cf cf' Hcnt Hstep)) as (? & ? & ?).
  split; [done|]. split; lia.
Qed.

(** A thread that can move and is given its turn: some step is made. *)
Lemma run_work_lt w seg : forall cf i now,
  mutex_counts cf ->
  (i, now) ∈ seg ->
  (forall now', is_Some (step w now' i cf)) ->
  (work (threads (run w seg cf)) < work (threads cf))%nat.
Proof.
  induction seg as [|[j now0] seg IH]; intros cf i now Hcnt Hin Hcan.
  - by apply elem_of_nil in Hin.
  - simpl. destruct (step w now0 j cf) as [cf'|] eqn:Hstep.
    + destruct (step_work w now0 j cf cf' Hstep) as [Hless _].
      destruct (run_keeps w seg cf' (step_mutex w now0 j cf cf' Hcnt Hstep))
        as (_ & _ & Hle).
      lia.
    + apply elem_of_cons in Hin as [[= -> ->]|Hin].
      * destruct (Hcan now0) as [cf' Hcf']. congruence.
      * by apply (IH cf i now).
Qed.

(** A schedule of as many rounds as there is work left ends with all
    threads done. *)
Lemma fair_run_done w : forall segs cf,
  mutex_counts cf ->
  Forall (full_round (length (threads cf))) segs ->
  (work (threads cf) <= length segs)%nat ->
  all_done (run w (concat segs) cf) = true.
Proof.
  induction segs as [|seg segs IH]; intros cf Hcnt Hrounds Hwork.
  - simpl in *. apply work_done. lia.
  - simpl. rewrite run_app.
    apply Forall_cons in Hrounds as [Hseg Hrounds].
    destruct (run_keeps w seg cf Hcnt) as (Hcnt1 & Hlen1 & Hle1).
    apply IH; [done | by rewrite Hlen1 |].
    destruct (all_done cf) eqn:Hdone.
    + apply work_done in Hdone. lia.
    + destruct (progress w cf Hcnt Hdone) as [i Hcan].
      assert (Hi : (i < length (threads cf))%nat).
      { destruct (Hcan 0%Q) as [cf' Hcf']. unfold step in Hcf'.
        destruct (threads cf !! i) eqn:Hlook; [|done].
        by eapply lookup_lt_Some. }
      destruct (Hseg i Hi) as [now Hin].
      pose proof (run_work_lt w seg cf i now Hcnt Hin Hcan). simpl in Hwork. lia.
Qed.

Lemma start_mutex s cs : mutex_counts (start s cs).
Proof.
  unfold mutex_counts, start, in_block_count. simpl.
  induction cs as [|c cs IH]; [done|]. simpl. lia.
Qed.

Lemma work_start s cs : work (threads (start s cs)) = (6 * length cs)%nat.
Proof.
  unfold start, work. simpl. induction cs as [|c cs IH]; [done|]. simpl. lia.
Qed.

Lemma fair_start_done w s cs sched :
  fair (length cs) (6 * length cs) sched ->
  all_done (run w sched (start s cs)) = true.
Proof.
  intros (segs & -> & Hk & Hrounds). apply fair_run_done.
  - apply start_mutex.
  - unfold start. simpl. by rewrite length_map.
  - by rewrite work_start.
Qed.

(** Every thread in turn, round after round, is a fair schedule. *)
Lemma round_robin_fair n k now : fair n k (round_robin n k now).
Proof.
  exists (replicate k ((fun i => (i, now)) <$> seq 0 n)).
  split; [|split].
  - unfold round_robin. induction k as [|k IH]; [done|]. simpl.
    by rewrite fmap_app, IH.
  - by rewrite length_replicate.
  - apply Forall_replicate. intros i Hi. exists now.
    apply list_elem_of_fmap. exists i. split; [done|].
    apply elem_of_seq. lia.
Qed.

(** C1, amended.  Threads, at least one, call [get_download_url], each
    with its own arguments, on one handler whose cached URL is unset, and
    are scheduled fairly: for six rounds per thread, every thread is given
    the processor in every round (a thread makes at most six steps, and a
    thread that waits for the mutex loses its turn).  If the transport,
    whichever call reaches it first, answers with headers that are text
    and (for a preauthenticated call) with an expiry, and the expiry
    stored for that answer has not passed at any instant at which a thread
    reads the clock to look at the cache, then all threads end; the
    transport has been called exactly once; every call has returned
    the URL of that one answer; the cached headers and the headers
    returned to the threads are pairwise different mappings, each with the
    items of the answer; and replacing the items of the mapping of one
    thread leaves the cached mapping and those of the other threads as
    they are. *)
Theorem single_flight (w : world) (s0 : state) (cs : list call)
    (sched : schedule) :
  cs <> [] ->
  _download_url (handler s0) = None ->
  Forall (answered w s0) cs ->
  Forall (fun now => Forall (in_time w s0 now) cs)
    (clock_reads w sched (start s0 cs)) ->
  fair (length cs) (6 * length cs) sched ->
  all_done (run w sched (start s0 cs)) = true /\
  exists c resp l0 ls,
    c ∈ cs /\
    database_download_file w (length (calls s0)) (request_of w s0 c) = ret resp /\
    calls (shared (run w sched (start s0 cs))) = calls s0 ++ [request_of w s0 c] /\
    _download_url (handler (shared (run w sched (start s0 cs))))
    = Some (resp_url resp) /\
    _download_url_headers (handler (shared (run w sched (start s0 cs))))
    = Some l0 /\
    threads (run w sched (start s0 cs))
    = map (fun l => Done (ret (Some (resp_url resp), Some l))) ls /\
    length ls = length cs /\
    NoDup (l0 :: ls) /\
    Forall (fun l => deref (heap (shared (run w sched (start s0 cs)))) l
                     = default [] (resp_headers resp)) (l0 :: ls) /\
    forall l d l',
      l ∈ ls -> l' ∈ l0 :: ls -> l' <> l ->
      deref (heap (mutate l d (shared (run w sched (start s0 cs))))) l'
      = default [] (resp_headers resp).
Proof.
  intros Hne Hu Hans Htime Hfair.
  pose proof (fair_start_done w s0 cs sched Hfair) as Hdone.
  split; [exact Hdone|].
  pose proof (run_invariant w s0 cs sched _ (start_invariant w s0 cs Hu)
                Hans Htime)
    as (Hok & _ & _ & _ & Hphase).
  remember (run w sched (start s0 cs)) as cf eqn:Hcf. clear Hcf.
  unfold all_done in Hdone.
  assert (Hsome : exists t ts, threads cf = t :: ts).
  { apply Forall2_length in Hok.
    destruct (threads cf) as [|t ts]; [|by eauto].
    destruct cs; [done | discriminate]. }
  destruct Hsome as (t & ts & Hthreads).
  assert (Ht : is_done t = true).
  { rewrite Hthreads in Hdone. simpl in Hdone.
    by apply andb_true_iff in Hdone as [? _]. }
  destruct Hphase as [Hph|[Hph|(c & resp & e & l0 & Hph)]].
  - exfalso. destruct Hph as (_ & _ & Hts). rewrite Hthreads in Hts.
    apply Forall_cons in Hts as [[Hb|(c1 & a1 & ->)] _]; [|done].
    by destruct t.
  - exfalso. destruct Hph as (f & c & _ & Hf & _).
    rewrite forallb_forall in Hdone.
    apply list_elem_of_lookup_2, list_elem_of_In in Hf.
    by specialize (Hdone _ Hf).
  - destruct Hph as (Hin & Hresp & He & Hc & Hcached & Hl0 & Hd & Hts & Hnd).
    injection Hcached as Hurl Hh Hex.
    destruct (done_results (resp_url resp) (default [] (resp_headers resp))
                (heap (shared cf)) l0 (threads cf) Hdone Hts)
      as (Hmap & Hlen & Hall).
    exists c, resp, l0, (omap result_loc (threads cf)).
    repeat (split; [done|]).
    split; [by rewrite Hlen; symmetry; apply (Forall2_length _ _ _ Hok)|].
    assert (Hl0' : l0 ∉ omap result_loc (threads cf)).
    { intros Hel. rewrite Forall_forall in Hall.
      destruct (Hall l0 Hel) as [? _]. lia. }
    split; [by apply NoDup_cons|].
    assert (Hderef : Forall (fun l => deref (heap (shared cf)) l
                                      = default [] (resp_headers resp))
                       (l0 :: omap result_loc (threads cf))).
    { constructor; [done|]. eapply Forall_impl; [exact Hall|]. by intros l [_ ?]. }
    split; [done|].
    intros l d l' Hl Hl' Hdiff. simpl.
    rewrite deref_insert_ne by done.
    rewrite Forall_forall in Hderef. by apply Hderef.
Qed.

(** C1, as stated, fails.  Two threads ask for a preauthenticated URL of
    30 seconds: the expiry that is stored, 30000/1000 - 60, is before the
    instant 0 of the calls, so the second thread finds the cache of the
    first expired.  The transport is called twice and the threads return
    different URLs. *)
Lemma single_flight_counterexample :
  _download_url (handler (fresh_state "database-A")) = None /\
  all_done short_lived_race = true /\
  length (calls (shared short_lived_race)) = 2%nat /\
  threads short_lived_race
  = [Done (ret (Some "https://dl/0", Some 1%nat));
     Done (ret (Some "https://dl/1", Some 3%nat))].
Proof. repeat split; by vm_compute. Qed.

(** The sample server answers every call in time for the instant 0. *)
Lemma sample_answered :
  Forall (answered (sample_world false 100000) (fresh_state "database-A"))
    sample_calls.
Proof.
  repeat constructor; eexists _, _; (split; [reflexivity|]);
    (split; [by repeat constructor|]); by vm_compute.
Qed.

Lemma sample_in_time :
  Forall (in_time (sample_world false 100000) (fresh_state "database-A") 0)
    sample_calls.
Proof.
  repeat constructor; intros resp e [= <-] He; vm_compute in He;
    injection He as <-; by vm_compute.
Qed.

Lemma single_flight_witness :
  sample_calls <> [] /\
  _download_url (handler (fresh_state "database-A")) = None /\
  Forall (answered (sample_world false 100000) (fresh_state "database-A"))
    sample_calls /\
  Forall (fun now => Forall (in_time (sample_world false 100000)
                               (fresh_state "database-A") now) sample_calls)
    (clock_reads (sample_world false 100000) (round_robin 3 18 0)
       (start (fresh_state "database-A") sample_calls)) /\
  fair (length sample_calls) (6 * length sample_calls) (round_robin 3 18 0) /\
  all_done (run (sample_world false 100000) (round_robin 3 18 0)
       (start (fresh_state "database-A") sample_calls)) = true /\
  exists c resp l0 ls,
    c ∈ sample_calls /\
    database_download_file (sample_world false 100000)
      (length (calls (fresh_state "database-A")))
      (request_of (sample_world false 100000) (fresh_state "database-A") c)
    = ret resp /\
    calls (shared (run (sample_world false 100000) (round_robin 3 18 0)
       (start (fresh_state "database-A") sample_calls)))
    = calls (fresh_state "database-A")
      ++ [request_of (sample_world false 100000) (fresh_state "database-A") c] /\
    _download_url (handler (shared (run (sample_world false 100000) (round_robin 3 18 0)
       (start (fresh_state "database-A") sample_calls)))) = Some (resp_url resp) /\
    _download_url_headers (handler (shared (run (sample_world false 100000) (round_robin 3 18 0)
       (start (fresh_state "database-A") sample_calls)))) = Some l0 /\
    threads (run (sample_world false 100000) (round_robin 3 18 0)
       (start (fresh_state "database-A") sample_calls))
    = map (fun l => Done (ret (Some (resp_url resp), Some l))) ls /\
    length ls = length sample_calls /\
    NoDup (l0 :: ls) /\
    Forall (fun l => deref (heap (shared (run (sample_world false 100000) (round_robin 3 18 0)
       (start (fresh_state "database-A") sample_calls)))) l
                     = default [] (resp_headers resp)) (l0 :: ls) /\
    forall l d l',
      l ∈ ls -> l' ∈ l0 :: ls -> l' <> l ->
      deref (heap (mutate l d (shared (run (sample_world false 100000) (round_robin 3 18 0)
       (start (fresh_state "database-A") sample_calls))))) l'
      = default [] (resp_headers resp).
Proof.
  assert (H1 : sample_calls <> []) by discriminate.
  assert (H2 : _download_url (handler (fresh_state "database-A")) = None)
    by reflexivity.
  pose proof sample_answered as H3.
  assert (H4 : Forall (fun now => Forall (in_time (sample_world false 100000)
                                            (fresh_state "database-A") now)
                                    sample_calls)
                 (clock_reads (sample_world false 100000) (round_robin 3 18 0)
                    (start (fresh_state "database-A") sample_calls))).
  { assert (Hreads : clock_reads (sample_world false 100000)
                       (round_robin 3 18 0)
                       (start (fresh_state "database-A") sample_calls)
                     = [0%Q; 0%Q]) by (by vm_compute).
    rewrite Hreads.
    constructor; [apply sample_in_time|].
    constructor; [apply sample_in_time|]. constructor. }
  pose proof (round_robin_fair 3 18 0) as H5.
  split; [exact H1|]. split; [exact H2|]. split; [exact H3|].
  split; [exact H4|]. split; [exact H5|].
  exact (single_flight _ _ _ _ H1 H2 H3 H4 H5).
Defined.

(** One thread alone, given six steps, does what [get_download_url] does
    for a single caller. *)
Lemma single_thread w now c s :
  run w (round_robin 1 6 now) (start s [c])
  = {| shared := (get_download_url w now c s).1; mutex := false;
       threads := [Done (get_download_url w now c s).2] |}.
Proof.
  rewrite get_download_url_unfold. unfold locked_body, refresh.
  unfold round_robin, start, before_lock. cbn [replicate concat seq app fmap list_fmap map run].
  cbn -[cache_stale send_request store_answer copy_out].
  destruct (cache_stale w now (handler s)) as [err|[|]];
    cbn -[cache_stale send_request store_answer copy_out]; [done| |].
  - unfold send_request. cbn -[cache_stale store_answer copy_out].
    destruct (store_answer _ _ _ _) as [s1 [err|[]]];
      cbn -[cache_stale store_answer copy_out]; [done|].
    by destruct (copy_out s1).
  - by destruct (copy_out _).
Qed.

(** * Further properties *)

(** ** Line iteration, for every object *)

Lemma is_linebreak_LF py2 c : (c =? LF)%N = true -> is_linebreak py2 c = true.
Proof. intros H. apply N.eqb_eq in H. subst. by destruct py2. Qed.

(** [splitlines] drops the line boundaries and nothing else. *)
Lemma splitlines_go_concat py2 s : forall after_cr cur,
  concat (splitlines_go py2 after_cr cur s) = cur ++ without_linebreaks py2 s.
Proof.
  induction s as [|c rest IH]; intros after_cr cur; simpl.
  - destruct cur; simpl; by rewrite ?app_nil_r.
  - destruct (after_cr && (c =? LF)%N) eqn:Hskip.
    + apply andb_true_iff in Hskip as [_ Hc].
      rewrite (is_linebreak_LF py2 c Hc). simpl. apply IH.
    + destruct (is_linebreak py2 c) eqn:Hc; simpl.
      * by rewrite IH.
      * rewrite IH. by rewrite <- app_assoc.
Qed.

Lemma splitlines_concat py2 s :
  concat (splitlines py2 s) = without_linebreaks py2 s.
Proof. apply (splitlines_go_concat py2 s false []). Qed.

Lemma without_linebreaks_app py2 s t :
  without_linebreaks py2 (s ++ t)
  = without_linebreaks py2 s ++ without_linebreaks py2 t.
Proof. apply List.filter_app. Qed.

Lemma without_linebreaks_idemp py2 s :
  without_linebreaks py2 (without_linebreaks py2 s) = without_linebreaks py2 s.
Proof.
  unfold without_linebreaks. induction s as [|c s IH]; [done|]. simpl.
  destruct (is_linebreak py2 c) eqn:Hc; simpl; [done|]. by rewrite Hc, IH.
Qed.

Lemma concat_removelast_last (ls : list text) :
  ls <> [] -> concat (removelast ls) ++ List.last ls [] = concat ls.
Proof.
  intros Hne. rewrite (app_removelast_last [] Hne) at 3.
  rewrite concat_app. simpl. by rewrite app_nil_r.
Qed.

Lemma removelast_no_newline (ls : list text) :
  Forall (fun l => has_newline l = false) ls ->
  Forall (fun l => has_newline l = false) (removelast ls).
Proof.
  induction 1 as [|l [|l' ls] Hl H IH]; simpl; [done | done |].
  constructor; [done|]. exact IH.
Qed.

(** A text with a line feed has at least one line. *)
Lemma splitlines_nonempty py2 s : forall cur,
  has_newline s = true -> splitlines_go py2 false cur s <> [].
Proof.
  induction s as [|c rest IH]; intros cur Hs; [done|]. simpl.
  destruct (is_linebreak py2 c) eqn:Hc; [done|].
  apply IH. unfold has_newline in *. cbn [existsb] in Hs.
  by rewrite (not_linebreak_not_LF py2 c Hc) in Hs.
Qed.

(** What the loop keeps: the items yielded have no line feed, the loop
    does not raise, the remainder has no line feed, and (when [read] can
    return something) the whole object is read and no character other than
    a line boundary is lost, repeated or moved. *)
Lemma iter_loop_keeps py2 n fuel : forall b rest out out' res r',
  iter_loop read py2 n fuel b rest out = Some (out', res, r') ->
  Forall (fun l => has_newline l = false) out ->
  exists b',
    res = ret b' /\
    has_newline b' = false /\
    Forall (fun l => has_newline l = false) out' /\
    (0 < n ->
     r' = [] /\
     without_linebreaks py2 (concat out' ++ b')
     = without_linebreaks py2 (concat out ++ b ++ rest)).
Proof.
  induction fuel as [|fuel IH]; intros b rest out out' res r' Hloop Hout; [done|].
  simpl in Hloop. destruct (has_newline b) eqn:Hb.
  - destruct (splitlines py2 b) as [|l ls] eqn:Hs.
    { exfalso. by apply (splitlines_nonempty py2 b []). }
    rewrite <- Hs in Hloop.
    assert (Hne : splitlines py2 b <> []) by (by rewrite Hs).
    pose proof (splitlines_go_no_newline py2 b false [] eq_refl) as Hlines.
    fold (splitlines py2 b) in Hlines.
    destruct (IH _ _ _ _ _ _ Hloop) as (b' & -> & Hb' & Hout' & Hread).
    { apply Forall_app. split; [done|]. by apply removelast_no_newline. }
    exists b'. repeat (split; [done|]).
    intros Hn. destruct (Hread Hn) as [-> Heq]. split; [done|].
    rewrite Heq. rewrite concat_app, <- !app_assoc.
    rewrite !without_linebreaks_app. f_equal.
    rewrite app_assoc. f_equal.
    rewrite <- without_linebreaks_app, concat_removelast_last by done.
    by rewrite splitlines_concat, without_linebreaks_idemp.
  - unfold read in Hloop at 1.
    destruct (take (Z.to_nat n) rest) as [|c more] eqn:Hmore.
    + injection Hloop as <- <- <-. exists b. repeat (split; [done|]).
      intros Hn.
      assert (rest = []) as ->.
      { destruct rest as [|c rest]; [done|]. exfalso.
        destruct (Z.to_nat n) eqn:Hz; [lia | done]. }
      by rewrite drop_nil, app_nil_r.
    + destruct (IH _ _ _ _ _ _ Hloop Hout) as (b' & -> & Hb' & Hout' & Hread).
      exists b'. repeat (split; [done|]).
      intros Hn. destruct (Hread Hn) as [-> Heq]. split; [done|].
      rewrite Heq, <- Hmore, <- app_assoc. by rewrite take_drop.
Qed.

Lemma finish_keeps {R} (l : option (list text * result text * R)) out b r :
  l = Some (out, ret b, r) ->
  exists it, finish l = Some it /\ stopped it = StopIteration /\
             reader it = r /\ concat (yielded it) = concat out ++ b /\
             (Forall (fun x => has_newline x = false) out ->
              has_newline b = false ->
              Forall (fun x => has_newline x = false) (yielded it)).
Proof.
  intros ->. destruct b as [|c b]; simpl; eexists; repeat split; simpl.
  - by rewrite app_nil_r.
  - done.
  - rewrite concat_app. simpl. by rewrite app_nil_r.
  - intros Hout Hb. apply Forall_app. split; [done|]. by repeat constructor.
Qed.

(** X1.  Line iteration over any object, with any size of the read
    buffer, comes to an end within [enough_fuel] turns of the loop (and
    with any larger fuel); it ends normally or, under Python 3 on a handler
    in binary mode, by the [DXFileError] before anything is yielded.  It
    raises nothing else: the index [len(lines) - 1] is always in range. *)
Theorem iter_ends (py2 : bool) (self : DXDatabase) (content : text) (k : nat) :
  exists it,
    __iter__ read py2 (enough_fuel content + k) self content = Some it /\
    (stopped it = StopIteration \/
     (py2 = false /\ _binary_mode self = true /\ yielded it = [] /\
      stopped it = Raised (DXFileError binary_mode_message))).
Proof.
  unfold __iter__.
  destruct (read (_read_bufsize self) content) as [b rest] eqn:Hread.
  assert (Hlen : (length rest <= length content)%nat).
  { unfold read in Hread. injection Hread as _ <-. rewrite length_drop. lia. }
  assert (Hloop : is_Some (iter_loop read py2 (_read_bufsize self)
                    (enough_fuel content + k) b rest [])).
  { apply iter_loop_terminates. unfold enough_fuel.
    destruct (has_newline b); lia. }
  destruct Hloop as [[[out res] r] Hloop].
  destruct (iter_loop_keeps _ _ _ _ _ _ _ _ _ Hloop (Forall_nil_2 _))
    as (b' & -> & _).
  destruct (finish_keeps _ out b' r Hloop) as (it & Hit & Hstop & _).
  destruct py2; [by exists it; split; [|left]|].
  destruct (_binary_mode self); [|by exists it; split; [|left]].
  eexists. split; [done|]. right. by repeat split.
Qed.

(** X2.  When line iteration ends normally, no item that it has yielded
    contains a line feed; and when the read buffer has a positive size, the
    object has been read to its end and the items, put end to end, are
    the object up to line boundaries: no other character is dropped,
    repeated or moved. *)
Theorem iter_keeps_characters (py2 : bool) (self : DXDatabase)
    (content : text) (k : nat) :
  exists it,
    __iter__ read py2 (enough_fuel content + k) self content = Some it /\
    (stopped it = StopIteration ->
     Forall (fun l => has_newline l = false) (yielded it) /\
     (0 < _read_bufsize self ->
      reader it = [] /\
      without_linebreaks py2 (concat (yielded it))
      = without_linebreaks py2 content)).
Proof.
  unfold __iter__.
  destruct (read (_read_bufsize self) content) as [b rest] eqn:Hread.
  assert (Hcontent : content = b ++ rest).
  { unfold read in Hread. injection Hread as <- <-. by rewrite take_drop. }
  assert (Hlen : (length rest <= length content)%nat).
  { rewrite Hcontent, length_app. lia. }
  assert (Hloop : is_Some (iter_loop read py2 (_read_bufsize self)
                    (enough_fuel content + k) b rest [])).
  { apply iter_loop_terminates. unfold enough_fuel.
    destruct (has_newline b); lia. }
  destruct Hloop as [[[out res] r] Hloop].
  destruct (iter_loop_keeps _ _ _ _ _ _ _ _ _ Hloop (Forall_nil_2 _))
    as (b' & -> & Hb' & Hout & Hall).
  destruct (finish_keeps _ out b' r Hloop)
    as (it & Hit & Hstop & Hreader & Hcat & Hlines).
  assert (Hgood : Forall (fun l => has_newline l = false) (yielded it) /\
                  (0 < _read_bufsize self ->
                   reader it = [] /\
                   without_linebreaks py2 (concat (yielded it))
                   = without_linebreaks py2 content)).
  { split; [by apply Hlines|]. intros Hn. destruct (Hall Hn) as [Hr Heq].
    split; [congruence|]. by rewrite Hcat, Heq, Hcontent. }
  destruct py2; [by exists it|].
  destruct (_binary_mode self); [|by exists it].
  eexists. split; [done|]. done.
Qed.

Lemma has_newline_take n (s : text) :
  has_newline s = false -> has_newline (take n s) = false.
Proof.
  intros H. rewrite <- (take_drop n s) in H. rewrite has_newline_app in H.
  by apply orb_false_iff in H as [? _].
Qed.

Lemma has_newline_drop n (s : text) :
  has_newline s = false -> has_newline (drop n s) = false.
Proof.
  intros H. rewrite <- (take_drop n s) in H. rewrite has_newline_app in H.
  by apply orb_false_iff in H as [_ ?].
Qed.

(** Without a line feed in sight the loop only gathers. *)
Lemma iter_loop_gathers py2 n fuel : forall b rest out,
  0 < n -> (length rest < fuel)%nat ->
  has_newline b = false -> has_newline rest = false ->
  iter_loop read py2 n fuel b rest out = Some (out, ret (b ++ rest), []).
Proof.
  induction fuel as [|fuel IH]; intros b rest out Hn Hfuel Hb Hrest; [lia|].
  simpl. rewrite Hb. unfold read at 1.
  destruct (take (Z.to_nat n) rest) as [|c more] eqn:Hmore.
  - assert (rest = []) as ->.
    { destruct rest as [|c rest]; [done|]. exfalso.
      destruct (Z.to_nat n) eqn:Hz; [lia | done]. }
    by rewrite drop_nil, app_nil_r.
  - assert (Hlen : (length (take (Z.to_nat n) rest)
                    + length (drop (Z.to_nat n) rest) = length rest)%nat).
    { by rewrite <- length_app, take_drop. }
    rewrite Hmore in Hlen. simpl in Hlen.
    rewrite IH; [|done|lia| |by apply has_newline_drop].
    + by rewrite <- Hmore, <- app_assoc, take_drop.
    + rewrite has_newline_app, Hb, <- Hmore. simpl.
      by apply has_newline_take.
Qed.

(** X3.  An object that contains no line feed is yielded as one item,
    the whole object (nothing is yielded for the empty object), by a
    handler in text mode, or under Python 2, with a read buffer of positive
    size: the other line boundaries that [splitlines] knows (a lone
    carriage return, a form feed, ...) do not end a line on their own. *)
Theorem iter_without_newline (py2 : bool) (self : DXDatabase)
    (content : text) (k : nat) :
  has_newline content = false ->
  0 < _read_bufsize self ->
  py2 = true \/ _binary_mode self = false ->
  __iter__ read py2 (S (length content) + k) self content
  = Some {| yielded := match content with [] => [] | _ => [content] end;
            stopped := StopIteration; reader := [] |}.
Proof.
  intros Hcontent Hn Hmode. unfold __iter__, read at 1.
  assert (Hloop : iter_loop read py2 (_read_bufsize self)
                    (S (length content) + k)
                    (take (Z.to_nat (_read_bufsize self)) content)
                    (drop (Z.to_nat (_read_bufsize self)) content) []
                  = Some ([], ret content, [])).
  { rewrite iter_loop_gathers; [by rewrite take_drop|done| |
      by apply has_newline_take|by apply has_newline_drop].
    rewrite length_drop. lia. }
  destruct py2.
  - rewrite Hloop. by destruct content.
  - destruct Hmode as [? | ->]; [done|]. rewrite Hloop. by destruct content.
Qed.

Lemma iter_without_newline_witness :
  has_newline (chars "a" ++ [CR] ++ chars "b") = false /\
  0 < _read_bufsize (opened false 2) /\
  (false = true \/ _binary_mode (opened false 2) = false) /\
  __iter__ read false (S (length (chars "a" ++ [CR] ++ chars "b")) + 0)
    (opened false 2) (chars "a" ++ [CR] ++ chars "b")
  = Some {| yielded := [chars "a" ++ [CR] ++ chars "b"];
            stopped := StopIteration; reader := [] |}.
Proof.
  assert (H1 : has_newline (chars "a" ++ [CR] ++ chars "b") = false)
    by reflexivity.
  assert (H2 : 0 < _read_bufsize (opened false 2)) by (simpl; lia).
  assert (H3 : false = true \/ _binary_mode (opened false 2) = false)
    by (by right).
  split; [exact H1|]. split; [exact H2|]. split; [exact H3|].
  exact (iter_without_newline false (opened false 2) _ 0 H1 H2 H3).
Defined.

(** ** The size formatter, for every integer *)

(** From [2^1024 - 2^970] on, the rounding leaves binary64. *)
Lemma round53_overflow n :
  2 ^ 1024 - 2 ^ 970 <= n -> 2 ^ 1024 <= round53 n.
Proof.
  intros Hge.
  assert (HT : 2 ^ 1024 = 18014398509481984 * 2 ^ 970).
  { change 1024 with (54 + 970). rewrite Z.pow_add_r by lia. done. }
  assert (H1023 : 2 ^ 1023 = 9007199254740992 * 2 ^ 970).
  { change 1023 with (53 + 970). rewrite Z.pow_add_r by lia. done. }
  assert (HP0 : 0 < 2 ^ 970) by (apply Z.pow_pos_nonneg; lia).
  assert (Hpos : 0 < n) by lia.
  assert (HL : 1023 <= Z.log2 n).
  { apply Z.log2_le_pow2; [done|]. lia. }
  remember (2 ^ 1024) as T eqn:HeqT. remember (2 ^ 970) as P eqn:HeqP.
  unfold round53.
  destruct (Z.log2_spec n Hpos) as [Hlo Hhi].
  remember (Z.log2 n) as L eqn:HeqL.
  destruct (Z.leb_spec (L + 1 - 53) 0) as [He|He]; [lia|].
  remember (L + 1 - 53) as e eqn:Heqe.
  replace L with (52 + e) in Hlo by lia.
  replace (Z.succ L) with (53 + e) in Hhi by lia.
  rewrite Z.pow_add_r in Hlo, Hhi by lia.
  change (2 ^ 52) with 4503599627370496 in Hlo.
  change (2 ^ 53) with 9007199254740992 in Hhi.
  assert (HE0 : 0 < 2 ^ e) by (apply Z.pow_pos_nonneg; lia).
  pose proof (Z.div_mod n (2 ^ e) ltac:(lia)) as Hdm.
  pose proof (Z.mod_pos_bound n (2 ^ e) HE0) as Hr.
  remember (n / 2 ^ e) as q eqn:Heqq. remember (n mod 2 ^ e) as r eqn:Heqr.
  assert (Hcases : e = 971 \/ 972 <= e) by lia.
  destruct Hcases as [Hbig|Hhuge].
  - assert (HeP : 2 ^ e = 2 * P).
    { subst P. rewrite Hbig. change 971 with (1 + 970).
      rewrite Z.pow_add_r by lia. done. }
    assert (Hhalf : 2 ^ (e - 1) = P) by (subst P; rewrite Hbig; done).
    rewrite Hhalf. rewrite HeP in *.
    assert (Hq : q = 9007199254740991) by nia.
    assert (Hrge : P <= r) by nia.
    destruct (Z.ltb_spec r P); [lia|].
    rewrite Hq. change (Z.even 9007199254740991) with false.
    destruct (P <? r); nia.
  - assert (HeP : 4 * P <= 2 ^ e).
    { subst P. change 4 with (2 ^ 2). rewrite <- Z.pow_add_r by lia.
      apply Z.pow_le_mono_r; lia. }
    remember (2 ^ e) as E eqn:HeqE.
    assert (Hq : 4503599627370496 <= q) by nia.
    repeat match goal with |- context [if ?b then _ else _] => destruct b end; nia.
Qed.

Lemma float_of_int_overflow n :
  2 ^ 1024 - 2 ^ 970 <= n -> float_of_int n = raise OverflowError.
Proof.
  intros Hn. pose proof (round53_overflow n Hn) as Hr.
  assert (0 < 2 ^ 970) by (apply Z.pow_pos_nonneg; lia).
  assert (0 < 2 ^ 1024) by (apply Z.pow_pos_nonneg; lia).
  unfold float_of_int. cbv zeta.
  rewrite (Z.sgn_pos n), (Z.abs_eq n) by lia. rewrite Z.mul_1_l.
  rewrite (Z.abs_eq (round53 n)) by lia.
  destruct (Z.leb_spec (2 ^ 1024) (round53 n)); [done | lia].
Qed.

(** X4.  For every integer: [_readable_part_size] raises
    [OverflowError] exactly from [2^1024 - 2^970] on; below that it
    returns a string, also for a negative count (which is printed in
    bytes); it never falls through its chain of tests to return [None]. *)
Theorem readable_part_size_outcomes (n : Z) :
  (_readable_part_size n = raise OverflowError <-> 2 ^ 1024 - 2 ^ 970 <= n) /\
  (n < 2 ^ 1024 - 2 ^ 970 <-> exists s, _readable_part_size n = ret (Some s)) /\
  (n < 0 -> _readable_part_size n = ret (Some (pretty n +:+ " bytes"))) /\
  _readable_part_size n <> ret None.
Proof.
  assert (HP0 : 0 < 2 ^ 970) by (apply Z.pow_pos_nonneg; lia).
  assert (HT : 2 ^ 1024 = 18014398509481984 * 2 ^ 970).
  { change 1024 with (54 + 970). rewrite Z.pow_add_r by lia. done. }
  assert (Hsmall : n < 1024 ->
            _readable_part_size n
            = ret (Some (pretty n +:+ " " +:+
                         (if negb (n =? 1) then "bytes" else "byte")))).
  { intros Hlt. unfold _readable_part_size. change KB with 1024.
    by destruct (Z.ltb_spec n 1024); [|lia]. }
  assert (Hbig : 1024 <= n -> exists k,
            1 <= k <= 4 /\
            _readable_part_size n
            = let! x := truediv n (unit_size k) in
              ret (Some (format_2f x +:+ " " +:+ unit_name k))).
  { intros Hge. destruct (unit_rank n Hge) as (k & Hk & Hlo & Hhi).
    exists k. split; [done|]. by apply _readable_part_size_unit. }
  assert (Hcases : n < 1024 \/ 1024 <= n < 2 ^ 1024 - 2 ^ 970
                   \/ 2 ^ 1024 - 2 ^ 970 <= n) by lia.
  destruct Hcases as [Hlt|[Hmid|Hover]].
  - rewrite (Hsmall Hlt). split; [split; [done|lia]|].
    split; [split; [by eauto|lia]|]. split; [|done].
    intros Hneg. destruct (Z.eqb_spec n 1); [lia|done].
  - destruct (Hbig ltac:(lia)) as (k & Hk & ->).
    unfold truediv. rewrite float_of_int_ok by lia. simpl.
    split; [split; [done|lia]|].
    split; [split; [by eauto|lia]|]. split; [lia|done].
  - destruct (Hbig ltac:(lia)) as (k & Hk & ->).
    unfold truediv. rewrite float_of_int_overflow by lia. simpl.
    split; [done|]. split; [|split; [lia|done]].
    split; [lia|]. by intros [s Hs].
Qed.

(** ** The header validator: which error *)

(** X5.  [_validate_headers] reports the first entry, in the order of
    iteration, that has a key or a value that is not text; in that entry
    the key is looked at before the value. *)
Theorem validate_headers_first_bad (isstr : pyval -> bool)
    (good rest : dict) (k v : pyval) :
  all_text isstr good ->
  (isstr k = false ->
   _validate_headers isstr (good ++ (k, v) :: rest)
   = raise (ValueError (BadHeaderKey k))) /\
  (isstr k = true -> isstr v = false ->
   _validate_headers isstr (good ++ (k, v) :: rest)
   = raise (ValueError (BadHeaderValue v k))).
Proof.
  intros Hgood.
  assert (Hitems :
    (isstr k = false ->
     _validate_items isstr (good ++ (k, v) :: rest)
     = raise (ValueError (BadHeaderKey k))) /\
    (isstr k = true -> isstr v = false ->
     _validate_items isstr (good ++ (k, v) :: rest)
     = raise (ValueError (BadHeaderValue v k)))).
  { induction Hgood as [|[k0 v0] good [Hk0 Hv0] _ IH]; simpl in *.
    - split.
      + intros Hk. by rewrite Hk.
      + intros Hk Hv. by rewrite Hk, Hv.
    - rewrite Hk0, Hv0. simpl. exact IH. }
  destruct Hitems as [Hkey Hvalue]. unfold _validate_headers. split.
  - intros Hk. by rewrite (Hkey Hk).
  - intros Hk Hv. by rewrite (Hvalue Hk Hv).
Qed.

Lemma validate_headers_first_bad_witness :
  all_text is_str [(PyStr "a", PyStr "b")] /\
  (is_str (PyStr "n") = true -> is_str (PyInt 5) = false ->
   _validate_headers is_str
     ([(PyStr "a", PyStr "b")] ++ (PyStr "n", PyInt 5) :: [(PyNone, PyNone)])
   = raise (ValueError (BadHeaderValue (PyInt 5) (PyStr "n")))).
Proof.
  assert (H : all_text is_str [(PyStr "a", PyStr "b")])
    by (by repeat constructor).
  split; [exact H|].
  exact (proj2 (validate_headers_first_bad is_str _ [(PyNone, PyNone)]
                  (PyStr "n") (PyInt 5) H)).
Defined.

(** ** The size formatter: the range of the number printed *)

(** X6.  From 1024 bytes up to, but not including, 1024 TiB, the number
    that [_readable_part_size] prints is at least 1.00 and at most 1024.00
    in the unit chosen: it can be printed as 1024.00 (1048575 bytes are
    ["1024.00 KiB"]), never as less than one. *)
Theorem readable_part_size_range (n : Z) :
  1024 <= n < 1024 * TB ->
  exists k,
    1 <= k <= 4 /\
    _readable_part_size n
    = ret (Some (format_2f (inject_Z n / inject_Z (unit_size k))
                 +:+ " " +:+ unit_name k)) /\
    100 <= hundredths (inject_Z n / inject_Z (unit_size k)) <= 102400.
Proof.
  intros [Hlo Hhi]. change (1024 * TB) with 1125899906842624 in Hhi.
  assert (H53 : 0 < n < 2 ^ 53) by (change (2 ^ 53) with 9007199254740992; lia).
  assert (Hfloat : float_of_int n = ret n).
  { assert (0 < 2 ^ 970) by (apply Z.pow_pos_nonneg; lia).
    assert (H1024 : 2 ^ 1024 = 18014398509481984 * 2 ^ 970).
    { change 1024 with (54 + 970). rewrite Z.pow_add_r by lia. done. }
    rewrite float_of_int_ok by (change (2 ^ 53) with 9007199254740992 in H53; nia).
    by rewrite round53_small. }
  destruct (unit_rank n Hlo) as (k & Hk & Hklo & Hkhi).
  exists k. split; [done|].
  rewrite (_readable_part_size_unit n k) by done.
  unfold truediv. rewrite Hfloat. simpl. split; [done|].
  assert (Hunit : exists p, unit_size k = Z.pos p /\ Z.pos p <= n < 1024 * Z.pos p).
  { assert (Hc : k = 1 \/ k = 2 \/ k = 3 \/ k = 4) by lia.
    destruct Hc as [-> | [-> | [-> | ->]]].
    - exists 1024%positive. specialize (Hkhi ltac:(lia)).
      change (unit_size 1) with 1024 in *.
      change (unit_size (1 + 1)) with 1048576 in *. split; [done|lia].
    - exists 1048576%positive. specialize (Hkhi ltac:(lia)).
      change (unit_size 2) with 1048576 in *.
      change (unit_size (2 + 1)) with 1073741824 in *. split; [done|lia].
    - exists 1073741824%positive. specialize (Hkhi ltac:(lia)).
      change (unit_size 3) with 1073741824 in *.
      change (unit_size (3 + 1)) with 1099511627776 in *. split; [done|lia].
    - exists 1099511627776%positive.
      change (unit_size 4) with 1099511627776 in *. split; [done|lia]. }
  destruct Hunit as (p & -> & Hp).
  pose proof (hundredths_nearest (inject_Z n / inject_Z (Z.pos p))) as Hnear.
  simpl in Hnear. rewrite Z.mul_1_r in Hnear.
  remember (hundredths (inject_Z n / inject_Z (Z.pos p))) as h.
  nia.
Qed.

Lemma readable_part_size_range_witness :
  1024 <= 1048575 < 1024 * TB /\
  exists k,
    1 <= k <= 4 /\
    _readable_part_size 1048575
    = ret (Some (format_2f (inject_Z 1048575 / inject_Z (unit_size k))
                 +:+ " " +:+ unit_name k)) /\
    100 <= hundredths (inject_Z 1048575 / inject_Z (unit_size k)) <= 102400.
Proof.
  assert (H : 1024 <= 1048575 < 1024 * TB) by (by vm_compute).
  split; [exact H|]. exact (readable_part_size_range 1048575 H).
Defined.

(** ** The cached download URL: the request and the failures *)

(** X7.  The [filename] argument of [get_download_url] has no effect: it
    is not sent to the transport (the request's [filename] is
    [src_filename]) and it changes neither the result nor the state. *)
Theorem filename_is_ignored (w : world) (now : Q) (c : call) (s : state)
    (f : option string) :
  get_download_url w now (with_filename f c) s = get_download_url w now c s /\
  request_of w s (with_filename f c) = request_of w s c /\
  req_args (request_of w s c) !! "filename" = PyStr <$> src_filename c.
Proof.
  split; [done|]. split; [done|].
  unfold request_of, build_args. simpl.
  destruct (resolve_project w (handler s) (project c)) as [p|];
    [destruct (is_NO_PROJECT_HINT p)|];
    destruct (duration c), (src_filename c); by simplify_map_eq.
Qed.

Lemma locked_body_files w now c args s :
  files (locked_body w now c args s).1 = files s.
Proof.
  unfold locked_body.
  destruct (cache_stale w now (handler s)) as [err|[|]]; [done| |].
  - unfold refresh, send_request, store_answer. simpl.
    destruct (database_download_file _ _ _) as [err|resp]; [done|]. simpl.
    destruct (_validate_headers _ _); [done|]. simpl.
    destruct (preauthenticated c);
      [destruct (resp_expires resp) as [ms|];
       [destruct (expiry_of ms); [done|]|done]|];
      simpl; unfold copy_out; simpl; done.
  - unfold copy_out. simpl. by destruct (_download_url_headers (handler s)).
Qed.

(** X8.  The test hook runs before the cache is looked at, whatever
    becomes of the call (a result, or an exception of the transport or of
    the validation): without [_DX_DUMP_BILLED_PROJECT] in the environment
    no file is touched; with it, the file that it names is rewritten at
    every call, also when the cache is good, with the project that was
    resolved, or with nothing for no project and for a project equal to
    the sentinel. *)
Theorem dump_hook_always_runs (w : world) (now : Q) (c : call) (s : state) :
  let p := resolve_project w (handler s) (project c) in
  files (get_download_url w now c s).1 = dump_billed_project w p (files s) /\
  (environ w !! "_DX_DUMP_BILLED_PROJECT" = None ->
   files (get_download_url w now c s).1 = files s) /\
  (forall path,
      environ w !! "_DX_DUMP_BILLED_PROJECT" = Some path ->
      files (get_download_url w now c s).1 !! path
      = Some match p with
             | Some q => if eq_NO_PROJECT_HINT q then "" else str_value q
             | None => ""
             end).
Proof.
  intros p. rewrite get_download_url_unfold, locked_body_files.
  unfold before_lock. simpl. fold p. split; [done|]. split.
  - intros Henv. unfold dump_billed_project. by rewrite Henv.
  - intros path Henv. unfold dump_billed_project. rewrite Henv.
    destruct p as [q|]; [destruct (eq_NO_PROJECT_HINT q)|]; simpl;
      by rewrite lookup_insert_eq.
Qed.

(** The block under the mutex, on a stale cache: the refresh, then the
    copy. *)
Lemma locked_body_stale w now c args s :
  cache_stale w now (handler s) = ret true ->
  locked_body w now c args s
  = match refresh w c args s with
    | (s1, inl e) => (s1, raise e)
    | (s1, inr _) => ((copy_out s1).1, ret (copy_out s1).2)
    end.
Proof.
  intros Hstale. unfold locked_body. rewrite Hstale. simpl.
  destruct (refresh w c args s) as [s1 [e|u]]; [done|].
  by destruct (copy_out s1).
Qed.

Lemma get_download_url_stale w now c s :
  cache_stale w now (handler s) = ret true ->
  get_download_url w now c s
  = match store_answer w c
            (database_download_file w (length (calls s)) (request_of w s c))
            (after_request w c s) with
    | (s1, inl e) => (s1, raise e)
    | (s1, inr _) => ((copy_out s1).1, ret (copy_out s1).2)
    end.
Proof.
  intros Hstale. rewrite get_download_url_unfold.
  by rewrite locked_body_stale.
Qed.

(** X9.  When the cache is stale and the transport raises, the
    exception reaches the caller as it is, the request is in the log, and
    the handler and the heap are as before: the cached URL, headers and
    expiry keep their old values. *)
Theorem transport_error_propagates (w : world) (now : Q) (c : call)
    (s : state) (e : exn) :
  cache_stale w now (handler s) = ret true ->
  database_download_file w (length (calls s)) (request_of w s c) = raise e ->
  (get_download_url w now c s).2 = raise e /\
  calls (get_download_url w now c s).1 = calls s ++ [request_of w s c] /\
  handler (get_download_url w now c s).1 = handler s /\
  heap (get_download_url w now c s).1 = heap s.
Proof.
  intros Hstale Herr. rewrite (get_download_url_stale w now c s Hstale), Herr.
  done.
Qed.

Lemma transport_error_propagates_witness :
  cache_stale (failing_world false "ResourceNotFound") 0
    (handler (fresh_state "database-A")) = ret true /\
  database_download_file (failing_world false "ResourceNotFound")
    (length (calls (fresh_state "database-A")))
    (request_of (failing_world false "ResourceNotFound")
       (fresh_state "database-A") plain_call)
  = raise (CollaboratorError "ResourceNotFound") /\
  (get_download_url (failing_world false "ResourceNotFound") 0 plain_call
     (fresh_state "database-A")).2
  = raise (CollaboratorError "ResourceNotFound").
Proof.
  assert (H1 : cache_stale (failing_world false "ResourceNotFound") 0
                 (handler (fresh_state "database-A")) = ret true)
    by reflexivity.
  assert (H2 : database_download_file (failing_world false "ResourceNotFound")
                 (length (calls (fresh_state "database-A")))
                 (request_of (failing_world false "ResourceNotFound")
                    (fresh_state "database-A") plain_call)
               = raise (CollaboratorError "ResourceNotFound"))
    by reflexivity.
  split; [exact H1|]. split; [exact H2|].
  exact (proj1 (transport_error_propagates _ _ _ _ _ H1 H2)).
Defined.

(** X10.  When the answer of the transport has arrived and the call
    raises all the same (headers that are not text; for a preauthenticated
    call, no [expires], or an [expires] too large for a float), the URL of
    the answer is already stored while the expiry keeps its old value;
    headers that are not text leave the old headers in place. *)
Theorem failed_refresh_keeps_new_url (w : world) (now : Q) (c : call)
    (s : state) (resp : response) (e : exn) :
  cache_stale w now (handler s) = ret true ->
  database_download_file w (length (calls s)) (request_of w s c) = ret resp ->
  (get_download_url w now c s).2 = raise e ->
  _download_url (handler (get_download_url w now c s).1)
  = Some (resp_url resp) /\
  _download_url_expires (handler (get_download_url w now c s).1)
  = _download_url_expires (handler s) /\
  ((exists why, e = ValueError why) \/ e = KeyError "expires" \/
   e = OverflowError) /\
  ((exists why, e = ValueError why) ->
   _download_url_headers (handler (get_download_url w now c s).1)
   = _download_url_headers (handler s)).
Proof.
  intros Hstale Hresp. rewrite (get_download_url_stale w now c s Hstale), Hresp.
  unfold store_answer. simpl.
  destruct (_validate_headers (basestring w) (default [] (resp_headers resp)))
    as [err|d] eqn:Hvalid; simpl.
  - intros [= <-]. split; [done|]. split; [done|]. split; [|done].
    left. unfold _validate_headers in Hvalid.
    destruct (all_text_or_not (basestring w) (default [] (resp_headers resp)))
      as [Hall|Hbad].
    + by rewrite _validate_items_ok in Hvalid.
    + destruct (_validate_items_bad _ _ Hbad) as [why Hwhy].
      rewrite Hwhy in Hvalid. simpl in Hvalid. injection Hvalid as <-.
      by exists why.
  - destruct (preauthenticated c); [|done].
    destruct (resp_expires resp) as [ms|]; simpl.
    + destruct (expiry_of ms) as [err|x] eqn:Hx; [|done].
      assert (err = OverflowError) as ->.
      { unfold expiry_of, int_truediv in Hx.
        destruct (Qle_bool _ _); [by injection Hx as <- | done]. }
      simpl. intros [= <-]. split; [done|]. split; [done|].
      split; [by right; right|]. by intros [why ?].
    + intros [= <-]. split; [done|]. split; [done|].
      split; [by right; left|]. by intros [why ?].
Qed.

Lemma failed_refresh_keeps_new_url_witness :
  cache_stale (bad_headers_world false) 0 (handler (fresh_state "database-A"))
  = ret true /\
  database_download_file (bad_headers_world false)
    (length (calls (fresh_state "database-A")))
    (request_of (bad_headers_world false) (fresh_state "database-A") plain_call)
  = ret {| resp_url := "https://dl/0";
           resp_headers := Some [(PyStr "Content-Length", PyInt 5)];
           resp_expires := Some 0 |} /\
  (get_download_url (bad_headers_world false) 0 plain_call
     (fresh_state "database-A")).2
  = raise (ValueError (BadHeaderValue (PyInt 5) (PyStr "Content-Length"))) /\
  _download_url (handler (get_download_url (bad_headers_world false) 0
                            plain_call (fresh_state "database-A")).1)
  = Some "https://dl/0".
Proof.
  assert (H1 : cache_stale (bad_headers_world false) 0
                 (handler (fresh_state "database-A")) = ret true)
    by reflexivity.
  assert (H2 : database_download_file (bad_headers_world false)
                 (length (calls (fresh_state "database-A")))
                 (request_of (bad_headers_world false)
                    (fresh_state "database-A") plain_call)
               = ret {| resp_url := "https://dl/0";
                        resp_headers := Some [(PyStr "Content-Length", PyInt 5)];
                        resp_expires := Some 0 |})
    by reflexivity.
  assert (H3 : (get_download_url (bad_headers_world false) 0 plain_call
                  (fresh_state "database-A")).2
               = raise (ValueError (BadHeaderValue (PyInt 5)
                                      (PyStr "Content-Length"))))
    by reflexivity.
  split; [exact H1|]. split; [exact H2|]. split; [exact H3|].
  exact (proj1 (failed_refresh_keeps_new_url _ _ _ _ _ _ H1 H2 H3)).
Defined.

(** X11.  A handler whose cache holds a URL but no expiry (the state
    that a first refresh leaves when it fails after the answer has come)
    is stuck under Python 3: every later call raises [TypeError] at the
    comparison of the expiry with the clock, sends nothing and leaves the
    handler as it is.  Under Python 2 the cache counts as stale and every
    call sends a request again. *)
Theorem url_without_expiry (w : world) (now : Q) (c : call) (s : state)
    (u : string) :
  _download_url (handler s) = Some u ->
  _download_url_expires (handler s) = None ->
  (USING_PYTHON2 w = false ->
   (get_download_url w now c s).2 = raise TypeError /\
   calls (get_download_url w now c s).1 = calls s /\
   handler (get_download_url w now c s).1 = handler s /\
   heap (get_download_url w now c s).1 = heap s) /\
  (USING_PYTHON2 w = true ->
   calls (get_download_url w now c s).1 = calls s ++ [request_of w s c]).
Proof.
  intros Hu He. split; intros Hpy.
  - rewrite get_download_url_unfold. unfold locked_body, cache_stale.
    simpl. by rewrite Hu, He, Hpy.
  - assert (Hstale : cache_stale w now (handler s) = ret true).
    { unfold cache_stale. by rewrite Hu, He, Hpy. }
    destruct (locked_body_calls w now c (before_lock w c s).2
                (before_lock w c s).1) as [[_ Hc]|[Hno _]].
    + rewrite get_download_url_unfold. exact Hc.
    + by destruct Hno.
Qed.

Lemma url_without_expiry_witness :
  _download_url
    (handler (get_download_url (bad_headers_world false) 0 plain_call
                (fresh_state "database-A")).1) = Some "https://dl/0" /\
  _download_url_expires
    (handler (get_download_url (bad_headers_world false) 0 plain_call
                (fresh_state "database-A")).1) = None /\
  (USING_PYTHON2 (bad_headers_world false) = false ->
   (get_download_url (bad_headers_world false) 7 plain_call
      (get_download_url (bad_headers_world false) 0 plain_call
         (fresh_state "database-A")).1).2 = raise TypeError).
Proof.
  assert (H1 : _download_url
                 (handler (get_download_url (bad_headers_world false) 0
                             plain_call (fresh_state "database-A")).1)
               = Some "https://dl/0") by reflexivity.
  assert (H2 : _download_url_expires
                 (handler (get_download_url (bad_headers_world false) 0
                             plain_call (fresh_state "database-A")).1)
               = None) by reflexivity.
  split; [exact H1|]. split; [exact H2|].
  intros Hpy.
  exact (proj1 (proj1 (url_without_expiry (bad_headers_world false) 7
                         plain_call _ _ H1 H2) Hpy)).
Defined.

(** X12.  The request that a call sends on a stale cache: it is sent
    once, for the object of the handler; its keyword options are the
    caller's, with a [timeout] of 60 added only when the caller gave none;
    its parameters hold [preauthenticated] always, [duration] exactly when
    the caller gave one, and nothing under any other name than
    [preauthenticated], [duration], [filename] and [projectContext]. *)
Theorem request_contents (w : world) (now : Q) (c : call) (s : state) :
  cache_stale w now (handler s) = ret true ->
  exists req,
    calls (get_download_url w now c s).1 = calls s ++ [req] /\
    req_dxid req = _dxid (handler s) /\
    req_kwargs req !! "timeout"
    = Some (default (PyInt 60) (kwargs c !! "timeout")) /\
    (forall k, k <> "timeout" -> req_kwargs req !! k = kwargs c !! k) /\
    req_args req !! "preauthenticated" = Some (PyBool (preauthenticated c)) /\
    req_args req !! "duration" = PyInt <$> duration c /\
    (forall k, k <> "preauthenticated" -> k <> "duration" ->
               k <> "filename" -> k <> "projectContext" ->
               req_args req !! k = None).
Proof.
  intros Hstale. exists (request_of w s c).
  split.
  { destruct (locked_body_calls w now c (before_lock w c s).2
                (before_lock w c s).1) as [[_ Hc]|[Hno _]].
    - rewrite get_download_url_unfold. exact Hc.
    - by destruct Hno. }
  split; [done|].
  unfold request_of, with_timeout, has_key, FILE_REQUEST_TIMEOUT. simpl.
  split.
  { destruct (kwargs c !! "timeout") as [t|] eqn:Ht; simpl; [done|].
    by rewrite lookup_insert_eq. }
  split.
  { intros k Hk. destruct (kwargs c !! "timeout"); simpl; [done|].
    by rewrite lookup_insert_ne. }
  unfold build_args.
  destruct (resolve_project w (handler s) (project c)) as [p|];
    [destruct (is_NO_PROJECT_HINT p)|];
    destruct (duration c), (src_filename c); simpl;
    (split; [by simplify_map_eq|]); (split; [by simplify_map_eq|]);
    intros k H1 H2 H3 H4; by simplify_map_eq.
Qed.

Lemma request_contents_witness :
  cache_stale (sample_world false 0) 0 (handler (fresh_state "database-A"))
  = ret true /\
  exists req,
    calls (get_download_url (sample_world false 0) 0 (preauthenticated_call 30)
             (fresh_state "database-A")).1
    = calls (fresh_state "database-A") ++ [req] /\
    req_dxid req = _dxid (handler (fresh_state "database-A")) /\
    req_kwargs req !! "timeout"
    = Some (default (PyInt 60) (kwargs (preauthenticated_call 30) !! "timeout")).
Proof.
  assert (H : cache_stale (sample_world false 0) 0
                (handler (fresh_state "database-A")) = ret true)
    by reflexivity.
  split; [exact H|].
  destruct (request_contents (sample_world false 0) 0 (preauthenticated_call 30)
              (fresh_state "database-A") H) as (req & H1 & H2 & H3 & _).
  exists req. by repeat split.
Defined.

(** X13.  Which project is sent as [projectContext] (when the project is
    not the sentinel object itself):
    - a project given by the caller is sent as it is, and the existence
      collaborator plays no part;
    - without one, inside a job ([DX_JOB_ID] is set), nothing is sent,
      whatever the handler is bound to;
    - without one, outside a job, the project of the handler is sent when
      it is not empty and the existence collaborator says that it contains
      the object, and nothing is sent when the handler has no project or
      an empty one. *)
Theorem project_context_table (w : world) (self : DXDatabase) (c : call) :
  (forall p, project c = Some (StrObject p) ->
             args_of_call w self c !! "projectContext" = Some (PyStr p)) /\
  (project c = None -> has_key "DX_JOB_ID" (environ w) = true ->
   args_of_call w self c !! "projectContext" = None) /\
  (forall p, project c = None -> has_key "DX_JOB_ID" (environ w) = false ->
             _proj self = Some (StrObject p) -> p <> "" ->
             object_exists_in_project w (_dxid self) p = true ->
             args_of_call w self c !! "projectContext" = Some (PyStr p)) /\
  (project c = None ->
   _proj self = None \/ _proj self = Some (StrObject "") ->
   args_of_call w self c !! "projectContext" = None).
Proof.
  unfold args_of_call, build_args, resolve_project.
  split; [|split; [|split]].
  - intros p ->. simpl. by rewrite lookup_insert_eq.
  - intros -> ->. simpl.
    destruct (duration c), (src_filename c); by simplify_map_eq.
  - intros p -> -> -> Hp Hexists. simpl. unfold truthy. simpl.
    destruct (String.eqb_spec p ""); [done|]. simpl. rewrite Hexists. simpl.
    by rewrite lookup_insert_eq.
  - intros -> [-> | ->]; simpl;
      destruct (negb (has_key "DX_JOB_ID" (environ w)));
      destruct (duration c), (src_filename c); by simplify_map_eq.
Qed.

(** X14.  No call of [get_download_url], whatever its outcome, changes
    or removes a headers mapping that exists: after any calls in a row the
    heap is the old heap with new mappings added behind, so the mappings
    handed out earlier, and the ones that the cache held earlier, keep
    their items (also when the cache is refreshed). *)
Theorem handed_out_headers_stay (w : world) (later : list (Q * call))
    (s : state) :
  exists added,
    heap (get_download_urls w later s).1 = heap s ++ added /\
    forall l d, heap s !! l = Some d ->
                heap (get_download_urls w later s).1 !! l = Some d.
Proof.
  destruct (get_download_urls_heap w later s) as [added Hheap].
  exists added. split; [done|].
  intros l d Hl. rewrite Hheap. by apply lookup_app_l_Some.
Qed.

Lemma get_download_urls_valid w later : forall s,
  valid_state s -> valid_state (get_download_urls w later s).1.
Proof.
  induction later as [|[now c] later IH]; intros s Hvalid; [done|]. simpl.
  pose proof (get_download_url_valid w now c s Hvalid) as H1.
  destruct (get_download_url w now c s) as [s1 r].
  specialize (IH s1 H1).
  by destruct (get_download_urls w later s1) as [s2 rs].
Qed.

(** X15.  From a handler that [__init__] has returned, and through any
    calls of [get_download_url] (with any arguments, at any instants,
    with any outcomes), also after a re-binding by [set_ids], the
    cache stays well formed: cached headers always refer to a mapping
    that exists, and an expiry is never stored without headers. *)
Theorem cache_stays_well_formed (w : world) (workspace_id dxid dxid' : option string)
    (project project' : option project_ref) (mode : option string)
    (read_buffer_size : Z) (expected_file_size : option Z)
    (file_is_mmapd : bool) (self : DXDatabase) (later : list (Q * call)) :
  __init__ workspace_id dxid project mode read_buffer_size expected_file_size
    file_is_mmapd = ret self ->
  valid_state (state_of self) /\
  valid_state (get_download_urls w later (state_of self)).1 /\
  valid_state
    (get_download_urls w later
       (set_handler (set_ids workspace_id self dxid' project') (state_of self))).1.
Proof.
  intros Hinit. unfold __init__ in Hinit.
  destruct (parse_mode mode) as [e|flags]; [done|]. simpl in Hinit.
  injection Hinit as <-.
  assert (Hfresh : valid_state
            (state_of
               {| _dxid := dxid;
                  _proj := match project with
                           | Some p => Some p
                           | None => StrObject <$> workspace_id
                           end;
                  _binary_mode := flags.1; _close_on_exit := flags.2;
                  _read_buf := []; _read_bufsize := read_buffer_size;
                  _expected_file_size := expected_file_size;
                  _file_is_mmapd := file_is_mmapd;
                  _download_url := None; _download_url_headers := None;
                  _download_url_expires := None |})) by done.
  split; [done|]. split; by apply get_download_urls_valid.
Qed.

Lemma cache_stays_well_formed_witness :
  __init__ None (Some "database-A") None (Some "rb") 16777216 None false
  = ret (opened_as (Some "database-A") true 16777216) /\
  valid_state
    (get_download_urls (bad_headers_world false)
       [(0%Q, plain_call); (1%Q, preauthenticated_call 30)]
       (state_of (opened_as (Some "database-A") true 16777216))).1.
Proof.
  assert (H : __init__ None (Some "database-A") None (Some "rb") 16777216 None
                false
              = ret (opened_as (Some "database-A") true 16777216))
    by reflexivity.
  split; [exact H|].
  exact (proj1 (proj2 (cache_stays_well_formed (bad_headers_world false) None
                         (Some "database-A") None None None (Some "rb")
                         16777216 None false _
                         [(0%Q, plain_call); (1%Q, preauthenticated_call 30)]
                         H))).
Defined.

(** X16.  When the cached expiry has passed at the instant of the call
    and the transport answers well, the call sends one request, stores
    the new URL, new headers and new expiry, and returns the new URL with
    a copy of the new headers: never the expired URL. *)
Theorem expired_cache_is_refreshed (w : world) (now : Q) (c : call)
    (s : state) (u : string) (e e' : Q) (resp : response) :
  _download_url (handler s) = Some u ->
  _download_url_expires (handler s) = Some e ->
  (e < now)%Q ->
  database_download_file w (length (calls s)) (request_of w s c) = ret resp ->
  all_text (basestring w) (default [] (resp_headers resp)) ->
  stored_expiry c resp = Some e' ->
  (get_download_url w now c s).2
  = ret (Some (resp_url resp), Some (S (length (heap s)))) /\
  calls (get_download_url w now c s).1 = calls s ++ [request_of w s c] /\
  cached (handler (get_download_url w now c s).1)
  = (Some (resp_url resp), Some (length (heap s)), Some e') /\
  heap (get_download_url w now c s).1
  = heap s ++ [default [] (resp_headers resp); default [] (resp_headers resp)].
Proof.
  intros Hu He Hlt Hresp Htext He'.
  assert (Hstale : cache_stale w now (handler s) = ret true).
  { unfold cache_stale. by rewrite Hu, He, Qltb_true. }
  rewrite (get_download_url_stale w now c s Hstale), Hresp.
  rewrite (store_answer_ok w c resp e') by done.
  unfold copy_out, after_request, before_lock. simpl.
  rewrite length_app. simpl. rewrite Nat.add_1_r.
  repeat split.
  by rewrite deref_new, <- app_assoc.
Qed.

Lemma expired_cache_is_refreshed_witness :
  _download_url (handler preauthenticated_state) = Some "https://dl/0" /\
  _download_url_expires (handler preauthenticated_state)
  = Some (5629499534213120 # 140737488355328) /\
  (5629499534213120 # 140737488355328 < 41)%Q /\
  (get_download_url (sample_world false 100000) 41 plain_call
     preauthenticated_state).2
  = ret (Some "https://dl/1", Some 3%nat).
Proof.
  assert (H1 : _download_url (handler preauthenticated_state)
               = Some "https://dl/0") by (by vm_compute).
  assert (H2 : _download_url_expires (handler preauthenticated_state)
               = Some (5629499534213120 # 140737488355328)) by (by vm_compute).
  assert (H3 : (5629499534213120 # 140737488355328 < 41)%Q) by (by vm_compute).
  split; [exact H1|]. split; [exact H2|]. split; [exact H3|].
  refine (proj1 (expired_cache_is_refreshed (sample_world false 100000) 41
                   plain_call preauthenticated_state _ _ YEAR_3000 _
                   H1 H2 H3 eq_refl _ eq_refl)).
  by repeat constructor.
Defined.

(** ** The mutex *)

(** X17.  Mutual exclusion.  Whatever the transport does and however the
    threads are scheduled, at most one thread is between the acquisition
    and the release of the mutex, and the mutex is held exactly when
    there is one. *)
Theorem mutual_exclusion (w : world) (s : state) (cs : list call)
    (sched : schedule) :
  (forall i j ti tj,
      threads (run w sched (start s cs)) !! i = Some ti ->
      threads (run w sched (start s cs)) !! j = Some tj ->
      in_block ti = true -> in_block tj = true -> i = j) /\
  (mutex (run w sched (start s cs)) = true <->
   exists i t,
     threads (run w sched (start s cs)) !! i = Some t /\ in_block t = true).
Proof.
  destruct (run_keeps w sched (start s cs) (start_mutex s cs)) as [Hcnt _].
  unfold mutex_counts in Hcnt. split.
  - intros i j ti tj Hi Hj Hti Htj.
    destruct (decide (i = j)) as [|Hne]; [done|]. exfalso.
    pose proof (in_block_count_pos _ _ _ Hi Hti) as Hpos.
    destruct (mutex (run w sched (start s cs))); [|lia].
    assert (Hne' : j <> i) by done.
    pose proof (in_block_alone _ i ti j tj Hcnt Hi Hti Hne' Hj). congruence.
  - split.
    + intros Hm. rewrite Hm in Hcnt. apply in_block_count_find. lia.
    + intros (i & t & Hi & Ht).
      pose proof (in_block_count_pos _ _ _ Hi Ht) as Hpos.
      destruct (mutex (run w sched (start s cs))); [done | lia].
Qed.

(** X18.  No thread is left waiting.  Under a fair schedule all calls
    end, whatever the transport does (also when it raises, or answers
    with headers that are not text), and the mutex is free at the end:
    [with] releases it after an exception too. *)
Theorem fair_schedule_ends (w : world) (s : state) (cs : list call)
    (sched : schedule) :
  fair (length cs) (6 * length cs) sched ->
  all_done (run w sched (start s cs)) = true /\
  mutex (run w sched (start s cs)) = false /\
  length (threads (run w sched (start s cs))) = length cs.
Proof.
  intros Hfair.
  pose proof (fair_start_done w s cs sched Hfair) as Hdone.
  destruct (run_keeps w sched (start s cs) (start_mutex s cs))
    as (Hcnt & Hlen & _).
  split; [done|]. split.
  - unfold mutex_counts in Hcnt.
    destruct (mutex (run w sched (start s cs))); [|done]. exfalso.
    destruct (in_block_count_find (threads (run w sched (start s cs))))
      as (i & t & Hi & Ht); [lia|].
    unfold all_done in Hdone. rewrite forallb_forall in Hdone.
    apply list_elem_of_lookup_2, list_elem_of_In in Hi.
    specialize (Hdone _ Hi). by destruct t.
  - rewrite Hlen. unfold start. simpl. by rewrite length_map.
Qed.

Lemma fair_schedule_ends_witness :
  fair (length [plain_call; plain_call]) (6 * length [plain_call; plain_call])
    (round_robin 2 12 0) /\
  all_done (run (failing_world false "ServiceUnavailable") (round_robin 2 12 0)
              (start (fresh_state "database-A") [plain_call; plain_call]))
  = true.
Proof.
  pose proof (round_robin_fair 2 12 0) as H1.
  split; [exact H1|].
  exact (proj1 (fair_schedule_ends (failing_world false "ServiceUnavailable")
                  (fresh_state "database-A") [plain_call; plain_call]
                  (round_robin 2 12 0) H1)).
Defined.

(** ** The arithmetic of the stored expiry *)

(** X19.  [resp["expires"]/1000 - 60] gives a finite float or raises:
    the division raises [OverflowError] for an [expires] that is too
    large, which is beyond [1000 * 2^53], and the subtraction never
    overflows to an infinity. *)
Theorem expiry_is_finite (ms : Z) :
  (exists e, expiry_of ms = ret e /\ (Qabs e < 2 ^ 1024)%Q) \/
  (expiry_of ms = raise OverflowError /\ 1000 * 2 ^ 53 < Z.abs ms).
Proof.
  destruct (expiry_of ms) as [err|e] eqn:He.
  - right.
    assert (err = OverflowError) as ->.
    { unfold expiry_of, int_truediv in He.
      destruct (Qle_bool _ _); [by injection He as <- | done]. }
    split; [done|].
    destruct (Z.le_gt_cases (Z.abs ms) (1000 * 2 ^ 53)) as [Hsmall|]; [|lia].
    destruct (expiry_of_near ms Hsmall) as (e & He' & _).
    rewrite He in He'. discriminate.
  - left. exists e. split; [done|]. by apply (expiry_of_finite ms).
Qed.
